(** * AirCommand: the dashboard's command dispatcher, device-config parser,
      activity log and inbound-audio scheduler

    A shallow embedding of [App.tsx] (the version with [parseConfig]) and of
    [types.ts].  React state is modelled by explicit state passing:

    - a [useState] cell is a field of [World]; the value a handler *reads*
      through the render-time constant ([devices]) is an explicit argument of
      the handler, the value an updater receives ([prev]) is the field;
      updaters are applied once each, at the render that follows the calls
      that queue them: those of [devices] before those of [logs], as the cells
      are declared, and those of one cell in the order they were queued;
    - [Math.random()] and [new Date()] are read from a [Host] oracle, indexed
      by the number of reads made so far;
    - an [async] function with one [await] is a pair of functions, one up to
      the suspension point and one from it. *)

From Stdlib Require Import List String Ascii Bool Arith NArith ZArith QArith Qminmax Qround Lia.
From Stdlib Require Import DecimalString.
Import ListNotations.

Local Close Scope Q_scope.
Local Open Scope string_scope.
Local Open Scope nat_scope.
Local Open Scope list_scope.

(** ** JavaScript string primitives used by the application

    A JavaScript string is modelled by its UTF-8 encoding, one [ascii] per
    byte.  Splitting at a comma or a line feed, searching for an ASCII needle
    and comparing two strings give the same result on the encoding as on the
    string.  [trim] removes the white space and the line terminators of
    ECMAScript, which take up to three bytes each. *)

Module JS.

(** The UTF-8 encoding of a code point below U+10000. *)
Definition utf8 (cp : N) : string :=
  let byte n := ascii_of_N n in
  (if cp <? 128 then String (byte cp) EmptyString
   else if cp <? 2048 then
     String (byte (192 + cp / 64)) (String (byte (128 + cp mod 64)) EmptyString)
   else
     String (byte (224 + cp / 4096))
            (String (byte (128 + (cp / 64) mod 64))
                    (String (byte (128 + cp mod 64)) EmptyString)))%N.

(** WhiteSpace and LineTerminator of ECMAScript: TAB, LF, VT, FF, CR, SP,
    NBSP, the other space separators (Zs) of Unicode, LS, PS and ZWNBSP. *)
Definition whiteSpace : list string :=
  map utf8
      [9; 10; 11; 12; 13; 32; 160 (* U+00A0 *); 5760 (* U+1680 *);
       8192; 8193; 8194; 8195; 8196; 8197; 8198; 8199; 8200; 8201;
       8202 (* U+2000 .. U+200A *);
       8232 (* U+2028 *); 8233 (* U+2029 *); 8239 (* U+202F *);
       8287 (* U+205F *); 12288 (* U+3000 *); 65279 (* U+FEFF *)]%N.

Definition isWhiteSpace (s : string) : bool := existsb (String.eqb s) whiteSpace.

(** [s.trimStart()]: the first code point is dropped as long as it is white
    space; it is the first one, two or three bytes. *)
Fixpoint trimStart (s : string) : string :=
  match s with
  | EmptyString => EmptyString
  | String a r1 =>
      if isWhiteSpace (String a EmptyString) then trimStart r1
      else match r1 with
           | EmptyString => s
           | String b r2 =>
               if isWhiteSpace (String a (String b EmptyString)) then trimStart r2
               else match r2 with
                    | EmptyString => s
                    | String c r3 =>
                        if isWhiteSpace (String a (String b (String c EmptyString)))
                        then trimStart r3
                        else s
                    end
           end
  end.

(** [s.trimEnd()]: what is left of the tail is kept unless, with the byte in
    front of it, it is one white-space code point. *)
Fixpoint trimEnd (s : string) : string :=
  match s with
  | EmptyString => EmptyString
  | String c r =>
      let r' := trimEnd r in
      if isWhiteSpace (String c r') then EmptyString else String c r'
  end.

Definition trim (s : string) : string := trimEnd (trimStart s).

(** [s.split(sep)] for a one-character separator. *)
Fixpoint split (sep : ascii) (s : string) : list string :=
  match s with
  | EmptyString => [EmptyString]
  | String c r =>
      if Ascii.eqb c sep then EmptyString :: split sep r
      else match split sep r with
           | [] => [String c EmptyString]
           | h :: t => String c h :: t
           end
  end.

Definition startsWith (s p : string) : bool := String.prefix p s.

Fixpoint includes (s needle : string) : bool :=
  String.prefix needle s ||
  match s with
  | EmptyString => false
  | String _ r => includes r needle
  end.

(** [toLowerCase] is applied to a device name only to search the result for
    the ASCII words of [inferModel].  The letters A-Z are mapped; every other
    code point keeps its encoding, which has no ASCII byte, as its lower case
    has none either (or, for U+0130 and U+212A, none that these words could
    match: an i followed by U+0307, and a k). *)
Definition lowerChar (c : ascii) : ascii :=
  let n := nat_of_ascii c in
  if (65 <=? n)%nat && (n <=? 90)%nat then ascii_of_nat (n + 32) else c.

Fixpoint toLowerCase (s : string) : string :=
  match s with
  | EmptyString => EmptyString
  | String c r => String (lowerChar c) (toLowerCase r)
  end.

(** [xs.join(sep)] *)
Definition join (sep : string) (xs : list string) : string := String.concat sep xs.

(** [`${n}`] for a non-negative integer such as an array length. *)
Definition ofNat (n : nat) : string := NilZero.string_of_uint (Nat.to_uint n).

(** [x || dflt] for [x : string | undefined]: the empty string is falsy. *)
Definition orElse (x : option string) (dflt : string) : string :=
  match x with
  | Some s => if String.eqb s "" then dflt else s
  | None => dflt
  end.

(** [xs.includes(x)] on an array of strings. *)
Definition arrayIncludes (xs : list string) (x : string) : bool :=
  existsb (String.eqb x) xs.

End JS.

(** ** JavaScript numbers

    A number is a binary64.  [Binary64.round] is the rounding that every
    arithmetic operation ends with: to the nearest binary64, ties to even.
    It is written for rationals of magnitude below 2^1024, where the result
    is finite. *)

Module Binary64.

(** 2^e *)
Definition pow2 (e : Z) : Q :=
  match e with
  | Z0 => 1
  | Zpos p => inject_Z (Zpos (2 ^ p))
  | Zneg p => 1 # (2 ^ p)
  end.

(** floor (log2 q), for q > 0 *)
Definition ilog2 (q : Q) : Z :=
  let k := (Z.log2 (Qnum q) - Z.log2 (Zpos (Qden q)))%Z in
  if Qle_bool (pow2 k) q then k else (k - 1)%Z.

(** The nearest integer, ties to even. *)
Definition nearest (q : Q) : Z :=
  let f := Qfloor q in
  match (q - inject_Z f ?= 1 # 2)%Q with
  | Lt => f
  | Gt => (f + 1)%Z
  | Eq => if Z.even f then f else (f + 1)%Z
  end.

(** The exponent of the last place: 52 below the leading bit, and -1074 for
    subnormal numbers. *)
Definition ulpExponent (q : Q) : Z := Z.max (ilog2 q - 52) (-1074).

Definition roundPositive (q : Q) : Q :=
  let e := ulpExponent q in
  (inject_Z (nearest (q * pow2 (- e))) * pow2 e)%Q.

Definition round (q : Q) : Q :=
  match Qnum q with
  | Z0 => 0%Q
  | Zpos _ => roundPositive q
  | Zneg _ => (- roundPositive (- q))%Q
  end.

End Binary64.

(** ** types.ts *)

Inductive Status := connected | busy | offline.

Record IOSDevice := mkDevice {
  id : string;
  name : string;
  model : string;
  osVersion : string;
  ip : string;
  status : Status;
  batteryLevel : Z;
  currentApp : option string;
  lastScreenshot : option string
}.

Inductive LogSource := User | AI | System.
Inductive LogType := info | success | error | command.

Record LogEntry := mkLog {
  entryId : string;
  timestamp : Z;
  source : LogSource;
  message : string;
  type : LogType
}.

Inductive ScriptCommand :=
  URL | LAUNCH | KILL | INSTALL | UNINSTALL | SCREENSHOT | HOME | RESTART | APPS | TEXT | QUIT.

(** The string value of each enum member. *)
Definition commandValue (c : ScriptCommand) : string :=
  match c with
  | URL => "url" | LAUNCH => "launch" | KILL => "kill" | INSTALL => "install"
  | UNINSTALL => "uninstall" | SCREENSHOT => "screenshot" | HOME => "home"
  | RESTART => "restart" | APPS => "apps" | TEXT => "text" | QUIT => "quit"
  end.

(** [Object.values(ScriptCommand)], in declaration order. *)
Definition ScriptCommand_values : list ScriptCommand :=
  [URL; LAUNCH; KILL; INSTALL; UNINSTALL; SCREENSHOT; HOME; RESTART; APPS; TEXT; QUIT].

Definition Status_eqb (a b : Status) : bool :=
  match a, b with
  | connected, connected | busy, busy | offline, offline => true
  | _, _ => false
  end.

(** [d.status !== 'offline'] *)
Definition notOffline (d : IOSDevice) : bool := negb (Status_eqb (status d) offline).

(** The object spread [{ ...d, status: s }]. *)
Definition withStatus (s : Status) (d : IOSDevice) : IOSDevice :=
  mkDevice (id d) (name d) (model d) (osVersion d) (ip d) s
           (batteryLevel d) (currentApp d) (lastScreenshot d).

(** ** The host environment and the component's state *)

Record Host := mkHost {
  Math_random : nat -> Q;          (* the k-th value returned by Math.random() *)
  Date_now : nat -> Z;             (* the clock at the k-th read *)
  toString36 : Q -> string;        (* x.toString(36).substring(7) *)
  numberToString : Q -> string     (* `${x}` *)
}.

Record World := mkWorld {
  registry : list IOSDevice;           (* live value of the [devices] state cell *)
  logs : list LogEntry;                (* live value of the [logs] state cell *)
  commits : list (list IOSDevice);     (* ghost: every value installed by setDevices, oldest first *)
  reads : nat                          (* ghost: host reads made so far *)
}.

Definition setDevices (f : list IOSDevice -> list IOSDevice) (w : World) : World :=
  let next := f (registry w) in
  mkWorld next (logs w) (commits w ++ [next]) (reads w).

Section Application.

Variable host : Host.

(** [addLog(source, message, type)], lines 71-79. *)
Definition addLog (src : LogSource) (msg : string) (ty : LogType) (w : World) : World :=
  let entry := mkLog (toString36 host (Math_random host (reads w)))
                     (Date_now host (reads w)) src msg ty in
  mkWorld (registry w) (logs w ++ [entry]) (commits w) (S (reads w)).

(** One read of [Math.random()]. *)
Definition random (w : World) : Q * World :=
  (Math_random host (reads w),
   mkWorld (registry w) (logs w) (commits w) (S (reads w))).

(** *** Config parsing, lines 82-127 *)

(** The display heuristic of lines 97-107: (model, os). *)
Definition inferModel (name : string) : string * string :=
  if JS.includes (JS.toLowerCase name) "iphone" then
    if JS.includes name "16" then ("iPhone 15 Pro", "iOS 17.0")
    else if JS.includes name "17" then ("iPhone 16 Pro Max", "iOS 17.0")
    else ("iPhone", "iOS 17.0")
  else if JS.includes (JS.toLowerCase name) "ipad" then ("iPad Air", "iPadOS 17.0")
  else ("Unknown Device", "iOS 17.0").

(** [Math.floor(r * 40) + 60]: the product is rounded, the floor and the sum
    of two small integers are exact. *)
Definition randomBattery (r : Q) : Z := (Qfloor (Binary64.round (r * 40)) + 60)%Z.

(** The body of [lines.forEach(line => ...)]: the accumulator is
    [parsedDevices] together with the number of host reads. *)
Definition parseConfig_line (acc : list IOSDevice * nat) (line : string)
  : list IOSDevice * nat :=
  let '(parsedDevices, k) := acc in
  let trimmed := JS.trim line in
  if String.eqb trimmed "" || JS.startsWith trimmed "#" then acc
  else
    let parts := map JS.trim (JS.split "," trimmed) in
    if 3 <=? List.length parts then
      match parts with
      | name :: udid :: host_ :: _ =>
          let '(model, os) := inferModel name in
          (parsedDevices ++
             [mkDevice udid name model os host_ connected
                       (randomBattery (Math_random host k)) (Some "SpringBoard") None],
           S k)
      | _ => acc
      end
    else acc.

Definition parseConfig (content : string) (w : World) : World :=
  let lines := JS.split "010" content in
  let '(parsedDevices, k) := fold_left parseConfig_line lines ([], reads w) in
  let w1 := setDevices (fun _ => parsedDevices)
                       (mkWorld (registry w) (logs w) (commits w) k) in
  addLog System
         ("Configuration loaded. " ++ JS.ofNat (List.length parsedDevices) ++ " devices found.")%string
         success w1.

(** *** Script execution, lines 138-186 *)

(** Lines 139-144.  [devices] is the render-time constant the handler closes
    over. *)
Definition resolveTargets (devices : list IOSDevice) (targetDevices : list string)
  : list IOSDevice :=
  let isAll := JS.arrayIncludes targetDevices "all" in
  if isAll
  then filter notOffline devices
  else filter (fun d => JS.arrayIncludes targetDevices (id d) && notOffline d) devices.

(** [targets.find(t => t.id === d.id)], used as a condition. *)
Definition isTarget (targets : list IOSDevice) (d : IOSDevice) : bool :=
  existsb (fun t => String.eqb (id t) (id d)) targets.

(** Lines 155-160: the updater of the first [setDevices]. *)
Definition markBusy (targets prev : list IOSDevice) : list IOSDevice :=
  map (fun d => if isTarget targets d then withStatus busy d else d) prev.

(** [Partial<IOSDevice>] restricted to the fields the dispatcher writes. *)
Record Updates := mkUpdates {
  u_status : option Status;
  u_currentApp : option string;
  u_lastScreenshot : option string
}.

Definition setStatus (s : Status) (u : Updates) : Updates :=
  mkUpdates (Some s) (u_currentApp u) (u_lastScreenshot u).
Definition setCurrentApp (a : string) (u : Updates) : Updates :=
  mkUpdates (u_status u) (Some a) (u_lastScreenshot u).
Definition setLastScreenshot (x : string) (u : Updates) : Updates :=
  mkUpdates (u_status u) (u_currentApp u) (Some x).

(** [{ ...d, ...updates }] *)
Definition spread (d : IOSDevice) (u : Updates) : IOSDevice :=
  mkDevice (id d) (name d) (model d) (osVersion d) (ip d)
           (match u_status u with Some s => s | None => status d end)
           (batteryLevel d)
           (match u_currentApp u with Some a => Some a | None => currentApp d end)
           (match u_lastScreenshot u with Some x => Some x | None => lastScreenshot d end).

Definition screenshotUrl (r : Q) : string :=
  ("https://picsum.photos/seed/" ++ numberToString host r ++ "/360/640")%string.

(** What a call of [addLog] asks for: source, message, severity. *)
Definition LogRequest : Type := LogSource * string * LogType.

Definition addLogs (requests : list LogRequest) (w : World) : World :=
  fold_left (fun w '(src, msg, ty) => addLog src msg ty w) requests w.

(** Lines 168-179, the switch.  It runs inside a state updater, that is,
    while React renders: a call of [addLog] made there only asks for an entry,
    which React puts behind the entries that were queued before the render. *)
Definition commandEffects (action : ScriptCommand) (argument : option string)
           (d : IOSDevice) (w : World) : Updates * World * list LogRequest :=
  let updates := mkUpdates (Some connected) None None in
  match action with
  | URL => (setCurrentApp "Safari" updates, w, [])
  | LAUNCH => (setCurrentApp (JS.orElse argument "App") updates, w, [])
  | KILL => (setCurrentApp "SpringBoard" updates, w, [])
  | HOME => (setCurrentApp "SpringBoard" updates, w, [])
  | RESTART => (setStatus offline updates, w, [])
  | SCREENSHOT =>
      let '(r, w1) := random w in (setLastScreenshot (screenshotUrl r) updates, w1, [])
  | TEXT => (updates, w, [(System, ("Typed text on " ++ name d)%string, success)])
  | INSTALL | UNINSTALL | APPS | QUIT => (updates, w, [])
  end.

(** Lines 168-180: the record that replaces a targeted device, and the host
    reads made for it. *)
Definition applyCommand (action : ScriptCommand) (argument : option string)
           (d : IOSDevice) (w : World) : IOSDevice * World :=
  let '(updates, w1, _) := commandEffects action argument d w in
  (spread d updates, w1).

(** Lines 166-182: the updater of the second [setDevices], run over [prev]
    from left to right: the new registry, the world after its host reads, and
    the log entries it asked for. *)
Fixpoint settleAll (action : ScriptCommand) (argument : option string)
         (targets prev : list IOSDevice) (w : World)
  : list IOSDevice * World * list LogRequest :=
  match prev with
  | [] => ([], w, [])
  | d :: rest =>
      let '(d', w1, asked1) :=
        if isTarget targets d
        then (applyCommand action argument d w, snd (commandEffects action argument d w))
        else (d, w, []) in
      let '(rest', w2, asked2) := settleAll action argument targets rest w1 in
      (d' :: rest', w2, asked1 ++ asked2)
  end.

(** The registry update of the render that follows the settle delay. *)
Definition settle (action : ScriptCommand) (argument : option string)
           (targets : list IOSDevice) (w : World) : World :=
  let '(next, w1, _) := settleAll action argument targets (registry w) w in
  setDevices (fun _ => next) w1.

(** The handler is suspended once, at the settle delay of line 163. *)
Inductive Pending :=
| Returned (result : string) (w : World)
| Awaiting (targets : list IOSDevice) (deviceNames : string) (w : World).

Definition handleScriptExecution_begin (devices : list IOSDevice)
           (action : ScriptCommand) (argument : option string)
           (targetDevices : list string) (w : World) : Pending :=
  let targets := resolveTargets devices targetDevices in
  if List.length targets =? 0 then
    Returned "Error: No online devices found for the command."
             (addLog System ("No valid targets found for action: " ++ commandValue action)%string
                     error w)
  else
    let deviceNames := JS.join ", " (map name targets) in
    let w1 := addLog System
                ("Executing: ./connect_ios_wireless.sh " ++ commandValue action ++ " "
                 ++ JS.orElse argument "" ++ " on [" ++ deviceNames ++ "]")%string
                command w in
    Awaiting targets deviceNames (setDevices (markBusy targets) w1).

Definition handleScriptExecution_resume (action : ScriptCommand)
           (argument : option string) (targets : list IOSDevice)
           (deviceNames : string) (w : World) : string * World :=
  (* Lines 166-182 queue the updater of [devices], line 184 queues the
     success entry, and React renders: the updater of [devices] runs first,
     then the entries are added to the log in the order they were asked for. *)
  let '(next, w1, asked) := settleAll action argument targets (registry w) w in
  let w2 := setDevices (fun _ => next) w1 in
  let w3 := addLog System
              ("Successfully executed " ++ commandValue action ++ " on "
               ++ JS.ofNat (List.length targets) ++ " devices.")%string
              success w2 in
  (("Command " ++ commandValue action ++ " executed successfully on " ++ deviceNames ++ ".")%string,
   addLogs asked w3).

(** A dispatch that nothing interleaves with during the delay. *)
Definition handleScriptExecution (devices : list IOSDevice)
           (action : ScriptCommand) (argument : option string)
           (targetDevices : list string) (w : World) : string * World :=
  match handleScriptExecution_begin devices action argument targetDevices w with
  | Returned result w1 => (result, w1)
  | Awaiting targets deviceNames w1 =>
      handleScriptExecution_resume action argument targets deviceNames w1
  end.

(** *** Tool calls of an inbound message, lines 291-305 *)

Record FunctionCall := mkCall {
  fc_id : string;
  fc_name : string;
  args_action : ScriptCommand;
  args_argument : option string;
  args_targetDevices : option (list string)   (* [None]: null or undefined *)
}.

Record ToolResponse := mkResponse {
  resp_id : string;
  resp_name : string;
  resp_result : string
}.

(** [args.targetDevices || ['all']]: every array, also the empty one, is truthy. *)
Definition targetsOrAll (targetDevices : option (list string)) : list string :=
  match targetDevices with
  | Some l => l
  | None => ["all"]
  end.

(** The body of [for (const fc of msg.toolCall.functionCalls)]. *)
Definition onmessage_call (devices : list IOSDevice) (fc : FunctionCall) (w : World)
  : ToolResponse * World :=
  let w1 := addLog AI ("Identified Intent: " ++ fc_name fc)%string info w in
  let '(result, w2) :=
    if String.eqb (fc_name fc) "execute_ios_script"
    then handleScriptExecution devices (args_action fc) (args_argument fc)
                               (targetsOrAll (args_targetDevices fc)) w1
    else ("Error executing command.", w1) in
  (mkResponse (fc_id fc) (fc_name fc) result, w2).

Fixpoint onmessage_toolCall (devices : list IOSDevice) (functionCalls : list FunctionCall)
         (w : World) : list ToolResponse * World :=
  match functionCalls with
  | [] => ([], w)
  | fc :: rest =>
      let '(r, w1) := onmessage_call devices fc w in
      let '(rs, w2) := onmessage_toolCall devices rest w1 in
      (r :: rs, w2)
  end.

(** *** Session callbacks that only log, lines 252-253 and 307-315 *)

Definition onopen (w : World) : World :=
  addLog AI "Connected. Listening for voice commands..." success w.
Definition onclose (w : World) : World :=
  addLog System "Connection closed." info w.
Definition onerror (w : World) : World :=
  addLog System "Connection error occurred." error w.

(** The mount effect, lines 130-135. *)
Definition initialize (configContent : string) (w : World) : World :=
  addLog System "iOS AirCommand Dashboard Initialized." info (parseConfig configContent w).

End Application.

(** ** Inbound audio, lines 272-289

    Playback times are JavaScript numbers.  The scheduler only compares them,
    takes a maximum and adds a duration, so it is written over any carrier with
    those operations; [t_add] is the addition of the code, whatever its
    rounding.  [Timeline] lists the laws the proofs use: they are laws of the
    finite binary64 values with their correctly rounded addition, and of the
    exact rationals. *)

Class Timeline (T : Type) := {
  t_le : T -> T -> Prop;
  t_max : T -> T -> T;                  (* Math.max *)
  t_add : T -> T -> T;                  (* + *)
  t_zero : T;
  t_le_refl : forall a, t_le a a;
  t_le_trans : forall a b c, t_le a b -> t_le b c -> t_le a c;
  t_max_l : forall a b, t_le a (t_max a b);
  t_max_r : forall a b, t_le b (t_max a b);
  t_max_case : forall a b, t_max a b = a \/ t_max a b = b;
  t_add_nonneg : forall a d, t_le t_zero d -> t_le a (t_add a d)
}.

Section AudioBridge.

Context {T : Type} `{Timeline T}.

Record Bridge := mkBridge {
  nextStartTime : T;                (* nextStartTimeRef.current *)
  isTalking : bool;
  started : list (T * T)            (* ghost: (start, duration) of every source.start, oldest first *)
}.

(** An inbound chunk as the handler sees it: the playback clock
    [ctx.currentTime] when the message is handled and the duration of the
    decoded buffer. *)
Record Chunk := mkChunk {
  currentTime : T;
  duration : T
}.

(** The handler is suspended once, at the [await] of the decoder (line 278).
    Lines 274-276, up to the suspension: *)
Definition onAudio (clock : T) (b : Bridge) : Bridge :=
  mkBridge (t_max (nextStartTime b) clock) true (started b).

(** Lines 280-284, from the suspension on, with the duration of the decoded
    buffer: the chunk starts at the cursor as it is now. *)
Definition onDecoded (duration : T) (b : Bridge) : Bridge :=
  mkBridge (t_add (nextStartTime b) duration) (isTalking b)
           (started b ++ [(nextStartTime b, duration)]).

(** The handlers of several messages may be suspended at the same time: a
    run is any sequence of their two steps. *)
Inductive AudioStep :=
| Arrives (clock : T)
| Decoded (duration : T).

Definition audioStep (s : AudioStep) (b : Bridge) : Bridge :=
  match s with
  | Arrives clock => onAudio clock b
  | Decoded duration => onDecoded duration b
  end.

Definition audioRun (steps : list AudioStep) (b : Bridge) : Bridge :=
  fold_left (fun b s => audioStep s b) steps b.

(** A handler that no other audio handler interleaves with. *)
Definition playChunk (c : Chunk) (b : Bridge) : Bridge :=
  onDecoded (duration c) (onAudio (currentTime c) b).

(** Chunks handled one after the other, in arrival order. *)
Definition playAll (cs : list Chunk) (b : Bridge) : Bridge :=
  fold_left (fun b c => playChunk c b) cs b.

End AudioBridge.

Arguments Bridge T : clear implicits.
Arguments Chunk T : clear implicits.
Arguments AudioStep T : clear implicits.

(** The exact rationals.  The examples are computed at this instance; their
    times are small dyadic numbers, which binary64 adds without rounding. *)

#[export] Instance Q_Timeline : Timeline Q :=
  {| t_le := Qle; t_max := Qmax; t_add := Qplus; t_zero := 0%Q;
     t_le_refl := Qle_refl; t_le_trans := Qle_trans;
     t_max_l := Q.le_max_l; t_max_r := Q.le_max_r;
     t_max_case := ltac:(intros a b; unfold Qmax, GenericMinMax.gmax;
                         destruct (a ?= b)%Q; auto);
     t_add_nonneg := ltac:(intros a d Hd; rewrite <- (Qplus_0_r a) at 1;
                           apply Qplus_le_r; exact Hd) |}.

(** ** The component as a whole: which [devices] a handler reads

    A handler defined in the component body closes over the [devices] constant
    of the render that created it.  The quick-action buttons (line 452) are
    re-created by every render, so a click runs the handler of the latest
    render.  The callbacks handed to [ai.live.connect] (lines 251-316) are
    created once, by the [toggleConnection] call that opens the session, and
    keep the handler of that render for as long as the session lives. *)

Record Message (T : Type) := mkMessage {
  audio : option (Chunk T);                    (* inline audio, once decoded *)
  toolCall : option (list FunctionCall)
}.
Arguments audio {T} _.
Arguments toolCall {T} _.

(** What the environment answers during [toggleConnection]. *)
Record ConnectEnv := mkConnectEnv {
  apiKey : bool;                 (* the [apiKey] state is non-empty *)
  selectKey : option bool;       (* [None]: no key picker; [Some ok]: it returns / throws *)
  currentKey : bool;             (* process.env.API_KEY is non-empty *)
  microphone : bool              (* getUserMedia resolves; [false]: it throws *)
}.

Section Component.

Variable host : Host.
Context {T : Type} `{Timeline T}.

Record App := mkApp {
  world : World;
  bridge : Bridge T;
  isConnected : bool;
  outputAudioContext : bool;                      (* outputAudioContextRef.current is set *)
  sessionDevices : option (list IOSDevice);       (* [devices] as closed over by the session callbacks *)
  sent : list ToolResponse                        (* tool responses handed to the session *)
}.

Definition onWorld (f : World -> World) (a : App) : App :=
  mkApp (f (world a)) (bridge a) (isConnected a) (outputAudioContext a)
        (sessionDevices a) (sent a).

Definition setIsConnected (b : bool) (a : App) : App :=
  mkApp (world a) (bridge a) b (outputAudioContext a) (sessionDevices a) (sent a).

(** [toggleConnection], lines 189-324, run by the handler of a render whose
    [devices] constant is [devices]. *)
Definition toggleConnection (env : ConnectEnv) (devices : list IOSDevice) (a : App) : App :=
  if isConnected a then
    onWorld (addLog host System "Voice session ended." info) (setIsConnected false a)
  else if negb (apiKey env) && negb (match selectKey env with Some true => true | _ => false end)
  then a
  else if negb (currentKey env) then
    onWorld (addLog host System "API Key not available. Please select one." error) a
  else
    let a1 := onWorld (addLog host System "Initializing Gemini Live session..." info)
                      (setIsConnected true a) in
    let a2 := mkApp (world a1) (bridge a1) (isConnected a1) true (sessionDevices a1)
                    (sent a1) in
    if microphone env then
      mkApp (world a2) (bridge a2) (isConnected a2) (outputAudioContext a2)
            (Some devices) (sent a2)
    else
      onWorld (addLog host System "Failed to initialize AI session." error)
              (setIsConnected false a2).

(** [onmessage], lines 271-306, as created by a handler whose [devices]
    constant is [devices]. *)
Definition onmessage (devices : list IOSDevice) (msg : Message T) (a : App) : App :=
  let b1 :=
    match audio msg with
    | Some c => if outputAudioContext a then playChunk c (bridge a) else bridge a
    | None => bridge a
    end in
  match toolCall msg with
  | Some functionCalls =>
      let '(rs, w1) := onmessage_toolCall host devices functionCalls (world a) in
      mkApp w1 b1 (isConnected a) (outputAudioContext a) (sessionDevices a) (sent a ++ rs)
  | None =>
      mkApp (world a) b1 (isConnected a) (outputAudioContext a) (sessionDevices a) (sent a)
  end.

(** The commands that have a quick-action button, line 451. *)
Definition quickActions : list ScriptCommand := firstn 8 ScriptCommand_values.

Inductive Event :=
| ClickToggle (env : ConnectEnv)
| ClickQuickAction (button : nat)
| ClickApplyChanges (configContent : string)
| SessionOpen
| SessionMessage (msg : Message T)
| SessionClose
| SessionError.

(** Clicks run the handlers of the latest render, whose [devices] constant
    is the live registry; session events run the callbacks of the session. *)
Definition step (e : Event) (a : App) : App :=
  match e with
  | ClickToggle env => toggleConnection env (registry (world a)) a
  | ClickQuickAction button =>
      match nth_error quickActions button with
      | Some cmd =>
          onWorld (fun w => snd (handleScriptExecution host (registry w) cmd None ["all"] w)) a
      | None => a
      end
  | ClickApplyChanges configContent => onWorld (parseConfig host configContent) a
  | SessionOpen =>
      match sessionDevices a with Some _ => onWorld (onopen host) a | None => a end
  | SessionMessage msg =>
      match sessionDevices a with Some devices => onmessage devices msg a | None => a end
  | SessionClose =>
      match sessionDevices a with
      | Some _ => setIsConnected false (onWorld (onclose host) a)
      | None => a
      end
  | SessionError =>
      match sessionDevices a with
      | Some _ => setIsConnected false (onWorld (onerror host) a)
      | None => a
      end
  end.

Definition run (es : list Event) (a : App) : App :=
  fold_left (fun a e => step e a) es a.

End Component.

Arguments App T : clear implicits.
Arguments Event T : clear implicits.

(** ** components/DeviceCard.tsx: what a card shows

    The card is its markup; the record below keeps the decisions the markup
    depends on.  [Tone] is the colour family of a class name, without its
    shade. *)

Inductive Tone := emerald | amber | rose.

Inductive Screen :=
| ScreenImage (src : string)                       (* <img src=...> *)
| ScreenPlaceholder (pulse : bool) (text : string).

Record Card := mkCard {
  card_dimmed : bool;            (* opacity-50 grayscale *)
  card_busyOverlay : bool;       (* the pulsing overlay *)
  card_ping : option Tone;       (* the animate-ping ring around the status dot *)
  card_dot : Tone;               (* the status dot *)
  card_screen : Screen;
  card_batteryTone : Tone;
  card_activeApp : string
}.

Definition DeviceCard (device : IOSDevice) : Card :=
  let isOnline := notOffline device in
  let isBusy := Status_eqb (status device) busy in
  mkCard (negb isOnline)
         isBusy
         (if isOnline
          then Some (if Status_eqb (status device) connected then emerald else amber)
          else None)
         (if Status_eqb (status device) connected then emerald
          else if Status_eqb (status device) busy then amber else rose)
         (match lastScreenshot device with
          | Some src =>
              if String.eqb src ""
              then ScreenPlaceholder isOnline (if isOnline then "AWAITING INPUT" else "NO SIGNAL")
              else ScreenImage src
          | None =>
              ScreenPlaceholder isOnline (if isOnline then "AWAITING INPUT" else "NO SIGNAL")
          end)
         (if (batteryLevel device <? 20)%Z then rose else emerald)
         (JS.orElse (currentApp device) "SpringBoard").

(** ** components/Terminal.tsx: what the terminal shows

    One row per log entry, in order; the empty-state notice when there is no
    entry.  A row keeps the source (which selects the label), the colour of
    the message and the message; the rendered time of day is left out. *)

Inductive TextTone := text_rose | text_emerald | text_amber | text_slate.

Record TerminalRow := mkRow {
  row_source : LogSource;
  row_tone : TextTone;
  row_text : string
}.

Record TerminalView := mkTerminal {
  term_placeholder : bool;       (* "System Ready. Waiting for input..." *)
  term_rows : list TerminalRow
}.

Definition Terminal (logs : list LogEntry) : TerminalView :=
  mkTerminal (List.length logs =? 0)
             (map (fun log =>
                     mkRow (source log)
                           (match type log with
                            | error => text_rose
                            | success => text_emerald
                            | command => text_amber
                            | info => text_slate
                            end)
                           (message log))
                  logs).

(** * Vocabulary of the properties *)

(** ** Logs and worlds *)

(** What a handler may do to the log: add entries at the end. *)
Definition extends (old new : list LogEntry) : Prop :=
  exists added, new = old ++ added.

(** The part of the world that only the registry updates touch. *)
Definition sameRegistry (w w' : World) : Prop :=
  registry w' = registry w /\ commits w' = commits w /\
  reads w <= reads w' /\ extends (logs w) (logs w').

(** ** Registries *)

(** Records that share an identifier share a status.  Every registry the
    component reaches has this property ([run_ids_determine_status]), and so
    has every registry with unique identifiers. *)
Definition ids_determine_status (l : list IOSDevice) : Prop :=
  forall d e, In d l -> In e l -> id d = id e -> status d = status e.

(** Every record with identifier [x] is offline. *)
Definition offlineById (x : string) (l : list IOSDevice) : Prop :=
  forall d, In d l -> id d = x -> status d = offline.

(** ** Settled records *)

(** The status a targeted record settles in. *)
Definition settledStatus (action : ScriptCommand) : Status :=
  match action with RESTART => offline | _ => connected end.

(** The active app that the launch action would set if only an absent
    argument were replaced by the placeholder. *)
Definition launchedApp_absent_only (argument : option string) : string :=
  match argument with
  | Some a => a
  | None => "App"
  end.

(** The record the home action leaves for a targeted device. *)
Definition atHome (d : IOSDevice) : IOSDevice :=
  mkDevice (id d) (name d) (model d) (osVersion d) (ip d) connected
           (batteryLevel d) (Some "SpringBoard") (lastScreenshot d).

Definition homeUpdate (targets : list IOSDevice) (d : IOSDevice) : IOSDevice :=
  if isTarget targets d then atHome d else d.

Section RecordRelations.

Variable host : Host.

(** How the second registry update relates each record of [prev] to the
    record that replaces it. *)
Definition settledFrom (action : ScriptCommand) (argument : option string)
           (targets : list IOSDevice) (w : World) (d d' : IOSDevice) : Prop :=
  if isTarget targets d
  then exists w0, reads w <= reads w0 /\ d' = fst (applyCommand host action argument d w0)
  else d' = d.

(** The record that replaces [d] in the registry once the dispatch is over. *)
Definition replacedBy (action : ScriptCommand) (argument : option string)
           (targets : list IOSDevice) (w : World) (d f : IOSDevice) : Prop :=
  if isTarget targets d
  then exists w0, reads w <= reads w0 /\
                  f = fst (applyCommand host action argument (withStatus busy d) w0)
  else f = d.

End RecordRelations.

(** A dispatch request: action, argument, target list. *)
Definition Request : Type := ScriptCommand * option string * list string.

(** Dispatches run one after the other, each by the handler of the latest
    render (the quick-action buttons' path). *)
Definition dispatchLatest (host : Host) (rs : list Request) (w : World) : World :=
  fold_left (fun w '(action, argument, targetDevices) =>
               snd (handleScriptExecution host (registry w) action argument
                                          targetDevices w))
            rs w.

(** ** Configuration lines *)

(** The comma-separated fields of a line, as the parser takes them: the line
    is trimmed, cut at every comma, and each piece is trimmed. *)
Definition configFields (line : string) : list string :=
  map JS.trim (JS.split "," (JS.trim line)).

Definition blankOrComment (line : string) : bool :=
  String.eqb (JS.trim line) "" || JS.startsWith (JS.trim line) "#".

(** What one line of the configuration contributes, in the words of the
    format: nothing for a blank line, a comment or a line with fewer than
    three fields, else the triple (name, identifier, host). *)
Definition configRecord (line : string) : list (string * string * string) :=
  if blankOrComment line then []
  else match configFields line with
       | name :: identifier :: host :: _ => [(name, identifier, host)]
       | _ => []
       end.

Definition deviceTriple (d : IOSDevice) : string * string * string :=
  (name d, id d, ip d).

(** ** Playback schedules *)

Section Schedules.

Context {T : Type} `{Timeline T}.

(** The (start, duration) pairs that a run of chunks adds, given the cursor
    it starts from. *)
Fixpoint schedule (cursor : T) (cs : list (Chunk T)) : list (T * T) :=
  match cs with
  | [] => []
  | c :: rest =>
      let start := t_max cursor (currentTime c) in
      (start, duration c) :: schedule (t_add start (duration c)) rest
  end.

(** The (start, duration) pairs that a run of handler steps adds, given the
    cursor it starts from. *)
Fixpoint scheduleRun (cursor : T) (steps : list (AudioStep T)) : list (T * T) :=
  match steps with
  | [] => []
  | Arrives clock :: rest => scheduleRun (t_max cursor clock) rest
  | Decoded duration :: rest => (cursor, duration) :: scheduleRun (t_add cursor duration) rest
  end.

(** The number of chunks that a run starts. *)
Fixpoint decodings (steps : list (AudioStep T)) : nat :=
  match steps with
  | [] => 0
  | Arrives _ :: rest => decodings rest
  | Decoded _ :: rest => S (decodings rest)
  end.

(** The run in which every handler ends before the next message arrives. *)
Definition sequentialRun (cs : list (Chunk T)) : list (AudioStep T) :=
  flat_map (fun c => [Arrives (currentTime c); Decoded (duration c)]) cs.

(** Chunks played one right after the other, from [start] on. *)
Fixpoint backToBack (start : T) (durations : list T) : list (T * T) :=
  match durations with
  | [] => []
  | d :: rest => (start, d) :: backToBack (t_add start d) rest
  end.

End Schedules.

(** ** Vocabulary of the properties beyond the specification *)

(** The fields of a record that no handler writes. *)
Definition sameIdentity (d f : IOSDevice) : Prop :=
  id f = id d /\ name f = name d /\ model f = model d /\
  osVersion f = osVersion d /\ ip f = ip d /\ batteryLevel f = batteryLevel d.

(** A log entry without its random identifier and its time stamp. *)
Definition logLine (e : LogEntry) : LogSource * LogType * string :=
  (source e, type e, message e).

(** The log line that a call of [addLog] asks for. *)
Definition requestLine (r : LogRequest) : LogSource * LogType * string :=
  let '(src, msg, ty) := r in (src, ty, msg).

(** The records of a registry that a target set reaches. *)
Definition reached (targets prev : list IOSDevice) : list IOSDevice :=
  filter (isTarget targets) prev.

Definition isApplyChanges {T : Type} (e : Event T) : bool :=
  match e with ClickApplyChanges _ => true | _ => false end.

Definition isToggle {T : Type} (e : Event T) : bool :=
  match e with ClickToggle _ => true | _ => false end.

Definition noneBusy (l : list IOSDevice) : Prop :=
  forall d, In d l -> status d <> busy.

(** The log lines a text dispatch writes for the records it reaches. *)
Definition typedLines (ds : list IOSDevice) : list (LogSource * LogType * string) :=
  map (fun d => (System, success, ("Typed text on " ++ name d)%string)) ds.

(** The status of a record once a dispatch with these targets is over. *)
Definition statusAfter (action : ScriptCommand) (targets : list IOSDevice)
           (d : IOSDevice) : Status :=
  if isTarget targets d then settledStatus action else status d.

(** [s] contains the character [c]. *)
Fixpoint hasChar (c : ascii) (s : string) : bool :=
  match s with
  | EmptyString => false
  | String c' r => Ascii.eqb c' c || hasChar c r
  end.

(** A string made of white space only. *)
Inductive Blank : string -> Prop :=
| Blank_nil : Blank ""
| Blank_cons p s : In p JS.whiteSpace -> Blank s -> Blank (p ++ s)%string.

(** No white-space code point at the start, at the end. *)
Definition noSpaceAtStart (s : string) : Prop :=
  forall p r, In p JS.whiteSpace -> s <> (p ++ r)%string.
Definition noSpaceAtEnd (s : string) : Prop :=
  forall p r, In p JS.whiteSpace -> s <> (r ++ p)%string.

(** A field with no white space or line terminator at either end, no comma
    and no line feed. *)
Definition cleanField (s : string) : Prop :=
  noSpaceAtStart s /\ noSpaceAtEnd s /\ JS.trim s = s /\
  hasChar "," s = false /\ hasChar "010" s = false.

Definition newline : string := String "010"%char EmptyString.

(** The state in which the parser creates a record. *)
Definition freshRecord (d : IOSDevice) : Prop :=
  status d = connected /\ currentApp d = Some "SpringBoard" /\ lastScreenshot d = None.

(** A connect attempt has a credential and the microphone. *)
Definition canConnect (env : ConnectEnv) : bool :=
  (apiKey env || match selectKey env with Some true => true | _ => false end)
  && currentKey env && microphone env.

(** The part of a record that decides whether and how it is dispatched to. *)
Definition idStatus (d : IOSDevice) : string * Status := (id d, status d).

(** The result text of a dispatch, from what the handler reads. *)
Definition resultText (devices : list IOSDevice) (action : ScriptCommand)
           (targetDevices : list string) : string :=
  let targets := resolveTargets devices targetDevices in
  if List.length targets =? 0
  then "Error: No online devices found for the command."
  else ("Command " ++ commandValue action ++ " executed successfully on "
        ++ JS.join ", " (map name targets) ++ ".")%string.

(** The tool response to one function call. *)
Definition answer (devices : list IOSDevice) (fc : FunctionCall) : ToolResponse :=
  mkResponse (fc_id fc) (fc_name fc)
             (if String.eqb (fc_name fc) "execute_ios_script"
              then resultText devices (args_action fc) (targetsOrAll (args_targetDevices fc))
              else "Error executing command.").

Definition isQuickAction {T : Type} (e : Event T) : bool :=
  match e with ClickQuickAction _ => true | _ => false end.

Definition allOffline (l : list IOSDevice) : Prop :=
  forall d, In d l -> status d = offline.

(** The log grew by entries of severity [error] only. *)
Definition errorsOnly (old new : list LogEntry) : Prop :=
  exists added, new = old ++ added /\ Forall (fun e => type e = error) added.

(** ** Cards *)

(** The card of a connected device at rest with no screenshot and a healthy
    battery. *)
Definition idleCard : Card :=
  mkCard false false (Some emerald) emerald
         (ScreenPlaceholder true "AWAITING INPUT") emerald "SpringBoard".

(** What the screen area shows for a device that keeps its screenshot field
    while its status becomes [s]. *)
Definition screenUnder (s : Status) (before : Screen) : Screen :=
  match before with
  | ScreenImage src => ScreenImage src
  | ScreenPlaceholder _ _ =>
      match s with
      | offline => ScreenPlaceholder false "NO SIGNAL"
      | _ => ScreenPlaceholder true "AWAITING INPUT"
      end
  end.

(** * Concrete inputs *)

Module Examples.

Definition host0 : Host :=
  mkHost (fun k => (Z.of_nat (k mod 8) # 8)%Q) (fun k => Z.of_nat k) (fun _ => "r")
         (fun _ => "0.5").

Definition nl : string := String "010"%char EmptyString.

(** The default configuration of lines 10-19. *)
Definition DEFAULT_CONFIG : string :=
  ("# name,udid,host" ++ nl ++
   "#IvantiCorpWIfi" ++ nl ++
   "#iphone16p,00140-01801C,10.49.119.34" ++ nl ++
   "#iphone17,0050-0010588401C,10.49.118.111" ++ nl ++
   "#ipad,002-000A24801C,10.49.119.65" ++ nl ++
   "" ++ nl ++
   "#XioamiWifi" ++ nl ++
   "iphone16p,00000-001C01C,10.139.233.204" ++ nl ++
   "iphone17,00-0010501C,10.139.233.136" ++ nl ++
   "ipad,00032-000A2B801C,10.139.233.66")%string.

(** A configuration with padded fields, a short line, an indented comment
    and a line with a fourth field. *)
Definition paddedConfig : string :=
  ("  # lab devices" ++ nl ++
   " iphone17 , 00-0010501C ,10.139.233.136  " ++ nl ++
   "broken,line" ++ nl ++
   "   " ++ nl ++
   "ipad,00032-000A2B801C,10.139.233.66,spare")%string.

Definition w0 : World := mkWorld [] [] [] 0.

Definition iphone16p : IOSDevice :=
  mkDevice "00000-001C01C" "iphone16p" "iPhone 15 Pro" "iOS 17.0" "10.139.233.204"
           connected 82 (Some "Mail") None.
Definition iphone17 : IOSDevice :=
  mkDevice "00-0010501C" "iphone17" "iPhone 16 Pro Max" "iOS 17.0" "10.139.233.136"
           offline 0 (Some "SpringBoard") None.
Definition ipad : IOSDevice :=
  mkDevice "00032-000A2B801C" "ipad" "iPad Air" "iPadOS 17.0" "10.139.233.66"
           connected 71 (Some "SpringBoard") None.

(** A registry as a handler finds it: [iphone17] is offline. *)
Definition fleet : World := mkWorld [iphone16p; iphone17; ipad] [] [] 0.

Definition connectOk : ConnectEnv := mkConnectEnv true None true true.

(** The component after its mount effect: the three devices of
    [DEFAULT_CONFIG], all connected, and no session. *)
Definition booted : App Q :=
  mkApp (initialize host0 DEFAULT_CONFIG w0) (mkBridge 0%Q false []) false false None [].

Definition voice (action : ScriptCommand) (targetDevices : option (list string))
  : Event Q :=
  SessionMessage
    (mkMessage Q None
               (Some [mkCall "call-1" "execute_ios_script" action None targetDevices])).

(** A session is opened, then two tool calls arrive: a restart of the iPad
    and, after it, the home screen on all devices. *)
Definition restartThenHome : list (Event Q) :=
  [ClickToggle connectOk; SessionOpen;
   voice RESTART (Some ["00032-000A2B801C"]);
   voice HOME (Some ["all"])].

(** The same two requests, each run by the handler of the latest render. *)
Definition restartThenHomeLatest (w : World) : World :=
  let w1 := snd (handleScriptExecution host0 (registry w) RESTART None
                                       ["00032-000A2B801C"] w) in
  snd (handleScriptExecution host0 (registry w1) HOME None ["all"] w1).

(** Three chunks that arrive in a burst at clock 1, 1 and 2. *)
Definition burst : list (Chunk Q) :=
  [mkChunk (1#1) (1#2); mkChunk (1#1) (1#4); mkChunk (2#1) (3#1)]%Q.

(** The same burst when the three messages arrive before the first buffer is
    decoded: three handlers are suspended at the decoder, then resume in
    order. *)
Definition burstInFlight : list (AudioStep Q) :=
  [Arrives (1#1); Arrives (1#1); Arrives (2#1);
   Decoded (1#2); Decoded (1#4); Decoded (3#1)]%Q.

(** A host whose draws are all one half. *)
Definition hostHalf : Host :=
  mkHost (fun _ => (1 # 2)%Q) (fun k => Z.of_nat k) (fun _ => "r") (fun _ => "0.5").

(** The booted component with an open session. *)
Definition inSession : App Q := run host0 [ClickToggle connectOk; SessionOpen] booted.

(** A message with three calls: a restart of the iPad, a call of an unknown
    tool, and a screenshot without a target list. *)
Definition threeCalls : Message Q :=
  mkMessage Q None
            (Some [mkCall "c1" "execute_ios_script" RESTART None (Some ["00032-000A2B801C"]);
                   mkCall "c2" "reboot_router" HOME None None;
                   mkCall "c3" "execute_ios_script" SCREENSHOT None None]).

(** The default configuration with a fourth device. *)
Definition configWithMini : string :=
  (DEFAULT_CONFIG ++ nl ++ "ipadmini,00099-000B,10.139.233.77")%string.

(** A configuration saved with a byte-order mark (U+FEFF), with a comment
    indented by a no-break space (U+00A0), fields padded by an ideographic
    space (U+3000) and no-break spaces, a short line, a line of white space
    only (U+00A0, a space and U+2029) and a line with a fourth field. *)
Definition unicodeLines : list string :=
  [(JS.utf8 65279 ++ "# name,udid,host")%string;
   (JS.utf8 160 ++ "#spare,00-00,10.0.0.1")%string;
   (JS.utf8 12288 ++ "iphone17 , 00-0010501C ," ++ JS.utf8 160 ++ "10.139.233.136"
    ++ JS.utf8 160)%string;
   "broken,line";
   (JS.utf8 160 ++ " " ++ JS.utf8 8233)%string;
   "ipad,00032-000A2B801C,10.139.233.66,spare"].

(** A host whose draws are, in turn, the binary64 nearest to 0.075 and the
    largest binary64 below 1. *)
Definition hostEdge : Host :=
  mkHost (fun k => if Nat.even k
                   then (5404319552844595 # 72057594037927936)%Q
                   else (9007199254740991 # 9007199254740992)%Q)
         (fun k => Z.of_nat k) (fun _ => "r") (fun _ => "0.5").

(** Four devices, a session opened while all are connected, then a restart
    of the iPad by voice: three devices are online and one is offline. *)
Definition oneOffline : App Q :=
  run host0 [ClickApplyChanges configWithMini; ClickToggle connectOk; SessionOpen;
             voice RESTART (Some ["00032-000A2B801C"])] booted.

(** A session opened while the three devices are connected, then a restart
    by voice without a target list: every device is offline. *)
Definition everyDeviceOffline : App Q :=
  run host0 [ClickToggle connectOk; SessionOpen; voice RESTART None] booted.

End Examples.

(** * Properties *)

Import Examples.

(** ** The string primitives and the parser on sample inputs *)

Example split_keeps_empty_pieces : JS.split "," "a,,b," = ["a"; ""; "b"; ""].
Proof. reflexivity. Qed.

Example split_of_empty : JS.split "," "" = [""].
Proof. reflexivity. Qed.

Example trim_both_ends : JS.trim "  a b  " = "a b".
Proof. reflexivity. Qed.

(** A no-break space, a byte-order mark and a line separator are trimmed; a
    zero-width space (U+200B) and a next-line character (U+0085) are not
    white space for ECMAScript and stay. *)
Example trim_unicode :
  JS.trim (JS.utf8 160 ++ JS.utf8 65279 ++ " a b" ++ JS.utf8 8232 ++ JS.utf8 12288) = "a b" /\
  JS.trim (JS.utf8 8203 ++ "a" ++ JS.utf8 133) = (JS.utf8 8203 ++ "a" ++ JS.utf8 133)%string /\
  JS.trim (JS.utf8 8195 ++ "caf" ++ JS.utf8 233 ++ " ") = ("caf" ++ JS.utf8 233)%string.
Proof. repeat split; vm_compute; reflexivity. Qed.

Example includes_is_case_sensitive :
  JS.includes "iPhone16p" "iphone" = false /\
  JS.includes (JS.toLowerCase "iPhone16p") "iphone" = true.
Proof. split; reflexivity. Qed.

Example parse_DEFAULT_CONFIG :
  map deviceTriple (registry (parseConfig host0 DEFAULT_CONFIG w0))
  = [("iphone16p", "00000-001C01C", "10.139.233.204");
     ("iphone17", "00-0010501C", "10.139.233.136");
     ("ipad", "00032-000A2B801C", "10.139.233.66")] /\
  map model (registry (parseConfig host0 DEFAULT_CONFIG w0))
  = ["iPhone 15 Pro"; "iPhone 16 Pro Max"; "iPad Air"] /\
  map message (logs (parseConfig host0 DEFAULT_CONFIG w0))
  = ["Configuration loaded. 3 devices found."].
Proof. vm_compute. repeat split. Qed.

Example parse_paddedConfig :
  map deviceTriple (registry (parseConfig host0 paddedConfig w0))
  = [("iphone17", "00-0010501C", "10.139.233.136");
     ("ipad", "00032-000A2B801C", "10.139.233.66")].
Proof. vm_compute. reflexivity. Qed.

(** ** Lists *)

Lemma Forall2_nth_error {A B} (R : A -> B -> Prop) l l' :
  Forall2 R l l' ->
  forall i x, nth_error l i = Some x -> exists y, nth_error l' i = Some y /\ R x y.
Proof.
  induction 1 as [|a b l l' Hab _ IH]; intros [|i] x Hx; simpl in *; try discriminate.
  - injection Hx as <-. eauto.
  - eauto.
Qed.

Lemma Forall2_weaken {A B} (R R' : A -> B -> Prop) l l' :
  (forall a b, R a b -> R' a b) -> Forall2 R l l' -> Forall2 R' l l'.
Proof. intros HR; induction 1; constructor; auto. Qed.

Lemma filter_length_split {A} (p : A -> bool) l :
  List.length (filter p l) + List.length (filter (fun x => negb (p x)) l) = List.length l.
Proof.
  induction l as [|a l IH]; simpl; [reflexivity|].
  destruct (p a); simpl; lia.
Qed.

Lemma length_zero_eqb {A} (l : list A) : (List.length l =? 0) = true <-> l = [].
Proof. destruct l; simpl; split; congruence. Qed.

(** ** Devices *)

Lemma notOffline_true d : notOffline d = true <-> status d <> offline.
Proof.
  unfold notOffline. destruct (status d); simpl; split; congruence.
Qed.

Lemma arrayIncludes_In xs x : JS.arrayIncludes xs x = true <-> In x xs.
Proof.
  unfold JS.arrayIncludes. rewrite existsb_exists. split.
  - intros (y & Hy & E). apply String.eqb_eq in E. now subst.
  - intros Hx. exists x. split; [assumption | apply String.eqb_refl].
Qed.

Lemma arrayIncludes_insert before x after y :
  y <> x ->
  JS.arrayIncludes (before ++ x :: after) y = JS.arrayIncludes (before ++ after) y.
Proof.
  intros Hne. apply Bool.eq_iff_eq_true.
  rewrite !arrayIncludes_In, !in_app_iff. simpl. intuition congruence.
Qed.

Lemma isTarget_true targets d :
  isTarget targets d = true <-> exists t, In t targets /\ id t = id d.
Proof.
  unfold isTarget. rewrite existsb_exists.
  split; intros (t & Ht & E); exists t; split; auto; now apply String.eqb_eq.
Qed.

Lemma isTarget_self targets d : In d targets -> isTarget targets d = true.
Proof. intros Hd. apply isTarget_true. eauto. Qed.

Lemma isTarget_same_id targets d e : id d = id e -> isTarget targets d = isTarget targets e.
Proof. unfold isTarget. intros ->. reflexivity. Qed.

Lemma resolveTargets_In devices targetDevices d :
  In d (resolveTargets devices targetDevices) <->
  In d devices /\ status d <> offline /\
  (In "all" targetDevices \/ In (id d) targetDevices).
Proof.
  unfold resolveTargets.
  destruct (JS.arrayIncludes targetDevices "all") eqn:Eall.
  - apply arrayIncludes_In in Eall.
    rewrite filter_In, notOffline_true. tauto.
  - assert (Hall : ~ In "all" targetDevices).
    { intros Hin. apply arrayIncludes_In in Hin. congruence. }
    rewrite filter_In, andb_true_iff, notOffline_true, arrayIncludes_In. tauto.
Qed.

(** ** The dispatcher's effect on the world *)

Section DispatcherFacts.

Variable host : Host.

Lemma extends_refl l : extends l l.
Proof. exists []. now rewrite app_nil_r. Qed.

Lemma extends_trans l1 l2 l3 : extends l1 l2 -> extends l2 l3 -> extends l1 l3.
Proof. intros [a ->] [b ->]. exists (a ++ b). now rewrite app_assoc. Qed.

Lemma addLog_extends src msg ty w : extends (logs w) (logs (addLog host src msg ty w)).
Proof. eexists. reflexivity. Qed.

Lemma sameRegistry_refl w : sameRegistry w w.
Proof. repeat split; auto using extends_refl. Qed.

Lemma sameRegistry_trans w1 w2 w3 :
  sameRegistry w1 w2 -> sameRegistry w2 w3 -> sameRegistry w1 w3.
Proof.
  intros (R1 & C1 & N1 & L1) (R2 & C2 & N2 & L2).
  repeat split; try congruence; try lia. eapply extends_trans; eassumption.
Qed.

Lemma addLog_sameRegistry src msg ty w : sameRegistry w (addLog host src msg ty w).
Proof. repeat split; simpl; try lia; apply addLog_extends. Qed.

Lemma applyCommand_sameRegistry action argument d w :
  sameRegistry w (snd (applyCommand host action argument d w)).
Proof.
  destruct action; simpl; try apply sameRegistry_refl.
  repeat split; simpl; try lia; apply extends_refl.
Qed.

Lemma applyCommand_fields action argument d w :
  let d' := fst (applyCommand host action argument d w) in
  id d' = id d /\ name d' = name d /\ model d' = model d /\
  osVersion d' = osVersion d /\ ip d' = ip d /\ batteryLevel d' = batteryLevel d /\
  status d' = settledStatus action /\
  currentApp d' =
    match action with
    | URL => Some "Safari"
    | LAUNCH => Some (JS.orElse argument "App")
    | KILL | HOME => Some "SpringBoard"
    | _ => currentApp d
    end /\
  lastScreenshot d' =
    match action with
    | SCREENSHOT => Some (screenshotUrl host (Math_random host (reads w)))
    | _ => lastScreenshot d
    end.
Proof. destruct action; simpl; repeat split; reflexivity. Qed.

Lemma settledFrom_later action argument targets w w1 d d' :
  reads w <= reads w1 ->
  settledFrom host action argument targets w1 d d' -> settledFrom host action argument targets w d d'.
Proof.
  unfold settledFrom. intros Hle. destruct (isTarget targets d); auto.
  intros (w0 & Hw0 & ->). exists w0. split; [lia | reflexivity].
Qed.

Lemma settleAll_spec action argument targets prev :
  forall w,
    Forall2 (settledFrom host action argument targets w) prev
            (fst (fst (settleAll host action argument targets prev w))) /\
    sameRegistry w (snd (fst (settleAll host action argument targets prev w))).
Proof.
  induction prev as [|d rest IH]; intros w; cbn [settleAll].
  - split; [constructor | apply sameRegistry_refl].
  - destruct (isTarget targets d) eqn:Et.
    + pose proof (applyCommand_sameRegistry action argument d w) as Hs.
      destruct (applyCommand host action argument d w) as [d' w1] eqn:Ea. simpl in Hs.
      destruct (IH w1) as [IHl IHw].
      destruct (settleAll host action argument targets rest w1) as [[rest' w2] a2].
      simpl in *.
      split.
      * constructor.
        -- unfold settledFrom. rewrite Et. exists w. split; [lia|]. now rewrite Ea.
        -- eapply Forall2_weaken; [|exact IHl].
           intros a b. apply settledFrom_later. apply Hs.
      * eapply sameRegistry_trans; eassumption.
    + destruct (IH w) as [IHl IHw].
      destruct (settleAll host action argument targets rest w) as [[rest' w2] a2].
      simpl in *.
      split; [|assumption].
      constructor; [|assumption]. unfold settledFrom. now rewrite Et.
Qed.

Lemma settle_registry action argument targets w :
  registry (settle host action argument targets w)
  = fst (fst (settleAll host action argument targets (registry w) w)).
Proof.
  unfold settle.
  destruct (settleAll host action argument targets (registry w) w) as [[next w1] asked].
  reflexivity.
Qed.

Lemma settle_commits action argument targets w :
  commits (settle host action argument targets w)
  = commits w ++ [registry (settle host action argument targets w)].
Proof.
  unfold settle.
  pose proof (settleAll_spec action argument targets (registry w) w) as [_ (_ & C & _)].
  destruct (settleAll host action argument targets (registry w) w) as [[next w1] asked].
  simpl in *. now rewrite C.
Qed.

Lemma settle_logs action argument targets w :
  extends (logs w) (logs (settle host action argument targets w)) /\
  reads w <= reads (settle host action argument targets w).
Proof.
  unfold settle.
  pose proof (settleAll_spec action argument targets (registry w) w) as [_ (_ & _ & N & L)].
  destruct (settleAll host action argument targets (registry w) w) as [[next w1] asked].
  simpl in *. auto.
Qed.

Lemma addLogs_sameRegistry requests :
  forall w, sameRegistry w (addLogs host requests w).
Proof.
  induction requests as [|[[src msg] ty] rest IH]; intros w; cbn [addLogs fold_left].
  - apply sameRegistry_refl.
  - eapply sameRegistry_trans; [apply addLog_sameRegistry | apply IH].
Qed.

(** The render after the settle delay: the registry update, then the success
    entry, then the entries the updater asked for. *)
Lemma resume_eq action argument targets deviceNames w :
  handleScriptExecution_resume host action argument targets deviceNames w
  = (("Command " ++ commandValue action ++ " executed successfully on "
      ++ deviceNames ++ ".")%string,
     addLogs host (snd (settleAll host action argument targets (registry w) w))
             (addLog host System
                     ("Successfully executed " ++ commandValue action ++ " on "
                      ++ JS.ofNat (List.length targets) ++ " devices.")%string
                     success (settle host action argument targets w))).
Proof.
  unfold handleScriptExecution_resume, settle.
  destruct (settleAll host action argument targets (registry w) w) as [[next w1] asked].
  reflexivity.
Qed.

Lemma resume_sameRegistry action argument targets deviceNames w :
  sameRegistry (settle host action argument targets w)
               (snd (handleScriptExecution_resume host action argument targets
                                                  deviceNames w)).
Proof.
  rewrite resume_eq. cbn [snd].
  eapply sameRegistry_trans; [apply addLog_sameRegistry | apply addLogs_sameRegistry].
Qed.

(** The two shapes of a dispatch. *)
Lemma begin_no_targets devices action argument targetDevices w :
  resolveTargets devices targetDevices = [] ->
  handleScriptExecution_begin host devices action argument targetDevices w
  = Returned "Error: No online devices found for the command."
             (addLog host System
                     ("No valid targets found for action: " ++ commandValue action)%string
                     error w).
Proof. unfold handleScriptExecution_begin. intros ->. reflexivity. Qed.

Lemma begin_some_targets devices action argument targetDevices w :
  resolveTargets devices targetDevices <> [] ->
  exists deviceNames w1,
    handleScriptExecution_begin host devices action argument targetDevices w
    = Awaiting (resolveTargets devices targetDevices) deviceNames
               (setDevices (markBusy (resolveTargets devices targetDevices)) w1) /\
    deviceNames = JS.join ", " (map name (resolveTargets devices targetDevices)) /\
    sameRegistry w w1.
Proof.
  unfold handleScriptExecution_begin. intros Hne.
  destruct (List.length (resolveTargets devices targetDevices) =? 0) eqn:E.
  - apply length_zero_eqb in E. contradiction.
  - eexists _, _. split; [reflexivity|]. split; [reflexivity|]. apply addLog_sameRegistry.
Qed.

Lemma rejected_registry devices action argument targetDevices w :
  resolveTargets devices targetDevices = [] ->
  registry (snd (handleScriptExecution host devices action argument targetDevices w))
  = registry w.
Proof.
  intros Hnone. unfold handleScriptExecution.
  now rewrite (begin_no_targets _ _ _ _ _ Hnone).
Qed.

End DispatcherFacts.

(** ** Target resolution and the empty target set *)

Lemma resolveTargets_nil devices : resolveTargets devices [] = [].
Proof.
  unfold resolveTargets. simpl. induction devices as [|d l IH]; simpl; auto.
Qed.

(** C1.  A dispatch whose resolved target set is empty returns the
    no-online-devices error text, appends exactly one log entry, of severity
    [error], and performs no registry update: the registry and every record
    in it are what they were. *)
Theorem empty_target_set_is_rejected
        (host : Host) devices action argument targetDevices w :
  resolveTargets devices targetDevices = [] ->
  exists entry,
    handleScriptExecution host devices action argument targetDevices w
    = ("Error: No online devices found for the command.",
       mkWorld (registry w) (logs w ++ [entry]) (commits w) (S (reads w))) /\
    source entry = System /\ type entry = error /\
    message entry
    = ("No valid targets found for action: " ++ commandValue action)%string.
Proof.
  intros Hnone. unfold handleScriptExecution.
  rewrite (begin_no_targets host _ _ _ _ _ Hnone).
  eexists. split; [reflexivity|]. simpl. auto.
Qed.

(** The resolved target set is the sub-list of the devices the handler
    reads that are not offline and, unless the list contains ["all"], whose
    identifier is in the list.  Offline devices are never in it, identifiers
    that belong to no device change nothing, and a non-empty target set is
    the one the dispatch goes on with.  With four devices of which one is
    offline, ["all"] resolves to exactly the three others. *)
Lemma target_set_resolution devices targetDevices :
  let targets := resolveTargets devices targetDevices in
  (In "all" targetDevices -> targets = filter notOffline devices) /\
  (~ In "all" targetDevices ->
   targets = filter (fun d => JS.arrayIncludes targetDevices (id d) && notOffline d) devices) /\
  (forall d, In d targets <->
             In d devices /\ status d <> offline /\
             (In "all" targetDevices \/ In (id d) targetDevices)) /\
  (forall d, status d = offline -> ~ In d targets) /\
  (forall unknown before after,
      targetDevices = before ++ unknown :: after ->
      unknown <> "all" -> (forall d, In d devices -> id d <> unknown) ->
      targets = resolveTargets devices (before ++ after)) /\
  (forall host action argument w,
      targets <> [] ->
      exists deviceNames w1,
        handleScriptExecution_begin host devices action argument targetDevices w
        = Awaiting targets deviceNames w1) /\
  (List.length devices = 4 ->
   List.length (filter (fun d => negb (notOffline d)) devices) = 1 ->
   resolveTargets devices ["all"] = filter notOffline devices /\
   List.length (resolveTargets devices ["all"]) = 3).
Proof.
  intros targets. subst targets.
  split; [|split; [|split; [|split; [|split; [|split]]]]].
  - intros Hall. apply arrayIncludes_In in Hall.
    unfold resolveTargets. now rewrite Hall.
  - intros Hall. unfold resolveTargets.
    destruct (JS.arrayIncludes targetDevices "all") eqn:E; [|reflexivity].
    apply arrayIncludes_In in E. contradiction.
  - intros d. apply resolveTargets_In.
  - intros d Hoff Hin. apply resolveTargets_In in Hin. tauto.
  - intros unknown before after -> Hnot Hfresh.
    unfold resolveTargets.
    rewrite (arrayIncludes_insert before unknown after "all") by congruence.
    destruct (JS.arrayIncludes (before ++ after) "all"); [reflexivity|].
    apply filter_ext_in. intros d Hd. f_equal.
    apply arrayIncludes_insert. exact (Hfresh d Hd).
  - intros host action argument w Hne.
    destruct (begin_some_targets host devices action argument targetDevices w Hne)
      as (deviceNames & w1 & Hb & _).
    eauto.
  - intros Hlen Hoff. split; [reflexivity|].
    change (resolveTargets devices ["all"]) with (filter notOffline devices).
    pose proof (filter_length_split notOffline devices). lia.
Qed.

(** ** The two registry updates of a dispatch *)

Lemma isTarget_withStatus targets s d : isTarget targets (withStatus s d) = isTarget targets d.
Proof. reflexivity. Qed.

Lemma markBusy_nth_error targets prev i d :
  nth_error prev i = Some d ->
  nth_error (markBusy targets prev) i
  = Some (if isTarget targets d then withStatus busy d else d).
Proof. intros Hd. unfold markBusy. rewrite nth_error_map, Hd. reflexivity. Qed.

Lemma isTarget_iff_In devices targetDevices d :
  ids_determine_status devices -> In d devices ->
  (isTarget (resolveTargets devices targetDevices) d = true
   <-> In d (resolveTargets devices targetDevices)).
Proof.
  intros Hinv Hd. split; [|apply isTarget_self].
  intros Ht. apply isTarget_true in Ht. destruct Ht as (t & Hin & Hid).
  apply resolveTargets_In in Hin. destruct Hin as (Ht & Hon & Hsel).
  apply resolveTargets_In. split; [assumption|]. split.
  - rewrite <- (Hinv t d Ht Hd Hid). assumption.
  - rewrite <- Hid. assumption.
Qed.

Section DispatchShape.

Variable host : Host.

Lemma dispatch_shape devices action argument targetDevices w :
  let targets := resolveTargets devices targetDevices in
  targets <> [] ->
  exists deviceNames wb result wf,
    handleScriptExecution_begin host devices action argument targetDevices w
    = Awaiting targets deviceNames wb /\
    handleScriptExecution_resume host action argument targets deviceNames wb = (result, wf) /\
    handleScriptExecution host devices action argument targetDevices w = (result, wf) /\
    registry wb = markBusy targets (registry w) /\
    commits wb = commits w ++ [registry wb] /\
    commits wf = commits w ++ [registry wb; registry wf] /\
    Forall2 (settledFrom host action argument targets wb) (registry wb) (registry wf) /\
    extends (logs w) (logs wf) /\ reads w <= reads wb.
Proof.
  intros targets Hne.
  destruct (begin_some_targets host devices action argument targetDevices w Hne)
    as (deviceNames & w1 & Hb & _ & (R1 & C1 & N1 & L1)).
  fold targets in Hb.
  set (wb := setDevices (markBusy targets) w1) in *.
  set (r := handleScriptExecution_resume host action argument targets deviceNames wb).
  exists deviceNames, wb, (fst r), (snd r).
  assert (Rb : registry wb = markBusy targets (registry w)).
  { unfold wb. simpl. now rewrite R1. }
  assert (Cb : commits wb = commits w ++ [registry wb]).
  { unfold wb. simpl. now rewrite C1. }
  pose proof (settle_commits host action argument targets wb) as Cs.
  pose proof (settle_registry host action argument targets wb) as Rs.
  pose proof (settle_logs host action argument targets wb) as [Ls Ns].
  pose proof (settleAll_spec host action argument targets (registry wb) wb) as [Hall _].
  rewrite <- Rs in Hall.
  assert (Hr : sameRegistry (settle host action argument targets wb) (snd r)).
  { unfold r. rewrite resume_eq. cbn [snd].
    eapply sameRegistry_trans; [apply addLog_sameRegistry | apply addLogs_sameRegistry]. }
  destruct Hr as (Rf & Cf & _ & Lf).
  split; [exact Hb|].
  split; [exact (surjective_pairing r)|].
  split; [unfold handleScriptExecution; rewrite Hb; exact (surjective_pairing r)|].
  split; [exact Rb|].
  split; [exact Cb|].
  split; [rewrite Cf, Cs, Cb, Rf, <- app_assoc; reflexivity|].
  split; [rewrite Rf; exact Hall|].
  split; [|unfold wb; simpl; exact N1].
  eapply extends_trans; [exact L1|].
  eapply extends_trans; [|exact Lf].
  eapply extends_trans; [|exact Ls]. unfold wb. simpl. apply extends_refl.
Qed.

End DispatchShape.

(** C4.  A dispatch with a non-empty target set makes exactly two registry
    updates, the second after the settle delay.  After the first, every
    targeted record has status [busy] and all its other fields as before, all
    targets at once; after the second each of them has its settled status.  A
    record whose identifier is not in the target set is the same record after
    both updates.  When the handler reads the live registry, a record is
    targeted exactly when it belongs to the resolved target set, so every
    device outside the target set keeps all its fields. *)
Theorem two_phase_dispatch_and_frame
        (host : Host) devices action argument targetDevices w :
  let targets := resolveTargets devices targetDevices in
  targets <> [] ->
  exists deviceNames wb result wf,
    handleScriptExecution_begin host devices action argument targetDevices w
    = Awaiting targets deviceNames wb /\
    handleScriptExecution_resume host action argument targets deviceNames wb = (result, wf) /\
    handleScriptExecution host devices action argument targetDevices w = (result, wf) /\
    commits wf = commits w ++ [registry wb; registry wf] /\
    (forall i d,
        nth_error (registry w) i = Some d ->
        if isTarget targets d
        then (exists b, nth_error (registry wb) i = Some b /\
                        status b = busy /\
                        b = mkDevice (id d) (name d) (model d) (osVersion d) (ip d) busy
                                     (batteryLevel d) (currentApp d) (lastScreenshot d)) /\
             exists f, nth_error (registry wf) i = Some f /\
                       status f = settledStatus action /\ id f = id d
        else nth_error (registry wb) i = Some d /\
             nth_error (registry wf) i = Some d) /\
    (forall d, In d targets -> isTarget targets d = true) /\
    (devices = registry w -> ids_determine_status (registry w) ->
     forall d, In d (registry w) -> (isTarget targets d = true <-> In d targets)).
Proof.
  intros targets Hne.
  destruct (dispatch_shape host devices action argument targetDevices w Hne)
    as (deviceNames & wb & result & wf & Hb & Hr & Hd & Rb & Cb & Cf & Hall & _ & _).
  fold targets in Hb, Hr, Rb, Hall.
  exists deviceNames, wb, result, wf.
  split; [exact Hb|]. split; [exact Hr|]. split; [exact Hd|]. split; [exact Cf|].
  split; [|split].
  - intros i d Hi.
    pose proof (markBusy_nth_error targets _ _ _ Hi) as Hbusy. rewrite <- Rb in Hbusy.
    destruct (Forall2_nth_error _ _ _ Hall _ _ Hbusy) as (f & Hf & Hrel).
    unfold settledFrom in Hrel.
    destruct (isTarget targets d) eqn:Et.
    + rewrite isTarget_withStatus, Et in Hrel. destruct Hrel as (w0 & _ & ->).
      split; [exists (withStatus busy d); split; [assumption | split; reflexivity]|].
      eexists. split; [exact Hf|].
      pose proof (applyCommand_fields host action argument (withStatus busy d) w0) as F.
      simpl in F. destruct F as (Fid & _ & _ & _ & _ & _ & Fst & _). auto.
    + rewrite Et in Hrel. subst f. auto.
  - intros d. apply isTarget_self.
  - intros -> Hinv d Hin. apply isTarget_iff_In; assumption.
Qed.

(** ** The device configuration *)

(** *** White space and separators *)

Lemma split_not_nil sep s : JS.split sep s <> [].
Proof.
  destruct s as [|c r]; simpl; [discriminate|].
  destruct (Ascii.eqb c sep); [discriminate|].
  destruct (JS.split sep r); discriminate.
Qed.

Lemma split_hasChar c sep s :
  (Ascii.eqb sep c = true \/ hasChar c s = false) ->
  Forall (fun p => hasChar c p = false) (JS.split sep s).
Proof.
  induction s as [|a r IH]; intros Hc; simpl.
  - constructor; [reflexivity | constructor].
  - assert (Hr : Ascii.eqb sep c = true \/ hasChar c r = false).
    { destruct Hc as [Hc|Hc]; [left; exact Hc|]. simpl in Hc.
      apply orb_false_iff in Hc. right. apply Hc. }
    specialize (IH Hr).
    destruct (Ascii.eqb a sep) eqn:Ea.
    + constructor; [reflexivity | exact IH].
    + destruct (JS.split sep r) as [|h t]; [constructor; [|constructor]|].
      * simpl. rewrite orb_false_r.
        destruct Hc as [Hc|Hc].
        -- apply Ascii.eqb_eq in Hc. subst c. exact Ea.
        -- simpl in Hc. apply orb_false_iff in Hc. apply Hc.
      * inversion IH as [|? ? Hh Ht]; subst. constructor; [|exact Ht].
        simpl. rewrite Hh, orb_false_r.
        destruct Hc as [Hc|Hc].
        -- apply Ascii.eqb_eq in Hc. subst c. exact Ea.
        -- simpl in Hc. apply orb_false_iff in Hc. apply Hc.
Qed.

Lemma split_app sep a b :
  JS.split sep (a ++ String sep b) = JS.split sep a ++ JS.split sep b.
Proof.
  induction a as [|c r IH]; simpl.
  - now rewrite Ascii.eqb_refl.
  - destruct (Ascii.eqb c sep); [now rewrite IH|].
    rewrite IH. pose proof (split_not_nil sep r) as Hne.
    destruct (JS.split sep r) as [|h t]; [contradiction|]. reflexivity.
Qed.

Lemma split_nosep sep s : hasChar sep s = false -> JS.split sep s = [s].
Proof.
  induction s as [|c r IH]; intros Hs; [reflexivity|].
  cbn [hasChar] in Hs. apply orb_false_iff in Hs. destruct Hs as [Hc Hr].
  cbn [JS.split]. rewrite Hc, (IH Hr). reflexivity.
Qed.

Lemma split_join sep s : JS.join (String sep "") (JS.split sep s) = s.
Proof.
  unfold JS.join. induction s as [|c r IH]; [reflexivity|].
  cbn [JS.split]. pose proof (split_not_nil sep r) as Hne.
  destruct (Ascii.eqb c sep) eqn:E.
  - apply Ascii.eqb_eq in E. subst c.
    destruct (JS.split sep r) as [|h t]; [contradiction|].
    cbn [concat append] in *. now rewrite IH.
  - destruct (JS.split sep r) as [|h t]; [contradiction|].
    destruct t; cbn [concat append] in *; now rewrite IH.
Qed.

(** [split] undoes [join] on pieces without the separator: the two
    equations fix [split]. *)
Lemma split_of_join sep pieces :
  pieces <> [] -> Forall (fun piece => hasChar sep piece = false) pieces ->
  JS.split sep (JS.join (String sep "") pieces) = pieces.
Proof.
  unfold JS.join. induction pieces as [|f fs IH]; intros Hne Hall; [contradiction|].
  inversion Hall as [|? ? Hf Hfs]; subst.
  destruct fs as [|g gs].
  - cbn [concat]. now apply split_nosep.
  - change (concat (String sep "") (f :: g :: gs))
      with (f ++ String sep (concat (String sep "") (g :: gs)))%string.
    rewrite split_app, (split_nosep sep f Hf), IH; [reflexivity | discriminate | exact Hfs].
Qed.

Lemma append_nil_r (s : string) : (s ++ "")%string = s.
Proof. induction s as [|a r IH]; simpl; [reflexivity | now rewrite IH]. Qed.

Lemma append_assoc (a b c : string) : ((a ++ b) ++ c)%string = (a ++ (b ++ c))%string.
Proof. induction a as [|x r IH]; simpl; [reflexivity | now rewrite IH]. Qed.

Lemma append_eq_nil (a b : string) : (a ++ b)%string = "" -> a = "" /\ b = "".
Proof. destruct a; simpl; [auto | discriminate]. Qed.

Lemma hasChar_app c a b : hasChar c (a ++ b) = hasChar c a || hasChar c b.
Proof.
  induction a as [|x r IH]; simpl; [reflexivity|]. now rewrite IH, orb_assoc.
Qed.

Lemma isWhiteSpace_In s : JS.isWhiteSpace s = true <-> In s JS.whiteSpace.
Proof.
  unfold JS.isWhiteSpace. rewrite existsb_exists. split.
  - intros (p & Hp & E). apply String.eqb_eq in E. now subst.
  - intros Hs. exists s. split; [exact Hs | apply String.eqb_refl].
Qed.

(** A white-space code point takes one, two or three bytes, and none is the
    start of another. *)
Lemma whiteSpace_shape p :
  In p JS.whiteSpace ->
  (exists a, p = String a "") \/
  (exists a b, p = String a (String b "") /\ JS.isWhiteSpace (String a "") = false) \/
  (exists a b c, p = String a (String b (String c "")) /\
                 JS.isWhiteSpace (String a "") = false /\
                 JS.isWhiteSpace (String a (String b "")) = false).
Proof.
  intros Hp.
  assert (Hall : forallb
                   (fun p =>
                      match p with
                      | String a "" => true
                      | String a (String b "") => negb (JS.isWhiteSpace (String a ""))
                      | String a (String b (String c "")) =>
                          negb (JS.isWhiteSpace (String a ""))
                          && negb (JS.isWhiteSpace (String a (String b "")))
                      | _ => false
                      end) JS.whiteSpace = true) by (vm_compute; reflexivity).
  rewrite forallb_forall in Hall. specialize (Hall p Hp).
  destruct p as [|a [|b [|c [|d r]]]]; try discriminate.
  - left. eauto.
  - right. left. exists a, b. split; [reflexivity|]. now apply negb_true_iff.
  - right. right. exists a, b, c. apply andb_true_iff in Hall.
    destruct Hall as [H1 H2]. split; [reflexivity|]. split; now apply negb_true_iff.
Qed.

Lemma whiteSpace_nonempty p : In p JS.whiteSpace -> p <> "".
Proof.
  intros Hp. destruct (whiteSpace_shape p Hp) as [(a & ->)|[(a & b & -> & _)|(a & b & c & -> & _)]];
    discriminate.
Qed.

Lemma Blank_app a b : Blank a -> Blank b -> Blank (a ++ b).
Proof.
  induction 1 as [|p s Hp _ IH]; intros Hb; [exact Hb|].
  rewrite append_assoc. apply Blank_cons; auto.
Qed.

Lemma Blank_one p : In p JS.whiteSpace -> Blank p.
Proof. intros Hp. rewrite <- (append_nil_r p). apply Blank_cons; [exact Hp | constructor]. Qed.

Lemma noSpaceAtStart_nil : noSpaceAtStart "".
Proof.
  intros p r Hp E. symmetry in E. apply append_eq_nil in E.
  exact (whiteSpace_nonempty p Hp (proj1 E)).
Qed.

Lemma noSpaceAtEnd_nil : noSpaceAtEnd "".
Proof.
  intros p r Hp E. symmetry in E. apply append_eq_nil in E.
  exact (whiteSpace_nonempty p Hp (proj2 E)).
Qed.

(** *** [trimStart] *)

Lemma trimStart_drops p s : In p JS.whiteSpace -> JS.trimStart (p ++ s) = JS.trimStart s.
Proof.
  intros Hp.
  destruct (whiteSpace_shape p Hp) as [(a & ->)|[(a & b & -> & Ha)|(a & b & c & -> & Ha & Hab)]].
  - apply isWhiteSpace_In in Hp. cbn [append JS.trimStart]. now rewrite Hp.
  - apply isWhiteSpace_In in Hp. cbn [append JS.trimStart]. now rewrite Ha, Hp.
  - apply isWhiteSpace_In in Hp. cbn [append JS.trimStart]. now rewrite Ha, Hab, Hp.
Qed.

Lemma trimStart_cases s :
  (exists p r, In p JS.whiteSpace /\ s = (p ++ r)%string /\ JS.trimStart s = JS.trimStart r) \/
  (noSpaceAtStart s /\ JS.trimStart s = s).
Proof.
  destruct s as [|a r1]; [right; split; [apply noSpaceAtStart_nil | reflexivity]|].
  cbn [JS.trimStart].
  destruct (JS.isWhiteSpace (String a "")) eqn:E1.
  { left. exists (String a ""), r1. apply isWhiteSpace_In in E1. auto. }
  assert (N1 : forall r, In (String a r) JS.whiteSpace -> r <> "")
    by (intros r Hr ->; apply isWhiteSpace_In in Hr; congruence).
  destruct r1 as [|b r2].
  { right. split; [|reflexivity]. intros p r Hp E.
    destruct (whiteSpace_shape p Hp) as [(x & ->)|[(x & y & -> & _)|(x & y & z & -> & _)]];
      simpl in E; try discriminate.
    injection E as <- _. exact (N1 "" Hp eq_refl). }
  destruct (JS.isWhiteSpace (String a (String b ""))) eqn:E2.
  { left. exists (String a (String b "")), r2. apply isWhiteSpace_In in E2. auto. }
  destruct r2 as [|c r3].
  { right. split; [|reflexivity]. intros p r Hp E.
    destruct (whiteSpace_shape p Hp) as [(x & ->)|[(x & y & -> & _)|(x & y & z & -> & _)]];
      simpl in E; try discriminate.
    - injection E as <- _. exact (N1 "" Hp eq_refl).
    - injection E as <- <- _. apply isWhiteSpace_In in Hp. congruence. }
  destruct (JS.isWhiteSpace (String a (String b (String c "")))) eqn:E3.
  { left. exists (String a (String b (String c ""))), r3. apply isWhiteSpace_In in E3. auto. }
  right. split; [|reflexivity]. intros p r Hp E.
  destruct (whiteSpace_shape p Hp) as [(x & ->)|[(x & y & -> & _)|(x & y & z & -> & _)]];
    simpl in E.
  - injection E as <- _. exact (N1 "" Hp eq_refl).
  - injection E as <- <- _. apply isWhiteSpace_In in Hp. congruence.
  - injection E as <- <- <- _. apply isWhiteSpace_In in Hp. congruence.
Qed.

Lemma length_append (a b : string) :
  String.length (a ++ b) = String.length a + String.length b.
Proof. induction a as [|x r IH]; simpl; [reflexivity | now rewrite IH]. Qed.

Lemma trimStart_spec s :
  exists pre, s = (pre ++ JS.trimStart s)%string /\ Blank pre /\
              noSpaceAtStart (JS.trimStart s).
Proof.
  remember (String.length s) as n eqn:Hn. revert s Hn.
  induction n as [n IH] using lt_wf_ind. intros s Hn.
  destruct (trimStart_cases s) as [(p & r & Hp & -> & E)|[Hno E]].
  - assert (Hlt : String.length r < n).
    { subst n. rewrite length_append.
      pose proof (whiteSpace_nonempty p Hp). destruct p; [contradiction | simpl; lia]. }
    destruct (IH _ Hlt r eq_refl) as (pre & Hr & Hb & Hs).
    exists (p ++ pre)%string. rewrite E. split; [|split].
    + rewrite append_assoc. now rewrite <- Hr.
    + now apply Blank_cons.
    + exact Hs.
  - exists "". rewrite E. split; [reflexivity|]. split; [constructor | exact Hno].
Qed.

Lemma trimStart_fixed s : noSpaceAtStart s -> JS.trimStart s = s.
Proof.
  intros Hno. destruct (trimStart_cases s) as [(p & r & Hp & E & _)|[_ E]]; [|exact E].
  exfalso. exact (Hno p r Hp E).
Qed.

(** *** [trimEnd] *)

Lemma trimEnd_spec s :
  exists post, s = (JS.trimEnd s ++ post)%string /\ Blank post /\
               noSpaceAtEnd (JS.trimEnd s).
Proof.
  induction s as [|c r (post & Hr & Hb & Hno)].
  - exists "". split; [reflexivity|]. split; [constructor | apply noSpaceAtEnd_nil].
  - cbn [JS.trimEnd].
    destruct (JS.isWhiteSpace (String c (JS.trimEnd r))) eqn:E.
    + exists (String c (JS.trimEnd r) ++ post)%string. split; [|split].
      * cbn [append]. now rewrite <- Hr.
      * apply Blank_cons; [now apply isWhiteSpace_In | exact Hb].
      * apply noSpaceAtEnd_nil.
    + exists post. split; [|split].
      * cbn [append]. now rewrite <- Hr.
      * exact Hb.
      * intros p t Hp Et. destruct t as [|x t']; cbn [append] in Et.
        -- apply isWhiteSpace_In in Hp. congruence.
        -- injection Et as _ Et. exact (Hno p t' Hp Et).
Qed.

Lemma trimEnd_fixed s : noSpaceAtEnd s -> JS.trimEnd s = s.
Proof.
  induction s as [|c r IH]; intros Hno; [reflexivity|].
  assert (Hr : noSpaceAtEnd r).
  { intros p t Hp E. apply (Hno p (String c t) Hp). cbn [append]. now rewrite E. }
  cbn [JS.trimEnd]. rewrite (IH Hr).
  destruct (JS.isWhiteSpace (String c r)) eqn:E; [|reflexivity].
  exfalso. apply isWhiteSpace_In in E. exact (Hno (String c r) "" E eq_refl).
Qed.

(** *** [trim] *)

(** [trim] takes white space off both ends, all of it and nothing else. *)
Lemma trim_spec s :
  exists pre post,
    s = (pre ++ JS.trim s ++ post)%string /\ Blank pre /\ Blank post /\
    noSpaceAtStart (JS.trim s) /\ noSpaceAtEnd (JS.trim s).
Proof.
  unfold JS.trim.
  destruct (trimStart_spec s) as (pre & Hs & Hpre & Hstart).
  destruct (trimEnd_spec (JS.trimStart s)) as (post & Ht & Hpost & Hend).
  exists pre, post. split; [|split; [|split; [|split]]]; try assumption.
  - now rewrite <- Ht.
  - intros p r Hp E. apply (Hstart p (r ++ post)%string Hp).
    rewrite Ht at 1. rewrite E. apply append_assoc.
Qed.

Lemma trim_fixed s : noSpaceAtStart s -> noSpaceAtEnd s -> JS.trim s = s.
Proof.
  intros Hs He. unfold JS.trim. rewrite (trimStart_fixed s Hs). now apply trimEnd_fixed.
Qed.

Lemma trim_idempotent s : JS.trim (JS.trim s) = JS.trim s.
Proof.
  destruct (trim_spec s) as (_ & _ & _ & _ & _ & Hs & He). now apply trim_fixed.
Qed.

Lemma trim_hasChar c s : hasChar c s = false -> hasChar c (JS.trim s) = false.
Proof.
  intros Hc. destruct (trim_spec s) as (pre & post & E & _).
  rewrite E in Hc. rewrite !hasChar_app in Hc.
  apply orb_false_iff in Hc. destruct Hc as [_ Hc].
  apply orb_false_iff in Hc. apply Hc.
Qed.

Lemma trimStart_Blank s : Blank s -> JS.trimStart s = "".
Proof.
  induction 1 as [|p s Hp _ IH]; [reflexivity|]. now rewrite trimStart_drops.
Qed.

(** A line is blank for the parser exactly when it is white space only. *)
Lemma trim_nil_iff s : JS.trim s = "" <-> Blank s.
Proof.
  split.
  - intros E. destruct (trim_spec s) as (pre & post & Hs & Hpre & Hpost & _).
    rewrite E in Hs. cbn [append] in Hs. rewrite Hs. now apply Blank_app.
  - intros Hb. unfold JS.trim. now rewrite (trimStart_Blank s Hb).
Qed.

Lemma cleanField_of_piece line :
  hasChar "010" line = false ->
  Forall cleanField (configFields line).
Proof.
  intros Hnl. unfold configFields.
  assert (Hnl' : hasChar "010" (JS.trim line) = false) by now apply trim_hasChar.
  pose proof (split_hasChar "," "," (JS.trim line) (or_introl eq_refl)) as Hcomma.
  pose proof (split_hasChar "010" "," (JS.trim line) (or_intror Hnl')) as Hline.
  induction (JS.split "," (JS.trim line)) as [|p ps IH]; simpl; [constructor|].
  inversion Hcomma; subst. inversion Hline; subst.
  constructor; [|apply IH; assumption].
  destruct (trim_spec p) as (_ & _ & _ & _ & _ & Hs & He).
  split; [exact Hs|]. split; [exact He|]. split; [apply trim_idempotent|].
  split; now apply trim_hasChar.
Qed.

Section ConfigFacts.

Variable host : Host.

Lemma parseConfig_line_spec devs k line :
  exists new k',
    parseConfig_line host (devs, k) line = (devs ++ new, k') /\
    map deviceTriple new = configRecord line /\
    Forall (fun d => status d = connected) new.
Proof.
  unfold parseConfig_line, configRecord, blankOrComment, configFields.
  destruct (String.eqb (JS.trim line) "" || JS.startsWith (JS.trim line) "#").
  - exists [], k. rewrite app_nil_r. auto.
  - destruct (map JS.trim (JS.split "," (JS.trim line))) as [|f1 [|f2 [|f3 rest]]];
      try (exists [], k; rewrite app_nil_r; simpl; auto; fail).
    simpl. destruct (inferModel f1) as [m os].
    eexists [_], (S k). split; [reflexivity|]. split; [reflexivity|].
    constructor; [reflexivity | constructor].
Qed.

Lemma parseConfig_fold lines :
  forall devs k,
  exists new k',
    fold_left (parseConfig_line host) lines (devs, k) = (devs ++ new, k') /\
    map deviceTriple new = flat_map configRecord lines /\
    Forall (fun d => status d = connected) new.
Proof.
  induction lines as [|line lines IH]; intros devs k; cbn [fold_left flat_map].
  - exists [], k. rewrite app_nil_r. auto.
  - destruct (parseConfig_line_spec devs k line) as (n1 & k1 & E1 & M1 & F1).
    rewrite E1.
    destruct (IH (devs ++ n1) k1) as (n2 & k2 & E2 & M2 & F2).
    exists (n1 ++ n2), k2. rewrite E2, app_assoc, map_app, M1, M2.
    split; [reflexivity|]. split; [reflexivity|]. apply Forall_app. auto.
Qed.

Lemma parseConfig_registry content w :
  map deviceTriple (registry (parseConfig host content w))
  = flat_map configRecord (JS.split "010" content) /\
  Forall (fun d => status d = connected) (registry (parseConfig host content w)) /\
  exists entry,
    logs (parseConfig host content w) = logs w ++ [entry] /\
    source entry = System /\ type entry = success.
Proof.
  unfold parseConfig.
  destruct (parseConfig_fold (JS.split "010" content) [] (reads w))
    as (new & k' & E & M & F).
  rewrite E. simpl. repeat split; try assumption.
  eexists. repeat split.
Qed.

End ConfigFacts.

(** C8.  What "trimmed" and "comma-separated" mean: [trim] takes the white
    space off both ends of a string, all of it and nothing else, and [split]
    is the inverse of [join] on pieces without the separator.  Per line of
    the configuration text: a line of white space only and a line whose
    trimmed content starts with [#] leave the parsed list as it is; a line
    whose trimmed content is three or more fields joined by commas adds
    exactly one record, whose display name, identifier and network address
    are the first, second and third field, each trimmed; a line with fewer
    than three fields leaves the list as it is.  For the whole text, the
    lines are taken one by one, in order, from the empty list; the parsed
    registry lists one record per well-formed data line, and the parse logs
    a success entry, never an error. *)
Theorem config_lines_to_devices (host : Host) :
  (forall s, exists pre post,
      s = (pre ++ JS.trim s ++ post)%string /\ Blank pre /\ Blank post /\
      noSpaceAtStart (JS.trim s) /\ noSpaceAtEnd (JS.trim s)) /\
  (forall sep s, JS.join (String sep "") (JS.split sep s) = s) /\
  (forall sep pieces,
      pieces <> [] -> Forall (fun piece => hasChar sep piece = false) pieces ->
      JS.split sep (JS.join (String sep "") pieces) = pieces) /\
  (forall acc line, Blank line -> parseConfig_line host acc line = acc) /\
  (forall acc line rest,
      JS.trim line = String "#" rest ->
      parseConfig_line host acc line = acc /\ configRecord line = []) /\
  (forall devs k line f1 f2 f3 more,
      JS.trim line = JS.join "," (f1 :: f2 :: f3 :: more) ->
      Forall (fun f => hasChar "," f = false) (f1 :: f2 :: f3 :: more) ->
      (forall rest, JS.trim line <> String "#" rest) ->
      exists d,
        parseConfig_line host (devs, k) line = (devs ++ [d], S k) /\
        name d = JS.trim f1 /\ id d = JS.trim f2 /\ ip d = JS.trim f3 /\
        configRecord line = [(JS.trim f1, JS.trim f2, JS.trim f3)]) /\
  (forall acc line fields,
      JS.trim line = JS.join "," fields ->
      Forall (fun f => hasChar "," f = false) fields ->
      List.length fields < 3 ->
      parseConfig_line host acc line = acc /\ configRecord line = []) /\
  (forall lines w,
      lines <> [] -> Forall (fun line => hasChar "010" line = false) lines ->
      let w' := parseConfig host (JS.join newline lines) w in
      registry w' = fst (fold_left (parseConfig_line host) lines ([], reads w)) /\
      map deviceTriple (registry w') = flat_map configRecord lines /\
      exists entry, logs w' = logs w ++ [entry] /\ type entry = success) /\
  (forall content w,
      map deviceTriple (registry (parseConfig host content w))
      = flat_map configRecord (JS.split "010" content) /\
      exists entry,
        logs (parseConfig host content w) = logs w ++ [entry] /\
        type entry = success).
Proof.
  split; [exact trim_spec|]. split; [exact split_join|]. split; [exact split_of_join|].
  split; [|split; [|split; [|split; [|split]]]].
  - intros [devs k] line Hb. apply trim_nil_iff in Hb.
    unfold parseConfig_line. now rewrite Hb.
  - intros [devs k] line rest E.
    assert (Hc : String.eqb (JS.trim line) "" || JS.startsWith (JS.trim line) "#" = true).
    { rewrite E. unfold JS.startsWith. cbn [String.eqb prefix orb].
      destruct (ascii_dec "#" "#") as [_|Hn]; [destruct rest; reflexivity | congruence]. }
    unfold configRecord, blankOrComment, parseConfig_line. rewrite Hc. split; reflexivity.
  - intros devs k line f1 f2 f3 more Hline Hfields Hnot.
    assert (Hdata : JS.startsWith (JS.trim line) "#" = false).
    { destruct (JS.trim line) as [|c r] eqn:E; [reflexivity|].
      unfold JS.startsWith. cbn [prefix].
      destruct (ascii_dec "#" c) as [<-|_]; [|reflexivity].
      exfalso. exact (Hnot r eq_refl). }
    assert (Hne : String.eqb (JS.trim line) "" = false).
    { apply String.eqb_neq. rewrite Hline. unfold JS.join. cbn [concat].
      intros E. apply append_eq_nil in E. destruct E as [_ E]. discriminate. }
    assert (Hsplit : JS.split "," (JS.trim line) = f1 :: f2 :: f3 :: more).
    { rewrite Hline. apply (split_of_join "," (f1 :: f2 :: f3 :: more));
        [discriminate | exact Hfields]. }
    unfold configRecord, blankOrComment, configFields, parseConfig_line.
    rewrite Hne, Hdata, Hsplit. cbn [orb map List.length Nat.leb].
    destruct (inferModel (JS.trim f1)) as [m os].
    eexists. split; [reflexivity|]. cbn [name id ip]. auto.
  - intros [devs k] line fields Hline Hfields Hlen.
    unfold configRecord, blankOrComment, configFields, parseConfig_line.
    destruct (String.eqb (JS.trim line) "" || JS.startsWith (JS.trim line) "#");
      [split; reflexivity|].
    destruct fields as [|f fs].
    + rewrite Hline. split; reflexivity.
    + rewrite Hline, (split_of_join "," (f :: fs)); [|discriminate | exact Hfields].
      destruct fs as [|g [|h fs]]; cbn [List.length] in Hlen; try lia; split; reflexivity.
  - intros lines w Hne Hlf w'.
    assert (Hsplit : JS.split "010" (JS.join newline lines) = lines)
      by (apply (split_of_join "010" lines); assumption).
    destruct (parseConfig_registry host (JS.join newline lines) w) as (M & _ & e & L & _ & Ty).
    rewrite Hsplit in M. fold w' in M, L.
    split; [|split; [exact M | eauto]].
    unfold w', parseConfig. rewrite Hsplit.
    destruct (fold_left (parseConfig_line host) lines ([], reads w)) as [new k]. reflexivity.
  - intros content w.
    destruct (parseConfig_registry host content w) as (M & _ & e & L & _ & Ty).
    split; [exact M|]. eauto.
Qed.

Lemma config_lines_to_devices_at_unicodeLines :
  unicodeLines <> [] /\
  Forall (fun line => hasChar "010" line = false) unicodeLines /\
  JS.split "010" (JS.join newline unicodeLines) = unicodeLines /\
  map deviceTriple (registry (parseConfig host0 (JS.join newline unicodeLines) w0))
  = [("iphone17", "00-0010501C", "10.139.233.136");
     ("ipad", "00032-000A2B801C", "10.139.233.66")].
Proof.
  assert (Hne : unicodeLines <> []) by discriminate.
  assert (Hlf : Forall (fun line => hasChar "010" line = false) unicodeLines)
    by (repeat constructor).
  destruct (config_lines_to_devices host0)
    as (_ & _ & Hsplit & _ & _ & _ & _ & Hwhole & _).
  split; [exact Hne|]. split; [exact Hlf|].
  split; [exact (Hsplit "010"%char unicodeLines Hne Hlf)|].
  destruct (Hwhole unicodeLines w0 Hne Hlf) as (_ & M & _).
  rewrite M. vm_compute. reflexivity.
Defined.

(** ** What a dispatch leaves in the registry, record by record *)

Lemma Forall2_map_left {A B C} (g : A -> B) (R : B -> C -> Prop) l l' :
  Forall2 R (map g l) l' -> Forall2 (fun x y => R (g x) y) l l'.
Proof.
  revert l'. induction l as [|a l IH]; intros l' H; inversion H; subst; constructor; auto.
Qed.

Lemma Forall2_same {A} (R : A -> A -> Prop) l :
  (forall x, In x l -> R x x) -> Forall2 R l l.
Proof.
  induction l as [|a l IH]; intros HR; constructor.
  - apply HR. now left.
  - apply IH. intros x Hx. apply HR. now right.
Qed.

Lemma Forall2_In_right {A B} (R : A -> B -> Prop) l l' y :
  Forall2 R l l' -> In y l' -> exists x, In x l /\ R x y.
Proof.
  induction 1 as [|a b l l' Hab _ IH]; intros Hy; [contradiction|].
  destruct Hy as [<-|Hy].
  - exists a. split; [now left | assumption].
  - destruct (IH Hy) as (x & Hx & Hr). exists x. split; [now right | assumption].
Qed.

Lemma Forall2_eq_map {A B} (g : A -> B) l l' :
  Forall2 (fun x y => y = g x) l l' -> l' = map g l.
Proof. induction 1; simpl; congruence. Qed.

Section DispatchRecords.

Variable host : Host.

Lemma dispatch_records devices action argument targetDevices w :
  Forall2 (replacedBy host action argument (resolveTargets devices targetDevices) w)
          (registry w)
          (registry (snd (handleScriptExecution host devices action argument targetDevices w))).
Proof.
  destruct (resolveTargets devices targetDevices) as [|t ts] eqn:Et.
  - rewrite (rejected_registry host devices action argument targetDevices w Et).
    apply Forall2_same. intros x _. reflexivity.
  - assert (Hne : resolveTargets devices targetDevices <> []) by (rewrite Et; discriminate).
    destruct (dispatch_shape host devices action argument targetDevices w Hne)
      as (deviceNames & wb & result & wf & _ & _ & Hd & Rb & _ & _ & Hall & _ & Nb).
    rewrite Hd. simpl. rewrite Rb in Hall. rewrite Et in *.
    apply Forall2_map_left in Hall.
    eapply Forall2_weaken; [|exact Hall].
    intros d f. unfold settledFrom, replacedBy.
    destruct (isTarget (t :: ts) d) eqn:E.
    + rewrite isTarget_withStatus, E. intros (w0 & Hw0 & ->).
      exists w0. split; [lia | reflexivity].
    + rewrite E. auto.
Qed.

End DispatchRecords.

(** ** Settled records *)

(** C3, as stated, fails: launching with the empty string as argument sets
    the active app of a targeted device to the placeholder ["App"], not to
    the argument. *)
Lemma launch_with_empty_argument_sets_placeholder :
  let wf := snd (handleScriptExecution host0 (registry fleet) LAUNCH (Some "")
                                       ["all"] fleet) in
  In ipad (resolveTargets (registry fleet) ["all"]) /\
  nth_error (registry fleet) 2 = Some ipad /\
  (exists f, nth_error (registry wf) 2 = Some f /\ currentApp f = Some "App") /\
  ~ (forall f, nth_error (registry wf) 2 = Some f ->
               currentApp f = Some (launchedApp_absent_only (Some ""))).
Proof.
  split; [vm_compute; auto|]. split; [reflexivity|]. split.
  - eexists. split; [vm_compute; reflexivity | reflexivity].
  - intros Hclaim. specialize (Hclaim _ eq_refl). discriminate Hclaim.
Qed.

(** C3, amended.  After a dispatch with a non-empty target set, every targeted
    record has status [connected], or [offline] for restart; its active app is
    ["Safari"] for url, the argument for launch when it is a non-empty string
    and ["App"] when it is absent or empty, ["SpringBoard"] for kill and home;
    its screen-image reference is a URL built from a draw of [Math.random()]
    made during this dispatch for screenshot; text, install, uninstall, apps
    and quit change nothing but the status; and no action changes the
    identifier, name, model, OS version, address or battery level. *)
Theorem settled_record_per_action
        (host : Host) devices action argument targetDevices w :
  let targets := resolveTargets devices targetDevices in
  let wf := snd (handleScriptExecution host devices action argument targetDevices w) in
  targets <> [] ->
  (forall d, In d targets -> isTarget targets d = true) /\
  forall i d,
    nth_error (registry w) i = Some d -> isTarget targets d = true ->
    exists f k,
      nth_error (registry wf) i = Some f /\ reads w <= k /\
      status f = match action with RESTART => offline | _ => connected end /\
      currentApp f =
        match action with
        | URL => Some "Safari"
        | LAUNCH => Some (match argument with
                          | Some a => if String.eqb a "" then "App" else a
                          | None => "App"
                          end)
        | KILL | HOME => Some "SpringBoard"
        | RESTART | SCREENSHOT | TEXT | INSTALL | UNINSTALL | APPS | QUIT => currentApp d
        end /\
      lastScreenshot f =
        match action with
        | SCREENSHOT => Some (screenshotUrl host (Math_random host k))
        | _ => lastScreenshot d
        end /\
      id f = id d /\ name f = name d /\ model f = model d /\
      osVersion f = osVersion d /\ ip f = ip d /\ batteryLevel f = batteryLevel d.
Proof.
  intros targets wf _. split; [intros d; apply isTarget_self|].
  intros i d Hi Ht.
  pose proof (dispatch_records host devices action argument targetDevices w) as Hall.
  destruct (Forall2_nth_error _ _ _ Hall _ _ Hi) as (f & Hf & Hrel).
  unfold replacedBy in Hrel. fold targets in Hrel. rewrite Ht in Hrel.
  destruct Hrel as (w0 & Hw0 & ->).
  exists (fst (applyCommand host action argument (withStatus busy d) w0)), (reads w0).
  split; [exact Hf|]. split; [exact Hw0|].
  pose proof (applyCommand_fields host action argument (withStatus busy d) w0) as F.
  simpl in F. destruct F as (Fid & Fn & Fm & Fo & Fip & Fb & Fs & Fa & Fl).
  split; [rewrite Fs; destruct action; reflexivity|].
  split; [rewrite Fa; destruct action; reflexivity|].
  split; [exact Fl|]. tauto.
Qed.

(** ** Going home twice *)

Lemma atHome_atHome d : atHome (atHome d) = atHome d.
Proof. reflexivity. Qed.

Section GoHome.

Variable host : Host.

Lemma homeUpdate_id targets d : id (homeUpdate targets d) = id d.
Proof. unfold homeUpdate. destruct (isTarget targets d); reflexivity. Qed.

Lemma home_registry devices argument targetDevices w :
  registry (snd (handleScriptExecution host devices HOME argument targetDevices w))
  = map (homeUpdate (resolveTargets devices targetDevices)) (registry w).
Proof.
  apply Forall2_eq_map.
  eapply Forall2_weaken; [|apply dispatch_records].
  intros d f. unfold replacedBy, homeUpdate.
  destruct (isTarget (resolveTargets devices targetDevices) d); [|auto].
  intros (w0 & _ & ->). reflexivity.
Qed.

(** A second home dispatch whose targets were all targeted by the first
    one finds every one of them at home already. *)
Lemma home_again_fixed targets1 targets2 prev :
  (forall d, In d prev -> isTarget targets2 (homeUpdate targets1 d) = true ->
             isTarget targets1 d = true) ->
  map (homeUpdate targets2) (map (homeUpdate targets1) prev)
  = map (homeUpdate targets1) prev.
Proof.
  intros Hsub. rewrite map_map. apply map_ext_in. intros d Hd.
  unfold homeUpdate at 1.
  destruct (isTarget targets2 (homeUpdate targets1 d)) eqn:E2; [|reflexivity].
  specialize (Hsub d Hd E2). unfold homeUpdate. rewrite Hsub. apply atHome_atHome.
Qed.

Lemma home_twice_same_handler devices a1 a2 targetDevices w :
  let w1 := snd (handleScriptExecution host devices HOME a1 targetDevices w) in
  let w2 := snd (handleScriptExecution host devices HOME a2 targetDevices w1) in
  registry w2 = registry w1.
Proof.
  intros w1 w2. unfold w2. rewrite home_registry. unfold w1. rewrite home_registry.
  apply home_again_fixed. intros d _.
  now rewrite (isTarget_same_id _ _ d (homeUpdate_id _ d)).
Qed.

Lemma home_twice_latest_handler a1 a2 targetDevices w :
  let w1 := snd (handleScriptExecution host (registry w) HOME a1 targetDevices w) in
  let w2 := snd (handleScriptExecution host (registry w1) HOME a2 targetDevices w1) in
  registry w2 = registry w1.
Proof.
  intros w1 w2. unfold w2. rewrite home_registry.
  assert (R1 : registry w1
               = map (homeUpdate (resolveTargets (registry w) targetDevices)) (registry w)).
  { unfold w1. apply home_registry. }
  rewrite R1. apply home_again_fixed. intros d Hd Ht2.
  set (targets1 := resolveTargets (registry w) targetDevices) in *.
  apply isTarget_true in Ht2. destruct Ht2 as (t' & Hin' & Hid').
  apply resolveTargets_In in Hin'. destruct Hin' as (Ht' & Hon & Hsel).
  apply in_map_iff in Ht'. destruct Ht' as (t0 & <- & Ht0).
  rewrite !homeUpdate_id in Hid'. rewrite homeUpdate_id in Hsel.
  rewrite <- (isTarget_same_id targets1 _ _ Hid').
  destruct (isTarget targets1 t0) eqn:E0; [reflexivity|].
  unfold homeUpdate in Hon. rewrite E0 in Hon.
  assert (Hin0 : In t0 targets1).
  { apply resolveTargets_In. auto. }
  apply isTarget_self in Hin0. congruence.
Qed.

End GoHome.

(** C5.  Two home dispatches in a row on the same target list leave the
    registry that one leaves, whether both run the same handler or each runs
    the handler of the latest render; so every device has the same active app
    after the second as after the first, and for a targeted device that is
    ["SpringBoard"]. *)
Theorem go_home_twice_is_go_home_once (host : Host) a1 a2 targetDevices w :
  (forall devices,
      let w1 := snd (handleScriptExecution host devices HOME a1 targetDevices w) in
      let w2 := snd (handleScriptExecution host devices HOME a2 targetDevices w1) in
      registry w2 = registry w1 /\
      map currentApp (registry w2) = map currentApp (registry w1) /\
      forall i d, nth_error (registry w) i = Some d ->
                  isTarget (resolveTargets devices targetDevices) d = true ->
                  exists f, nth_error (registry w1) i = Some f /\
                            nth_error (registry w2) i = Some f /\
                            currentApp f = Some "SpringBoard") /\
  (let w1 := snd (handleScriptExecution host (registry w) HOME a1 targetDevices w) in
   let w2 := snd (handleScriptExecution host (registry w1) HOME a2 targetDevices w1) in
   registry w2 = registry w1 /\
   map currentApp (registry w2) = map currentApp (registry w1) /\
   forall i d, nth_error (registry w) i = Some d ->
               In d (resolveTargets (registry w) targetDevices) ->
               exists f, nth_error (registry w1) i = Some f /\
                         nth_error (registry w2) i = Some f /\
                         currentApp f = Some "SpringBoard").
Proof.
  split.
  - intros devices w1 w2.
    assert (E : registry w2 = registry w1)
      by apply (home_twice_same_handler host devices a1 a2 targetDevices w).
    split; [exact E|]. split; [now rewrite E|].
    intros i d Hi Ht. exists (atHome d). rewrite E.
    assert (Hf : nth_error (registry w1) i = Some (atHome d)).
    { unfold w1. rewrite home_registry, nth_error_map, Hi. simpl.
      unfold homeUpdate. now rewrite Ht. }
    auto.
  - intros w1 w2.
    assert (E : registry w2 = registry w1)
      by apply (home_twice_latest_handler host a1 a2 targetDevices w).
    split; [exact E|]. split; [now rewrite E|].
    intros i d Hi Ht. exists (atHome d). rewrite E.
    assert (Hf : nth_error (registry w1) i = Some (atHome d)).
    { unfold w1. rewrite home_registry, nth_error_map, Hi. simpl.
      unfold homeUpdate. now rewrite (isTarget_self _ _ Ht). }
    auto.
Qed.

(** ** Registries the component builds *)

Section RegistryInvariant.

Variable host : Host.

Lemma replacedBy_facts action argument targets w d f :
  replacedBy host action argument targets w d f ->
  id f = id d /\
  (isTarget targets d = true -> status f = settledStatus action) /\
  (isTarget targets d = false -> f = d).
Proof.
  unfold replacedBy. destruct (isTarget targets d).
  - intros (w0 & _ & ->).
    pose proof (applyCommand_fields host action argument (withStatus busy d) w0) as F.
    simpl in F. destruct F as (Fid & _ & _ & _ & _ & _ & Fs & _).
    repeat split; auto; discriminate.
  - intros ->. repeat split; auto; discriminate.
Qed.

Lemma parseConfig_ids_determine_status content w :
  ids_determine_status (registry (parseConfig host content w)).
Proof.
  destruct (parseConfig_registry host content w) as (_ & Hall & _).
  rewrite Forall_forall in Hall.
  intros d e Hd He _. now rewrite (Hall d Hd), (Hall e He).
Qed.

Lemma dispatch_ids_determine_status devices action argument targetDevices w :
  ids_determine_status (registry w) ->
  ids_determine_status
    (registry (snd (handleScriptExecution host devices action argument targetDevices w))).
Proof.
  intros Hinv f1 f2 H1 H2 Hid.
  pose proof (dispatch_records host devices action argument targetDevices w) as Hall.
  destruct (Forall2_In_right _ _ _ _ Hall H1) as (d1 & Hd1 & R1).
  destruct (Forall2_In_right _ _ _ _ Hall H2) as (d2 & Hd2 & R2).
  apply replacedBy_facts in R1. destruct R1 as (I1 & T1 & F1).
  apply replacedBy_facts in R2. destruct R2 as (I2 & T2 & F2).
  assert (Hd : id d1 = id d2) by congruence.
  pose proof (isTarget_same_id (resolveTargets devices targetDevices) _ _ Hd) as Et.
  destruct (isTarget (resolveTargets devices targetDevices) d2) eqn:E2.
  - rewrite (T1 Et), (T2 eq_refl). reflexivity.
  - rewrite (F1 Et), (F2 eq_refl). apply Hinv; assumption.
Qed.

(** *** Restart *)

Lemma restart_leaves_offline devices argument targetDevices w t :
  In t (resolveTargets devices targetDevices) ->
  offlineById (id t)
    (registry (snd (handleScriptExecution host devices RESTART argument targetDevices w))).
Proof.
  intros Ht f Hf Hid.
  pose proof (dispatch_records host devices RESTART argument targetDevices w) as Hall.
  destruct (Forall2_In_right _ _ _ _ Hall Hf) as (d & _ & R).
  apply replacedBy_facts in R. destruct R as (I & T & _).
  apply T. apply isTarget_true. exists t. split; [assumption | congruence].
Qed.

(** A handler that reads the live registry neither targets nor touches a
    device that is offline under every record of its identifier. *)
Lemma latest_handler_skips_offline x action argument targetDevices w :
  offlineById x (registry w) ->
  (forall t, In t (resolveTargets (registry w) targetDevices) -> id t <> x) /\
  offlineById x
    (registry (snd (handleScriptExecution host (registry w) action argument
                                          targetDevices w))).
Proof.
  intros Hoff.
  assert (Hskip : forall t, In t (resolveTargets (registry w) targetDevices) -> id t <> x).
  { intros t Ht Hid. apply resolveTargets_In in Ht. destruct Ht as (Hin & Hon & _).
    apply Hon. apply Hoff; assumption. }
  split; [exact Hskip|].
  intros f Hf Hid.
  pose proof (dispatch_records host (registry w) action argument targetDevices w) as Hall.
  destruct (Forall2_In_right _ _ _ _ Hall Hf) as (d & Hd & R).
  apply replacedBy_facts in R. destruct R as (I & _ & F).
  destruct (isTarget (resolveTargets (registry w) targetDevices) d) eqn:Et.
  - apply isTarget_true in Et. destruct Et as (t & Ht & Hidt).
    exfalso. apply (Hskip t Ht). congruence.
  - rewrite (F eq_refl). apply Hoff; [assumption | congruence].
Qed.

End RegistryInvariant.

Section ComponentInvariant.

Variable host : Host.
Context {T : Type} `{Timeline T}.

Lemma onmessage_toolCall_ids_determine_status devices functionCalls :
  forall w,
    ids_determine_status (registry w) ->
    ids_determine_status (registry (snd (onmessage_toolCall host devices functionCalls w))).
Proof.
  induction functionCalls as [|fc rest IH]; intros w Hinv; simpl; [exact Hinv|].
  assert (H1 : ids_determine_status (registry (snd (onmessage_call host devices fc w)))).
  { unfold onmessage_call.
    set (w1 := addLog host AI ("Identified Intent: " ++ fc_name fc)%string info w).
    destruct (String.eqb (fc_name fc) "execute_ios_script").
    - pose proof (dispatch_ids_determine_status host devices (args_action fc)
                    (args_argument fc) (targetsOrAll (args_targetDevices fc)) w1 Hinv) as Hd.
      destruct (handleScriptExecution host devices (args_action fc) (args_argument fc)
                  (targetsOrAll (args_targetDevices fc)) w1).
      exact Hd.
    - exact Hinv. }
  destruct (onmessage_call host devices fc w) as [r w1]. simpl in H1.
  specialize (IH w1 H1).
  destruct (onmessage_toolCall host devices rest w1) as [rs w2]. exact IH.
Qed.

Lemma toggleConnection_registry env devices (a : App T) :
  registry (world (toggleConnection host env devices a)) = registry (world a).
Proof.
  unfold toggleConnection.
  destruct (isConnected a); [reflexivity|].
  destruct (negb (apiKey env) && _); [reflexivity|].
  destruct (negb (currentKey env)); [reflexivity|].
  destruct (microphone env); reflexivity.
Qed.

Lemma step_ids_determine_status (e : Event T) (a : App T) :
  ids_determine_status (registry (world a)) ->
  ids_determine_status (registry (world (step host e a))).
Proof.
  intros Hinv. destruct e; simpl.
  - now rewrite toggleConnection_registry.
  - destruct (nth_error quickActions button); [|exact Hinv].
    apply dispatch_ids_determine_status. exact Hinv.
  - apply parseConfig_ids_determine_status.
  - destruct (sessionDevices a); exact Hinv.
  - destruct (sessionDevices a) as [devices|]; [|exact Hinv].
    unfold onmessage. destruct (toolCall msg) as [functionCalls|]; [|exact Hinv].
    pose proof (onmessage_toolCall_ids_determine_status devices functionCalls
                  (world a) Hinv) as Hd.
    destruct (onmessage_toolCall host devices functionCalls (world a)). exact Hd.
  - destruct (sessionDevices a); exact Hinv.
  - destruct (sessionDevices a); exact Hinv.
Qed.

(** From the empty registry the component starts with, every registry it
    reaches has one status per identifier. *)
Lemma run_ids_determine_status (es : list (Event T)) :
  forall a : App T,
    ids_determine_status (registry (world a)) ->
    ids_determine_status (registry (world (run host es a))).
Proof.
  induction es as [|e es IH]; intros a Hinv; simpl; [exact Hinv|].
  apply IH. apply step_ids_determine_status. exact Hinv.
Qed.

End ComponentInvariant.

Lemma dispatchLatest_keeps_offline (host : Host) x rs :
  forall w, offlineById x (registry w) ->
            offlineById x (registry (dispatchLatest host rs w)).
Proof.
  induction rs as [|[[action arg] tds] rs IH]; intros w Hoff; simpl; [exact Hoff|].
  apply IH. apply latest_handler_skips_offline. exact Hoff.
Qed.

(** After a restart, handlers of the latest render keep the device offline
    and outside every target set, whatever they are asked to do. *)
Lemma restart_is_terminal_for_latest_handlers
      (host : Host) argument targetDevices w t rs :
  In t (resolveTargets (registry w) targetDevices) ->
  let w1 := snd (handleScriptExecution host (registry w) RESTART argument
                                       targetDevices w) in
  let w2 := dispatchLatest host rs w1 in
  offlineById (id t) (registry w2) /\
  forall t', In t' (resolveTargets (registry w2) ["all"]) -> id t' <> id t.
Proof.
  intros Ht w1 w2.
  assert (H1 : offlineById (id t) (registry w1))
    by (apply restart_leaves_offline; exact Ht).
  assert (H2 : offlineById (id t) (registry w2))
    by (apply dispatchLatest_keeps_offline; exact H1).
  split; [exact H2|].
  apply (latest_handler_skips_offline host (id t) HOME None ["all"] w2 H2).
Qed.

(** C6.  On the session path the claim fails.  A session is opened while the
    iPad is connected; a tool call restarts the iPad, which leaves it offline
    in the registry; the next tool call, for all devices, is resolved by the
    same callbacks against the [devices] constant they closed over, so the
    iPad is in its target set and ends up connected again.  The same two
    requests through the handler of the latest render leave it offline, and
    after the restart button the home button finds no target at all. *)
Theorem session_dispatch_retargets_restarted_device :
  let restarted := run host0 (firstn 3 restartThenHome) booted in
  let final := run host0 restartThenHome booted in
  map id (registry (world booted))
  = ["00000-001C01C"; "00-0010501C"; "00032-000A2B801C"] /\
  map status (registry (world booted)) = [connected; connected; connected] /\
  map status (registry (world restarted)) = [connected; connected; offline] /\
  sessionDevices restarted = Some (registry (world booted)) /\
  map id (resolveTargets (registry (world booted)) ["all"])
  = ["00000-001C01C"; "00-0010501C"; "00032-000A2B801C"] /\
  map resp_result (sent final)
  = ["Command restart executed successfully on ipad.";
     "Command home executed successfully on iphone16p, iphone17, ipad."] /\
  map status (registry (world final)) = [connected; connected; connected] /\
  map status (registry (restartThenHomeLatest (world booted)))
  = [connected; connected; offline] /\
  map status (registry (world (run host0 [ClickQuickAction 7; ClickQuickAction 6] booted)))
  = [offline; offline; offline].
Proof. vm_compute. repeat split; auto. Qed.

(** ** Target sets on the session path *)

(** C2.  On the session path the claim fails.  With three devices online and
    the iPad offline in the registry, a tool call for ["all"] is resolved by
    the session callbacks against the [devices] constant they closed over
    when the session was opened, in which the iPad is still connected: the
    target set is all four devices, the offline iPad among them, and the iPad
    is also targeted when it is named.  The filter itself is the one the
    claim describes ([target_set_resolution]), and the handler of the latest
    render, which the buttons run, resolves ["all"] to the three online
    devices. *)
Theorem session_dispatch_targets_offline_device :
  let final := step host0 (voice HOME (Some ["all"])) oneOffline in
  map id (registry (world oneOffline))
  = ["00000-001C01C"; "00-0010501C"; "00032-000A2B801C"; "00099-000B"] /\
  map status (registry (world oneOffline)) = [connected; connected; offline; connected] /\
  (exists devices,
      sessionDevices oneOffline = Some devices /\
      map status devices = [connected; connected; connected; connected] /\
      map id (resolveTargets devices ["all"])
      = ["00000-001C01C"; "00-0010501C"; "00032-000A2B801C"; "00099-000B"] /\
      map id (resolveTargets devices ["00032-000A2B801C"]) = ["00032-000A2B801C"]) /\
  map resp_result (sent final)
  = ["Command restart executed successfully on ipad.";
     "Command home executed successfully on iphone16p, iphone17, ipad, ipadmini."] /\
  map status (registry (world final)) = [connected; connected; connected; connected] /\
  map id (resolveTargets (registry (world oneOffline)) ["all"])
  = ["00000-001C01C"; "00-0010501C"; "00099-000B"] /\
  resolveTargets (registry (world oneOffline)) ["00032-000A2B801C"] = [] /\
  map status (registry (world (step host0 (ClickQuickAction 6) oneOffline)))
  = [connected; connected; offline; connected].
Proof.
  vm_compute. repeat split; eauto 10.
Qed.

(** C10.  On the session path, which is the only path of tool calls, the
    claim fails.  An absent [targetDevices] is replaced by [["all"]] and an
    empty array is passed on and resolves to no target, as the claim says.
    But [["all"]] is resolved against the [devices] constant the session
    callbacks closed over: after every device has gone offline, a call
    without a target list still targets all three and brings them back to
    connected, where the registry has no device that is not offline. *)
Theorem session_call_without_targets_revives_offline_devices :
  let final := step host0 (voice HOME None) everyDeviceOffline in
  let empty := step host0 (voice HOME (Some [])) everyDeviceOffline in
  targetsOrAll None = ["all"] /\
  targetsOrAll (Some []) = [] /\
  map status (registry (world everyDeviceOffline)) = [offline; offline; offline] /\
  filter notOffline (registry (world everyDeviceOffline)) = [] /\
  (exists devices,
      sessionDevices everyDeviceOffline = Some devices /\
      map name (resolveTargets devices (targetsOrAll None)) = ["iphone16p"; "iphone17"; "ipad"]) /\
  map resp_result (sent final)
  = ["Command restart executed successfully on iphone16p, iphone17, ipad.";
     "Command home executed successfully on iphone16p, iphone17, ipad."] /\
  map status (registry (world final)) = [connected; connected; connected] /\
  map resp_result (sent empty)
  = ["Command restart executed successfully on iphone16p, iphone17, ipad.";
     "Error: No online devices found for the command."] /\
  registry (world empty) = registry (world everyDeviceOffline).
Proof.
  vm_compute. repeat split; eauto 10.
Qed.

(** ** Inbound audio *)

Section AudioFacts.

Context {T : Type} `{Timeline T}.

Lemma playAll_started cs :
  forall b, started (playAll cs b) = started b ++ schedule (nextStartTime b) cs.
Proof.
  induction cs as [|c cs IH]; intros b.
  - simpl. now rewrite app_nil_r.
  - change (playAll (c :: cs) b) with (playAll cs (playChunk c b)).
    rewrite IH. simpl. now rewrite <- app_assoc.
Qed.

Lemma schedule_length cursor cs : List.length (schedule cursor cs) = List.length cs.
Proof. revert cursor. induction cs; intros; simpl; auto. Qed.

Lemma schedule_nth cs :
  forall b k c,
    nth_error cs k = Some c ->
    let before := playAll (firstn k cs) b in
    let start := t_max (nextStartTime before) (currentTime c) in
    nth_error (schedule (nextStartTime b) cs) k = Some (start, duration c) /\
    nextStartTime (playAll (firstn (S k) cs) b) = t_add start (duration c).
Proof.
  induction cs as [|c0 cs IH]; intros b [|k] c Hc; simpl in Hc; try discriminate.
  - injection Hc as <-. simpl. auto.
  - exact (IH (playChunk c0 b) k c Hc).
Qed.

Lemma schedule_gapless cs :
  forall cursor k s d s' d',
    nth_error (schedule cursor cs) k = Some (s, d) ->
    nth_error (schedule cursor cs) (S k) = Some (s', d') ->
    t_le (t_add s d) s'.
Proof.
  induction cs as [|c cs IH]; intros cursor [|k] s d s' d' H1 H2; simpl in *;
    try discriminate.
  - injection H1 as <- <-. destruct cs as [|c' cs]; simpl in H2; [discriminate|].
    injection H2 as <- _. apply t_max_l.
  - eapply IH; eassumption.
Qed.

Lemma schedule_durations cs :
  forall cursor k s d,
    nth_error (schedule cursor cs) k = Some (s, d) ->
    exists c, nth_error cs k = Some c /\ duration c = d.
Proof.
  induction cs as [|c cs IH]; intros cursor [|k] s d Hk; simpl in *; try discriminate.
  - injection Hk as _ <-. eauto.
  - eapply IH; eassumption.
Qed.

End AudioFacts.

(** The audio branch of [onmessage] is [playChunk]; it runs when the message
    carries audio and the output context exists, and touches nothing else. *)
Lemma onmessage_plays_chunk (host : Host) {T : Type} `{Timeline T}
      devices (c : Chunk T) (a : App T) :
  outputAudioContext a = true ->
  let a' := onmessage host devices (mkMessage T (Some c) None) a in
  bridge a' = playChunk c (bridge a) /\ world a' = world a /\ sent a' = sent a.
Proof. intros Hctx. unfold onmessage. simpl. rewrite Hctx. auto. Qed.

Section RunFacts.

Context {T : Type} `{Timeline T}.

Lemma audioRun_app l1 l2 (b : Bridge T) :
  audioRun (l1 ++ l2) b = audioRun l2 (audioRun l1 b).
Proof. unfold audioRun. apply fold_left_app. Qed.

Lemma audioRun_started steps :
  forall b : Bridge T,
    started (audioRun steps b) = started b ++ scheduleRun (nextStartTime b) steps.
Proof.
  induction steps as [|[clock|d] rest IH]; intros b.
  - simpl. now rewrite app_nil_r.
  - change (audioRun (Arrives clock :: rest) b) with (audioRun rest (onAudio clock b)).
    rewrite IH. reflexivity.
  - change (audioRun (Decoded d :: rest) b) with (audioRun rest (onDecoded d b)).
    rewrite IH. simpl. now rewrite <- app_assoc.
Qed.

Lemma scheduleRun_lower steps :
  forall cursor k s d,
    (forall d', In (Decoded d') steps -> t_le t_zero d') ->
    nth_error (scheduleRun cursor steps) k = Some (s, d) -> t_le cursor s.
Proof.
  induction steps as [|[clock|d0] rest IH]; intros cursor k s d Hd Hk; cbn [scheduleRun] in Hk.
  - destruct k; discriminate.
  - eapply t_le_trans; [apply t_max_l|].
    apply (IH _ k s d); [|exact Hk]. intros d' Hin. apply Hd. now right.
  - destruct k as [|k]; cbn [nth_error] in Hk.
    + injection Hk as <- _. apply t_le_refl.
    + eapply t_le_trans; [apply t_add_nonneg; apply Hd; now left|].
      apply (IH _ k s d); [|exact Hk]. intros d' Hin. apply Hd. now right.
Qed.

Lemma audioRun_cursor steps (b : Bridge T) k s d :
  (forall d', In (Decoded d') steps -> t_le t_zero d') ->
  nth_error (scheduleRun (nextStartTime b) steps) k = Some (s, d) ->
  t_le (nextStartTime b) s.
Proof. apply scheduleRun_lower. Qed.

Lemma cursor_never_goes_back steps :
  forall b : Bridge T,
    (forall d, In (Decoded d) steps -> t_le t_zero d) ->
    t_le (nextStartTime b) (nextStartTime (audioRun steps b)).
Proof.
  induction steps as [|[clock|d0] rest IH]; intros b Hd.
  - apply t_le_refl.
  - change (audioRun (Arrives clock :: rest) b) with (audioRun rest (onAudio clock b)).
    eapply t_le_trans; [apply (t_max_l (nextStartTime b) clock)|].
    apply (IH (onAudio clock b)). intros d Hin. apply Hd. now right.
  - change (audioRun (Decoded d0 :: rest) b) with (audioRun rest (onDecoded d0 b)).
    eapply t_le_trans; [apply (t_add_nonneg (nextStartTime b) d0); apply Hd; now left|].
    apply (IH (onDecoded d0 b)). intros d Hin. apply Hd. now right.
Qed.

Lemma scheduleRun_gapless steps :
  forall cursor k s d s' d',
    (forall d0, In (Decoded d0) steps -> t_le t_zero d0) ->
    nth_error (scheduleRun cursor steps) k = Some (s, d) ->
    nth_error (scheduleRun cursor steps) (S k) = Some (s', d') ->
    t_le (t_add s d) s'.
Proof.
  induction steps as [|[clock|d0] rest IH]; intros cursor k s d s' d' Hd H1 H2;
    cbn [scheduleRun] in H1, H2.
  - destruct k; discriminate.
  - apply (IH (t_max cursor clock) k s d s' d'); try assumption.
    intros d1 Hin. apply Hd. now right.
  - assert (Hrest : forall d1, In (Decoded d1) rest -> t_le t_zero d1)
      by (intros d1 Hin; apply Hd; now right).
    destruct k as [|k]; cbn [nth_error] in H1, H2.
    + injection H1 as <- <-. exact (scheduleRun_lower rest _ 0 s' d' Hrest H2).
    + exact (IH _ k s d s' d' Hrest H1 H2).
Qed.

Lemma scheduleRun_durations steps :
  forall cursor k s d,
    nth_error (scheduleRun cursor steps) k = Some (s, d) -> In (Decoded d) steps.
Proof.
  induction steps as [|[clock|d0] rest IH]; intros cursor k s d Hk; cbn [scheduleRun] in Hk.
  - destruct k; discriminate.
  - right. exact (IH _ k s d Hk).
  - destruct k as [|k]; cbn [nth_error] in Hk.
    + injection Hk as _ <-. now left.
    + right. exact (IH _ k s d Hk).
Qed.

Lemma scheduleRun_length steps :
  forall cursor : T, List.length (scheduleRun cursor steps) = decodings steps.
Proof.
  induction steps as [|[clock|d0] rest IH]; intros cursor; cbn [scheduleRun decodings];
    [reflexivity | apply IH | cbn [List.length]; now rewrite IH].
Qed.

Lemma decodings_app (l1 l2 : list (AudioStep T)) :
  decodings (l1 ++ l2) = decodings l1 + decodings l2.
Proof.
  induction l1 as [|[clock|d0] rest IH]; cbn [app decodings Nat.add];
    [reflexivity | exact IH | now rewrite IH].
Qed.

Lemma scheduleRun_app l1 l2 (b : Bridge T) :
  scheduleRun (nextStartTime b) (l1 ++ l2)
  = scheduleRun (nextStartTime b) l1 ++ scheduleRun (nextStartTime (audioRun l1 b)) l2.
Proof.
  apply (app_inv_head (started b)).
  rewrite <- audioRun_started, audioRun_app, audioRun_started, audioRun_started.
  now rewrite app_assoc.
Qed.

Lemma scheduleRun_sequential cs :
  forall cursor : T, scheduleRun cursor (sequentialRun cs) = schedule cursor cs.
Proof.
  induction cs as [|c cs IH]; intros cursor; [reflexivity|].
  cbn [sequentialRun flat_map app scheduleRun schedule]. f_equal. apply IH.
Qed.

Lemma playAll_sequential cs :
  forall b : Bridge T, audioRun (sequentialRun cs) b = playAll cs b.
Proof.
  induction cs as [|c cs IH]; intros b; [reflexivity|].
  change (audioRun (sequentialRun (c :: cs)) b)
    with (audioRun (sequentialRun cs) (playChunk c b)).
  apply IH.
Qed.

End RunFacts.

(** C7.  The handler of a message raises the cursor to the maximum of the
    cursor and the playback clock, waits for the decoder, then starts the
    chunk at the cursor it finds and advances the cursor by the chunk's
    duration.  A chunk therefore starts no earlier than the maximum of the
    clock and the cursor its handler found, and exactly at that maximum when
    no other handler ran while it waited; chunks handled one after the other
    each start at the maximum of the cursor and the clock read for them.
    Whatever the interleaving, in the order in which the chunks are started
    each start is at least the previous start plus the previous duration and,
    durations being non-negative, the starts are non-decreasing. *)
Theorem inbound_audio_is_gapless {T : Type} `{Timeline T}
        (steps : list (AudioStep T)) (b : Bridge T) :
  (forall d, In (Decoded d) steps -> t_le t_zero d) ->
  exists sched,
    started (audioRun steps b) = started b ++ sched /\
    List.length sched = decodings steps /\
    (forall k s d s' d',
        nth_error sched k = Some (s, d) ->
        nth_error sched (S k) = Some (s', d') ->
        t_le (t_add s d) s' /\ t_le s s') /\
    (forall before clock between d after,
        steps = before ++ Arrives clock :: between ++ Decoded d :: after ->
        let cursor := nextStartTime (audioRun before b) in
        let resumed := audioRun (before ++ Arrives clock :: between) b in
        let start := nextStartTime resumed in
        nth_error sched (decodings (before ++ between)) = Some (start, d) /\
        nextStartTime (onDecoded d resumed) = t_add start d /\
        t_le (t_max cursor clock) start /\
        (between = [] -> start = t_max cursor clock)) /\
    (forall cs,
        steps = sequentialRun cs ->
        audioRun steps b = playAll cs b /\
        forall k c,
          nth_error cs k = Some c ->
          let cursor := nextStartTime (playAll (firstn k cs) b) in
          let start := t_max cursor (currentTime c) in
          nth_error sched k = Some (start, duration c) /\
          nextStartTime (playAll (firstn (S k) cs) b) = t_add start (duration c)).
Proof.
  intros Hdur. exists (scheduleRun (nextStartTime b) steps).
  split; [apply audioRun_started|]. split; [apply scheduleRun_length|].
  split; [|split].
  - intros k s d s' d' H1 H2.
    assert (Hgap : t_le (t_add s d) s') by (eapply scheduleRun_gapless; eassumption).
    split; [exact Hgap|].
    eapply t_le_trans; [|exact Hgap].
    apply t_add_nonneg. apply Hdur. eapply scheduleRun_durations. exact H1.
  - intros before clock between d after Hsteps cursor resumed start.
    assert (Hidx : decodings (before ++ Arrives clock :: between)
                   = decodings (before ++ between)).
    { rewrite !decodings_app. reflexivity. }
    split; [|split; [reflexivity|split]].
    + rewrite Hsteps.
      replace (before ++ Arrives clock :: between ++ Decoded d :: after)
        with ((before ++ Arrives clock :: between) ++ Decoded d :: after)
        by (rewrite <- app_assoc; reflexivity).
      rewrite scheduleRun_app, <- Hidx,
        <- (scheduleRun_length (before ++ Arrives clock :: between) (nextStartTime b)).
      rewrite nth_error_app2 by lia. rewrite Nat.sub_diag. reflexivity.
    + unfold start, resumed.
      replace (before ++ Arrives clock :: between)
        with ((before ++ [Arrives clock]) ++ between)
        by (rewrite <- app_assoc; reflexivity).
      rewrite audioRun_app.
      replace (t_max cursor clock)
        with (nextStartTime (audioRun (before ++ [Arrives clock]) b))
        by (rewrite audioRun_app; reflexivity).
      apply cursor_never_goes_back.
      intros d' Hin. apply Hdur. rewrite Hsteps.
      apply in_or_app. right. right. apply in_or_app. now left.
    + intros ->. unfold start, resumed. rewrite audioRun_app. reflexivity.
  - intros cs ->. split; [apply playAll_sequential|].
    intros k c Hc. rewrite scheduleRun_sequential. apply schedule_nth. exact Hc.
Qed.

(** The equation of the claim at the burst in flight: the first message is
    handled when the cursor is 0 and the clock is 1, and its chunk starts at
    2, not at 1 as it does when the three messages are handled one after the
    other. *)
Lemma burst_in_flight_starts_after_the_maximum :
  let b := mkBridge 0%Q false [] in
  t_max (nextStartTime (audioRun [] b)) (1 # 1)%Q = 1%Q /\
  nth_error (started (audioRun burstInFlight b)) 0 = Some ((2 # 1)%Q, (1 # 2)%Q) /\
  ~ ((2 # 1) == 1)%Q /\
  nth_error (started (playAll burst b)) 0 = Some (1%Q, (1 # 2)%Q).
Proof.
  split; [reflexivity|]. split; [reflexivity|]. split; [discriminate | reflexivity].
Qed.

(** The times of the burst are sums that binary64 computes without rounding:
    at this input the exact rationals are the numbers of the code. *)
Example burst_sums_are_exact :
  let final := audioRun burstInFlight (mkBridge 0%Q false []) in
  forallb (fun '(start, d) =>
             Qeq_bool (Binary64.round start) start
             && Qeq_bool (Binary64.round (start + d)) (start + d)%Q)
          (started final) = true /\
  started final
  = [((2 # 1)%Q, (1 # 2)%Q); ((2 # 1) + (1 # 2), (1 # 4))%Q;
     (((2 # 1) + (1 # 2)) + (1 # 4), (3 # 1))%Q].
Proof. split; [vm_compute; reflexivity | reflexivity]. Qed.

(** ** The activity log *)

Section LogFacts.

Variable host : Host.

Lemma handleScriptExecution_extends devices action argument targetDevices w :
  extends (logs w)
          (logs (snd (handleScriptExecution host devices action argument targetDevices w))).
Proof.
  destruct (resolveTargets devices targetDevices) as [|t ts] eqn:Et.
  - unfold handleScriptExecution. rewrite (begin_no_targets host _ _ _ _ _ Et).
    apply addLog_extends.
  - assert (Hne : resolveTargets devices targetDevices <> []) by (rewrite Et; discriminate).
    destruct (dispatch_shape host devices action argument targetDevices w Hne)
      as (deviceNames & wb & result & wf & _ & _ & Hd & _ & _ & _ & _ & L & _).
    now rewrite Hd.
Qed.

Lemma parseConfig_extends content w : extends (logs w) (logs (parseConfig host content w)).
Proof.
  destruct (parseConfig_registry host content w) as (_ & _ & e & L & _).
  exists [e]. exact L.
Qed.

Lemma onmessage_call_extends devices fc w :
  extends (logs w) (logs (snd (onmessage_call host devices fc w))).
Proof.
  unfold onmessage_call.
  set (w1 := addLog host AI ("Identified Intent: " ++ fc_name fc)%string info w).
  assert (L1 : extends (logs w) (logs w1)) by apply addLog_extends.
  destruct (String.eqb (fc_name fc) "execute_ios_script").
  - pose proof (handleScriptExecution_extends devices (args_action fc) (args_argument fc)
                  (targetsOrAll (args_targetDevices fc)) w1) as L2.
    destruct (handleScriptExecution host devices (args_action fc) (args_argument fc)
                (targetsOrAll (args_targetDevices fc)) w1) as [result w2].
    simpl in *. eapply extends_trans; eassumption.
  - exact L1.
Qed.

Lemma onmessage_toolCall_extends devices functionCalls :
  forall w, extends (logs w) (logs (snd (onmessage_toolCall host devices functionCalls w))).
Proof.
  induction functionCalls as [|fc rest IH]; intros w; simpl.
  - apply extends_refl.
  - pose proof (onmessage_call_extends devices fc w) as L1.
    destruct (onmessage_call host devices fc w) as [r w1]. simpl in L1.
    specialize (IH w1).
    destruct (onmessage_toolCall host devices rest w1) as [rs w2]. simpl in *.
    eapply extends_trans; eassumption.
Qed.

Context {T : Type} `{Timeline T}.

Lemma toggleConnection_extends env devices (a : App T) :
  extends (logs (world a)) (logs (world (toggleConnection host env devices a))).
Proof.
  unfold toggleConnection.
  destruct (isConnected a); [apply addLog_extends|].
  destruct (negb (apiKey env) && _); [apply extends_refl|].
  destruct (negb (currentKey env)); [apply addLog_extends|].
  destruct (microphone env); simpl.
  - apply addLog_extends.
  - eexists. rewrite <- app_assoc. reflexivity.
Qed.

Lemma step_extends (e : Event T) (a : App T) :
  extends (logs (world a)) (logs (world (step host e a))).
Proof.
  destruct e; simpl.
  - apply toggleConnection_extends.
  - destruct (nth_error quickActions button);
      [apply handleScriptExecution_extends | apply extends_refl].
  - apply parseConfig_extends.
  - destruct (sessionDevices a); [apply addLog_extends | apply extends_refl].
  - destruct (sessionDevices a) as [devices|]; [|apply extends_refl].
    unfold onmessage. destruct (toolCall msg) as [functionCalls|]; [|apply extends_refl].
    pose proof (onmessage_toolCall_extends devices functionCalls (world a)) as L.
    destruct (onmessage_toolCall host devices functionCalls (world a)). exact L.
  - destruct (sessionDevices a); [apply addLog_extends | apply extends_refl].
  - destruct (sessionDevices a); [apply addLog_extends | apply extends_refl].
Qed.

Lemma run_extends (es : list (Event T)) :
  forall a : App T, extends (logs (world a)) (logs (world (run host es a))).
Proof.
  induction es as [|e es IH]; intros a; simpl.
  - apply extends_refl.
  - eapply extends_trans; [apply step_extends | apply IH].
Qed.

End LogFacts.

(** C9.  [addLog] puts exactly one new entry, with the given source, message
    and severity, at the end of the log and leaves the entries before it as
    they are; so do the config parse and the session callbacks that log.  A
    dispatch, and every event the component handles, only adds entries at the
    end: after any sequence of events every earlier entry is still at its
    position, unchanged. *)
Theorem activity_log_is_append_only (host : Host) {T : Type} `{Timeline T} :
  (forall src msg ty w,
      exists entry,
        logs (addLog host src msg ty w) = logs w ++ [entry] /\
        source entry = src /\ message entry = msg /\ type entry = ty) /\
  (forall content w,
      exists entry, logs (parseConfig host content w) = logs w ++ [entry]) /\
  (forall w,
      (exists entry, logs (onopen host w) = logs w ++ [entry]) /\
      (exists entry, logs (onclose host w) = logs w ++ [entry]) /\
      (exists entry, logs (onerror host w) = logs w ++ [entry])) /\
  (forall devices action argument targetDevices w,
      exists added,
        logs (snd (handleScriptExecution host devices action argument targetDevices w))
        = logs w ++ added) /\
  (forall (e : Event T) (a : App T),
      exists added, logs (world (step host e a)) = logs (world a) ++ added) /\
  (forall (es : list (Event T)) (a : App T) i entry,
      nth_error (logs (world a)) i = Some entry ->
      nth_error (logs (world (run host es a))) i = Some entry).
Proof.
  split; [|split; [|split; [|split; [|split]]]].
  - intros src msg ty w. eexists. split; [reflexivity|]. simpl. auto.
  - intros content w.
    destruct (parseConfig_registry host content w) as (_ & _ & e & L & _). eauto.
  - intros w. repeat split; eexists; reflexivity.
  - intros. apply handleScriptExecution_extends.
  - intros e a. apply step_extends.
  - intros es a i entry Hi.
    destruct (run_extends host es a) as [added ->].
    rewrite nth_error_app1; [exact Hi|].
    apply nth_error_Some. congruence.
Qed.

(** ** Tool calls without a target list *)

(** For a tool call named [execute_ios_script]: when [targetDevices] is
    absent the call is dispatched exactly as with the list [["all"]], whose
    target set is every device that is not offline among those the handler
    reads; when [targetDevices] is the empty array it is passed on as it is,
    the target set is empty, and the response is the no-online-devices error
    with the registry untouched. *)
Lemma absent_target_list_means_all (host : Host) devices fc w :
  fc_name fc = "execute_ios_script" ->
  let w1 := addLog host AI ("Identified Intent: " ++ fc_name fc)%string info w in
  (args_targetDevices fc = None ->
   let r := handleScriptExecution host devices (args_action fc) (args_argument fc)
                                  ["all"] w1 in
   onmessage_call host devices fc w = (mkResponse (fc_id fc) (fc_name fc) (fst r), snd r) /\
   resolveTargets devices (targetsOrAll (args_targetDevices fc))
   = filter notOffline devices) /\
  (args_targetDevices fc = Some [] ->
   targetsOrAll (args_targetDevices fc) = [] /\
   resolveTargets devices (targetsOrAll (args_targetDevices fc)) = [] /\
   exists w',
     onmessage_call host devices fc w
     = (mkResponse (fc_id fc) (fc_name fc)
                   "Error: No online devices found for the command.", w') /\
     registry w' = registry w /\ commits w' = commits w).
Proof.
  intros Hname w1. unfold onmessage_call. fold w1.
  assert (Heq : String.eqb (fc_name fc) "execute_ios_script" = true)
    by (rewrite Hname; reflexivity).
  rewrite Heq. split.
  - intros Habsent. rewrite Habsent. cbn [targetsOrAll].
    destruct (handleScriptExecution host devices (args_action fc) (args_argument fc)
                                    ["all"] w1).
    split; reflexivity.
  - intros Hempty. rewrite Hempty. split; [reflexivity|].
    split; [apply resolveTargets_nil|].
    cbn [targetsOrAll]. unfold handleScriptExecution.
    rewrite (begin_no_targets host devices (args_action fc) (args_argument fc) [] w1
                              (resolveTargets_nil devices)).
    eexists. split; [reflexivity|]. split; reflexivity.
Qed.

(** ** The theorems at concrete inputs *)

(** Naming only the offline iPhone resolves to no target. *)
Lemma empty_target_set_is_rejected_at_fleet :
  resolveTargets (registry fleet) ["00-0010501C"] = [] /\
  fst (handleScriptExecution host0 (registry fleet) HOME None ["00-0010501C"] fleet)
  = "Error: No online devices found for the command." /\
  registry (snd (handleScriptExecution host0 (registry fleet) HOME None
                                       ["00-0010501C"] fleet))
  = registry fleet.
Proof.
  split; [reflexivity|].
  destruct (empty_target_set_is_rejected host0 (registry fleet) HOME None
              ["00-0010501C"] fleet eq_refl) as (entry & E & _).
  rewrite E. split; reflexivity.
Defined.

(** A screenshot of all devices reaches the iPad, at position 2. *)
Lemma settled_record_per_action_at_fleet :
  resolveTargets (registry fleet) ["all"] <> [] /\
  exists f k,
    nth_error (registry (snd (handleScriptExecution host0 (registry fleet) SCREENSHOT None
                                                    ["all"] fleet))) 2 = Some f /\
    status f = connected /\
    lastScreenshot f = Some (screenshotUrl host0 (Math_random host0 k)) /\
    currentApp f = currentApp ipad.
Proof.
  assert (Hne : resolveTargets (registry fleet) ["all"] <> []).
  { intros E. vm_compute in E. discriminate E. }
  split; [exact Hne|].
  destruct (settled_record_per_action host0 (registry fleet) SCREENSHOT None ["all"] fleet Hne)
    as [_ Hrec].
  destruct (Hrec 2 ipad eq_refl eq_refl) as (f & k & Hf & _ & Hs & Ha & Hl & _).
  exists f, k. auto.
Defined.

(** Home on all devices: the offline iPhone, at position 1, is the same
    record after both updates. *)
Lemma two_phase_dispatch_and_frame_at_fleet :
  resolveTargets (registry fleet) ["all"] <> [] /\
  map status (registry fleet) = [connected; offline; connected] /\
  exists wb wf,
    snd (handleScriptExecution host0 (registry fleet) HOME None ["all"] fleet) = wf /\
    commits wf = [registry wb; registry wf] /\
    nth_error (registry wb) 1 = Some iphone17 /\
    nth_error (registry wf) 1 = Some iphone17 /\
    (exists b, nth_error (registry wb) 2 = Some b /\ status b = busy) /\
    map status (registry wf) = [connected; offline; connected].
Proof.
  assert (Hne : resolveTargets (registry fleet) ["all"] <> []).
  { intros E. vm_compute in E. discriminate E. }
  split; [exact Hne|]. split; [reflexivity|].
  destruct (two_phase_dispatch_and_frame host0 (registry fleet) HOME None ["all"] fleet Hne)
    as (names & wb & result & wf & _ & _ & Hd & Hc & Hrec & _).
  exists wb, wf. split; [now rewrite Hd|]. split; [exact Hc|].
  pose proof (Hrec 1 iphone17 eq_refl) as H1.
  pose proof (Hrec 2 ipad eq_refl) as H2.
  change (isTarget (resolveTargets (registry fleet) ["all"]) iphone17) with false in H1.
  change (isTarget (resolveTargets (registry fleet) ["all"]) ipad) with true in H2.
  cbv iota in H1, H2.
  destruct H1 as [H1b H1f]. destruct H2 as [(b & H2b & H2s & _) _].
  split; [exact H1b|]. split; [exact H1f|]. split; [exists b; auto|].
  replace wf with (snd (handleScriptExecution host0 (registry fleet) HOME None ["all"] fleet))
    by (now rewrite Hd).
  reflexivity.
Defined.

Lemma inbound_audio_is_gapless_at_burst :
  (forall d, In (Decoded d) burstInFlight -> (0 <= d)%Q) /\
  exists sched,
    started (audioRun burstInFlight (mkBridge 0%Q false [])) = sched /\
    List.length sched = 3 /\
    nth_error sched 0 = Some ((2 # 1)%Q, (1 # 2)%Q).
Proof.
  assert (Hdur : forall d, In (Decoded d) burstInFlight -> t_le t_zero d).
  { intros d [E|[E|[E|[E|[E|[E|[]]]]]]]; try discriminate E;
      injection E as <-; simpl; discriminate. }
  split; [exact Hdur|].
  destruct (inbound_audio_is_gapless burstInFlight (mkBridge 0%Q false []) Hdur)
    as (sched & Hs & Hl & _ & Hone & _).
  exists sched. split; [exact Hs|]. split; [exact Hl|].
  exact (proj1 (Hone [] (1 # 1)%Q [Arrives (1 # 1)%Q; Arrives (2 # 1)%Q] (1 # 2)%Q
                     [Decoded (1 # 4)%Q; Decoded (3 # 1)%Q] eq_refl)).
Defined.

(** A tool call without a target list, against the fleet. *)
Lemma absent_target_list_means_all_at_fleet :
  let fc := mkCall "call-1" "execute_ios_script" HOME None None in
  fc_name fc = "execute_ios_script" /\
  resolveTargets (registry fleet) (targetsOrAll (args_targetDevices fc))
  = [iphone16p; ipad].
Proof.
  intros fc. split; [reflexivity|].
  destruct (absent_target_list_means_all host0 (registry fleet) fc fleet eq_refl)
    as [Habsent _].
  destruct (Habsent eq_refl) as [_ Ht]. rewrite Ht. reflexivity.
Defined.

(** * Properties beyond the specification *)

(** ** What a dispatch never changes *)

Lemma sameIdentity_refl d : sameIdentity d d.
Proof. repeat split. Qed.

Lemma sameIdentity_trans d e f : sameIdentity d e -> sameIdentity e f -> sameIdentity d f.
Proof. unfold sameIdentity. intuition congruence. Qed.

Lemma Forall2_refl_all {A} (R : A -> A -> Prop) l : (forall x, R x x) -> Forall2 R l l.
Proof. intros HR. induction l; constructor; auto. Qed.

Lemma Forall2_compose {A} (R : A -> A -> Prop) l1 l2 l3 :
  (forall x y z, R x y -> R y z -> R x z) ->
  Forall2 R l1 l2 -> Forall2 R l2 l3 -> Forall2 R l1 l3.
Proof.
  intros Htr H12. revert l3. induction H12 as [|a b l1 l2 Hab _ IH]; intros l3 H23;
    inversion H23; subst; constructor; eauto.
Qed.

Lemma replacedBy_sameIdentity host action argument targets w d f :
  replacedBy host action argument targets w d f -> sameIdentity d f.
Proof.
  unfold replacedBy. destruct (isTarget targets d).
  - intros (w0 & _ & ->).
    pose proof (applyCommand_fields host action argument (withStatus busy d) w0) as F.
    simpl in F. unfold sameIdentity. tauto.
  - intros ->. apply sameIdentity_refl.
Qed.

Lemma sameIdentity_ids l l' : Forall2 sameIdentity l l' -> map id l' = map id l.
Proof. induction 1 as [|d f l l' Hdf _ IH]; simpl; [reflexivity|]. destruct Hdf as [-> _]. now rewrite IH. Qed.

Lemma handleScriptExecution_sameIdentity host devices action argument targetDevices w :
  Forall2 sameIdentity (registry w)
          (registry (snd (handleScriptExecution host devices action argument targetDevices w))).
Proof.
  eapply Forall2_weaken; [|apply dispatch_records].
  intros d f. apply replacedBy_sameIdentity.
Qed.

(** X1.  Whatever the action, the argument, the target list and the devices
    the handler reads, a dispatch leaves the registry with the same number of
    records in the same order, and each record keeps its identifier, name,
    model, OS version, address and battery level. *)
Theorem dispatch_keeps_identity
        (host : Host) devices action argument targetDevices w :
  let wf := snd (handleScriptExecution host devices action argument targetDevices w) in
  Forall2 sameIdentity (registry w) (registry wf) /\
  map id (registry wf) = map id (registry w) /\
  List.length (registry wf) = List.length (registry w).
Proof.
  intros wf.
  pose proof (handleScriptExecution_sameIdentity host devices action argument
                targetDevices w) as Hall.
  split; [exact Hall|]. split; [apply sameIdentity_ids; exact Hall|].
  rewrite <- (length_map id), <- (length_map id (registry w)).
  f_equal. apply sameIdentity_ids. exact Hall.
Qed.

Section IdentityOfComponent.

Variable host : Host.
Context {T : Type} `{Timeline T}.

Lemma onmessage_toolCall_sameIdentity devices functionCalls :
  forall w, Forall2 sameIdentity (registry w)
                    (registry (snd (onmessage_toolCall host devices functionCalls w))).
Proof.
  induction functionCalls as [|fc rest IH]; intros w; simpl.
  - apply Forall2_refl_all. apply sameIdentity_refl.
  - assert (H1 : Forall2 sameIdentity (registry w)
                         (registry (snd (onmessage_call host devices fc w)))).
    { unfold onmessage_call.
      set (w1 := addLog host AI ("Identified Intent: " ++ fc_name fc)%string info w).
      destruct (String.eqb (fc_name fc) "execute_ios_script").
      - pose proof (handleScriptExecution_sameIdentity host devices (args_action fc)
                      (args_argument fc) (targetsOrAll (args_targetDevices fc)) w1) as Hd.
        destruct (handleScriptExecution host devices (args_action fc) (args_argument fc)
                    (targetsOrAll (args_targetDevices fc)) w1).
        exact Hd.
      - apply Forall2_refl_all. apply sameIdentity_refl. }
    destruct (onmessage_call host devices fc w) as [r w1]. simpl in H1.
    specialize (IH w1).
    destruct (onmessage_toolCall host devices rest w1) as [rs w2]. simpl in *.
    eapply Forall2_compose; [apply sameIdentity_trans | exact H1 | exact IH].
Qed.

Lemma step_sameIdentity (e : Event T) (a : App T) :
  isApplyChanges e = false ->
  Forall2 sameIdentity (registry (world a)) (registry (world (step host e a))).
Proof.
  intros He. destruct e; simpl in *; try discriminate.
  - rewrite toggleConnection_registry. apply Forall2_refl_all, sameIdentity_refl.
  - destruct (nth_error quickActions button);
      [apply handleScriptExecution_sameIdentity | apply Forall2_refl_all, sameIdentity_refl].
  - destruct (sessionDevices a); apply Forall2_refl_all, sameIdentity_refl.
  - destruct (sessionDevices a) as [devices|]; [|apply Forall2_refl_all, sameIdentity_refl].
    unfold onmessage.
    destruct (toolCall msg) as [functionCalls|]; [|apply Forall2_refl_all, sameIdentity_refl].
    pose proof (onmessage_toolCall_sameIdentity devices functionCalls (world a)) as Hd.
    destruct (onmessage_toolCall host devices functionCalls (world a)). exact Hd.
  - destruct (sessionDevices a); apply Forall2_refl_all, sameIdentity_refl.
  - destruct (sessionDevices a); apply Forall2_refl_all, sameIdentity_refl.
Qed.

End IdentityOfComponent.

(** X2.  Across any sequence of clicks and session events that does not
    apply a configuration, the component keeps the devices it has: same
    number, same order, and the same identifier, name, model, OS version,
    address and battery level for each.  Only "Apply Changes" can add,
    remove, rename or reorder devices. *)
Theorem only_apply_changes_edits_the_fleet
        (host : Host) {T : Type} `{Timeline T} (es : list (Event T)) (a : App T) :
  forallb (fun e => negb (isApplyChanges e)) es = true ->
  Forall2 sameIdentity (registry (world a)) (registry (world (run host es a))) /\
  map id (registry (world (run host es a))) = map id (registry (world a)).
Proof.
  revert a. induction es as [|e es IH]; intros a Hes.
  - split; [apply Forall2_refl_all, sameIdentity_refl | reflexivity].
  - cbn [forallb] in Hes. apply andb_true_iff in Hes. destruct Hes as [He Hes].
    apply negb_true_iff in He.
    change (run host (e :: es) a) with (run host es (step host e a)).
    destruct (IH (step host e a) Hes) as [Hall Hids].
    pose proof (step_sameIdentity host e a He) as H1.
    split.
    + eapply Forall2_compose; [apply sameIdentity_trans | exact H1 | exact Hall].
    + rewrite Hids. apply sameIdentity_ids. exact H1.
Qed.

(** ** The target list as a set *)

(** X3.  Only the membership of identifiers in the target list matters: two
    lists with the same members, in any order and with any repetitions,
    resolve to the same targets and give the same result text and the same
    world.  Naming a device twice does not dispatch to it twice. *)
Theorem target_list_is_a_set
        (host : Host) devices action argument (l1 l2 : list string) w :
  (forall x, In x l1 <-> In x l2) ->
  resolveTargets devices l1 = resolveTargets devices l2 /\
  handleScriptExecution host devices action argument l1 w
  = handleScriptExecution host devices action argument l2 w.
Proof.
  intros Hsame.
  assert (Hinc : forall x, JS.arrayIncludes l1 x = JS.arrayIncludes l2 x).
  { intros x. apply Bool.eq_iff_eq_true. rewrite !arrayIncludes_In. apply Hsame. }
  assert (Ht : resolveTargets devices l1 = resolveTargets devices l2).
  { unfold resolveTargets. rewrite (Hinc "all").
    destruct (JS.arrayIncludes l2 "all"); [reflexivity|].
    apply filter_ext. intros d. now rewrite (Hinc (id d)). }
  split; [exact Ht|].
  unfold handleScriptExecution, handleScriptExecution_begin. now rewrite Ht.
Qed.

(** ** The log lines of a dispatch *)

Section DispatchLog.

Variable host : Host.

Lemma reached_markBusy_names targets prev :
  map name (reached targets (markBusy targets prev)) = map name (reached targets prev).
Proof.
  unfold reached, markBusy. induction prev as [|d l IH]; simpl; [reflexivity|].
  destruct (isTarget targets d) eqn:E.
  - rewrite isTarget_withStatus, E. simpl. now rewrite IH.
  - rewrite E. exact IH.
Qed.

Lemma typedLines_names ds ds' : map name ds = map name ds' -> typedLines ds = typedLines ds'.
Proof.
  unfold typedLines. revert ds'. induction ds as [|d l IH]; intros [|d' l'] E;
    simpl in *; try discriminate; [reflexivity|].
  injection E as -> E. now rewrite (IH l' E).
Qed.

Lemma settleAll_logs action argument targets prev :
  forall w, logs (snd (fst (settleAll host action argument targets prev w))) = logs w.
Proof.
  induction prev as [|d rest IH]; intros w; [reflexivity|].
  cbn [settleAll].
  destruct (isTarget targets d).
  - destruct (applyCommand host action argument d w) as [d' w1] eqn:Ea.
    specialize (IH w1).
    destruct (settleAll host action argument targets rest w1) as [[rest' w2] a2].
    cbn [fst snd] in *. rewrite IH.
    destruct action; simpl in Ea; injection Ea as _ <-; reflexivity.
  - specialize (IH w).
    destruct (settleAll host action argument targets rest w) as [[rest' w2] a2].
    exact IH.
Qed.

(** What the updater asks for: an entry per record it reaches, for the text
    action only. *)
Lemma settleAll_asked action argument targets prev :
  forall w,
    map requestLine
        (snd (settleAll host action argument targets prev w))
    = match action with TEXT => typedLines (reached targets prev) | _ => [] end.
Proof.
  induction prev as [|d rest IH]; intros w.
  - destruct action; reflexivity.
  - cbn [settleAll]. unfold reached. cbn [filter]. fold (reached targets rest).
    destruct (isTarget targets d) eqn:Et.
    + destruct (applyCommand host action argument d w) as [d' w1] eqn:Ea.
      specialize (IH w1).
      destruct (settleAll host action argument targets rest w1) as [[rest' w2] a2].
      cbn [snd] in IH. cbn [snd]. rewrite map_app, IH.
      destruct action; reflexivity.
    + specialize (IH w).
      destruct (settleAll host action argument targets rest w) as [[rest' w2] a2].
      cbn [snd app] in *. exact IH.
Qed.

Lemma addLogs_logLines requests :
  forall w,
    map logLine (logs (addLogs host requests w))
    = map logLine (logs w) ++ map requestLine requests.
Proof.
  induction requests as [|[[src msg] ty] rest IH]; intros w; cbn [addLogs fold_left map].
  - now rewrite app_nil_r.
  - fold (addLogs host rest (addLog host src msg ty w)). rewrite IH.
    cbn [logs addLog]. rewrite map_app, <- app_assoc. reflexivity.
Qed.

End DispatchLog.

(** X4.  A dispatch with a non-empty target set adds to the log, in this
    order: one command line that lists the targets' names; one success line
    with the number of targets; and, for the text action only, one "Typed
    text on <name>" success line per registry record it reaches, in registry
    order.  The typed lines come last although the code asks for them first:
    it does so inside the updater of the registry, which runs at the render,
    after the success entry was queued.  Every other action adds exactly the
    two lines. *)
Theorem dispatch_log_lines
        (host : Host) devices action argument targetDevices w :
  let targets := resolveTargets devices targetDevices in
  let wf := snd (handleScriptExecution host devices action argument targetDevices w) in
  targets <> [] ->
  map logLine (logs wf)
  = map logLine (logs w)
    ++ [(System, command,
         ("Executing: ./connect_ios_wireless.sh " ++ commandValue action ++ " "
          ++ JS.orElse argument "" ++ " on [" ++ JS.join ", " (map name targets) ++ "]")%string)]
    ++ [(System, success,
         ("Successfully executed " ++ commandValue action ++ " on "
          ++ JS.ofNat (List.length targets) ++ " devices.")%string)]
    ++ match action with TEXT => typedLines (reached targets (registry w)) | _ => [] end.
Proof.
  intros targets wf Hne. unfold wf, handleScriptExecution, handleScriptExecution_begin.
  fold targets.
  destruct (List.length targets =? 0) eqn:E; [apply length_zero_eqb in E; contradiction|].
  rewrite resume_eq. cbn [snd].
  set (w1 := addLog host System _ command w).
  set (wb := setDevices (markBusy targets) w1).
  rewrite addLogs_logLines, settleAll_asked.
  cbn [logs addLog]. rewrite map_app. cbn [map logLine source type message].
  unfold settle.
  pose proof (settleAll_logs host action argument targets (registry wb) wb) as Hl.
  destruct (settleAll host action argument targets (registry wb) wb) as [[next w2] asked].
  cbn [fst snd] in Hl. cbn [logs setDevices]. rewrite Hl.
  unfold wb. cbn [logs setDevices registry]. unfold w1 at 1. cbn [logs addLog registry].
  rewrite map_app. cbn [map logLine source type message].
  rewrite <- !app_assoc. f_equal. f_equal. f_equal.
  destruct action; try reflexivity.
  apply typedLines_names. unfold w1. cbn [registry addLog].
  apply reached_markBusy_names.
Qed.

(** ** Screenshots *)

Section ScreenshotDraws.

Variable host : Host.

Lemma reached_markBusy_length targets prev :
  List.length (reached targets (markBusy targets prev)) = List.length (reached targets prev).
Proof.
  rewrite <- (length_map name), reached_markBusy_names. apply length_map.
Qed.

Lemma settleAll_screenshots argument targets prev :
  forall w,
    let r := settleAll host SCREENSHOT argument targets prev w in
    map lastScreenshot (reached targets (fst (fst r)))
    = map (fun j => Some (screenshotUrl host (Math_random host (reads w + j))))
          (seq 0 (List.length (reached targets prev))) /\
    reads (snd (fst r)) = reads w + List.length (reached targets prev) /\
    snd r = [].
Proof.
  induction prev as [|d rest IH]; intros w.
  - simpl. split; [reflexivity | split; [lia | reflexivity]].
  - cbn [settleAll]. unfold reached. cbn [filter]. fold (reached targets rest).
    destruct (isTarget targets d) eqn:Et.
    + cbn [applyCommand commandEffects random snd].
      set (w1 := mkWorld (registry w) (logs w) (commits w) (S (reads w))).
      destruct (IH w1) as (IHs & IHr & IHa).
      destruct (settleAll host SCREENSHOT argument targets rest w1) as [[rest' w2] a2].
      cbn [fst snd] in *. unfold reached. cbn [filter].
      change (isTarget targets (spread d _)) with (isTarget targets d). rewrite Et.
      fold (reached targets rest'). split; [|split].
      * cbn [map List.length seq]. f_equal.
        -- cbn [lastScreenshot spread u_lastScreenshot setLastScreenshot].
           now rewrite Nat.add_0_r.
        -- rewrite IHs, <- seq_shift, map_map. apply map_ext. intros j.
           unfold w1. cbn [reads]. do 3 f_equal. lia.
      * rewrite IHr. unfold w1, reached. cbn [reads List.length]. lia.
      * exact IHa.
    + destruct (IH w) as (IHs & IHr & IHa).
      destruct (settleAll host SCREENSHOT argument targets rest w) as [[rest' w2] a2].
      cbn [fst snd] in *. unfold reached. cbn [filter]. rewrite Et.
      fold (reached targets rest'). auto.
Qed.

End ScreenshotDraws.

(** X5.  A screenshot dispatch draws [Math.random()] once per registry record
    it reaches, in registry order, right after the draw of its command log
    line: the [j]-th reached record gets the URL built from draw number
    [reads w + 1 + j].  No two records share a draw, and the dispatch makes
    [n + 2] host reads for [n] reached records. *)
Theorem screenshot_draws_are_consecutive
        (host : Host) devices argument targetDevices w :
  let targets := resolveTargets devices targetDevices in
  let wf := snd (handleScriptExecution host devices SCREENSHOT argument targetDevices w) in
  let n := List.length (reached targets (registry w)) in
  targets <> [] ->
  map lastScreenshot (reached targets (registry wf))
  = map (fun j => Some (screenshotUrl host (Math_random host (reads w + 1 + j)))) (seq 0 n) /\
  reads wf = reads w + n + 2.
Proof.
  intros targets wf n Hne. unfold wf, handleScriptExecution, handleScriptExecution_begin.
  fold targets.
  destruct (List.length targets =? 0) eqn:E; [apply length_zero_eqb in E; contradiction|].
  unfold handleScriptExecution_resume.
  set (w1 := addLog host System _ command w).
  pose proof (settleAll_screenshots host argument targets
                (registry (setDevices (markBusy targets) w1))
                (setDevices (markBusy targets) w1)) as Hs.
  cbv zeta in Hs.
  destruct (settleAll host SCREENSHOT argument targets
              (registry (setDevices (markBusy targets) w1))
              (setDevices (markBusy targets) w1)) as [[next w2] asked].
  cbn [fst snd] in Hs. destruct Hs as (Hs & Hr & ->).
  cbn [snd addLogs fold_left]. cbn [registry reads addLog].
  cbn [registry reads setDevices] in *. unfold w1 in Hs, Hr.
  cbn [registry reads addLog] in Hs, Hr.
  rewrite reached_markBusy_length in Hs, Hr. fold n in Hs, Hr.
  split.
  - rewrite Hs. apply map_ext. intros j. do 3 f_equal. lia.
  - rewrite Hr. lia.
Qed.

(** ** Statuses after a dispatch *)

Lemma dispatch_status_map (host : Host) devices action argument targetDevices w :
  map status
      (registry (snd (handleScriptExecution host devices action argument targetDevices w)))
  = map (statusAfter action (resolveTargets devices targetDevices)) (registry w).
Proof.
  pose proof (dispatch_records host devices action argument targetDevices w) as Hall.
  induction Hall as [|d f l l' Hdf _ IH]; simpl; [reflexivity|].
  rewrite IH. f_equal.
  apply replacedBy_facts in Hdf. destruct Hdf as (_ & Ht & Hf).
  unfold statusAfter. destruct (isTarget (resolveTargets devices targetDevices) d).
  - now apply Ht.
  - now rewrite (Hf eq_refl).
Qed.

Lemma settledStatus_not_busy action : settledStatus action <> busy.
Proof. destruct action; discriminate. Qed.

Lemma dispatch_noneBusy (host : Host) devices action argument targetDevices w :
  noneBusy (registry w) ->
  noneBusy (registry (snd (handleScriptExecution host devices action argument
                                                 targetDevices w))).
Proof.
  intros Hnb f Hf.
  pose proof (dispatch_records host devices action argument targetDevices w) as Hall.
  destruct (Forall2_In_right _ _ _ _ Hall Hf) as (d & Hd & R).
  apply replacedBy_facts in R. destruct R as (_ & Ht & Hu).
  destruct (isTarget (resolveTargets devices targetDevices) d).
  - rewrite (Ht eq_refl). apply settledStatus_not_busy.
  - rewrite (Hu eq_refl). apply Hnb. exact Hd.
Qed.

(** X6.  After a dispatch, whatever its inputs, the status of each record is
    its settled status when the dispatch reaches it and its old status when
    not.  So a record is busy afterwards only if it was busy before and was
    not reached; a registry without busy records stays without; and an action
    other than restart never takes a device offline. *)
Theorem statuses_after_a_dispatch
        (host : Host) devices action argument targetDevices w :
  let targets := resolveTargets devices targetDevices in
  let wf := snd (handleScriptExecution host devices action argument targetDevices w) in
  map status (registry wf) = map (statusAfter action targets) (registry w) /\
  (forall i d f,
      nth_error (registry w) i = Some d -> nth_error (registry wf) i = Some f ->
      (status f = busy -> status d = busy /\ isTarget targets d = false /\ f = d) /\
      (status f = offline ->
       (status d = offline /\ isTarget targets d = false /\ f = d) \/
       (action = RESTART /\ isTarget targets d = true))) /\
  (noneBusy (registry w) -> noneBusy (registry wf)).
Proof.
  intros targets wf. split; [apply dispatch_status_map|]. split.
  - intros i d f Hd Hf.
    pose proof (dispatch_records host devices action argument targetDevices w) as Hall.
    destruct (Forall2_nth_error _ _ _ Hall _ _ Hd) as (f' & Hf' & R).
    fold wf in Hf'. rewrite Hf in Hf'. injection Hf' as <-.
    apply replacedBy_facts in R. destruct R as (_ & Ht & Hu). fold targets in Ht, Hu.
    destruct (isTarget targets d).
    + specialize (Ht eq_refl). split.
      * intros Hb. rewrite Hb in Ht. symmetry in Ht.
        exfalso. exact (settledStatus_not_busy action Ht).
      * intros Ho. right. split; [|reflexivity].
        rewrite Ho in Ht. destruct action; try discriminate. reflexivity.
    + specialize (Hu eq_refl). subst f. split.
      * intros Hb. auto.
      * intros Ho. left. auto.
  - apply dispatch_noneBusy.
Qed.

Section RestOfComponent.

Variable host : Host.
Context {T : Type} `{Timeline T}.

Lemma parseConfig_noneBusy content w : noneBusy (registry (parseConfig host content w)).
Proof.
  destruct (parseConfig_registry host content w) as (_ & Hall & _).
  rewrite Forall_forall in Hall. intros d Hd. rewrite (Hall d Hd). discriminate.
Qed.

Lemma onmessage_toolCall_noneBusy devices functionCalls :
  forall w, noneBusy (registry w) ->
            noneBusy (registry (snd (onmessage_toolCall host devices functionCalls w))).
Proof.
  induction functionCalls as [|fc rest IH]; intros w Hnb; simpl; [exact Hnb|].
  assert (H1 : noneBusy (registry (snd (onmessage_call host devices fc w)))).
  { unfold onmessage_call.
    set (w1 := addLog host AI ("Identified Intent: " ++ fc_name fc)%string info w).
    destruct (String.eqb (fc_name fc) "execute_ios_script").
    - pose proof (dispatch_noneBusy host devices (args_action fc) (args_argument fc)
                    (targetsOrAll (args_targetDevices fc)) w1 Hnb) as Hd.
      destruct (handleScriptExecution host devices (args_action fc) (args_argument fc)
                  (targetsOrAll (args_targetDevices fc)) w1).
      exact Hd.
    - exact Hnb. }
  destruct (onmessage_call host devices fc w) as [r w1]. simpl in H1.
  specialize (IH w1 H1).
  destruct (onmessage_toolCall host devices rest w1) as [rs w2]. exact IH.
Qed.

Lemma step_noneBusy (e : Event T) (a : App T) :
  noneBusy (registry (world a)) -> noneBusy (registry (world (step host e a))).
Proof.
  intros Hnb. destruct e; simpl.
  - now rewrite toggleConnection_registry.
  - destruct (nth_error quickActions button); [|exact Hnb].
    apply dispatch_noneBusy. exact Hnb.
  - apply parseConfig_noneBusy.
  - destruct (sessionDevices a); exact Hnb.
  - destruct (sessionDevices a) as [devices|]; [|exact Hnb].
    unfold onmessage. destruct (toolCall msg) as [functionCalls|]; [|exact Hnb].
    pose proof (onmessage_toolCall_noneBusy devices functionCalls (world a) Hnb) as Hd.
    destruct (onmessage_toolCall host devices functionCalls (world a)). exact Hd.
  - destruct (sessionDevices a); exact Hnb.
  - destruct (sessionDevices a); exact Hnb.
Qed.

End RestOfComponent.

(** X7.  Busy is a state of dispatches in flight only: if no device is busy,
    then after any sequence of clicks and session events, each handled to
    its end before the next, no device is busy. *)
Theorem no_device_is_busy_at_rest
        (host : Host) {T : Type} `{Timeline T} (es : list (Event T)) (a : App T) :
  noneBusy (registry (world a)) ->
  noneBusy (registry (world (run host es a))).
Proof.
  revert a. induction es as [|e es IH]; intros a Hnb; [exact Hnb|].
  change (run host (e :: es) a) with (run host es (step host e a)).
  apply IH. apply step_noneBusy. exact Hnb.
Qed.

(** ** Dispatches that overlap *)

Section Overlap.

Variable host : Host.

Lemma settledFrom_facts action argument targets w d f :
  settledFrom host action argument targets w d f ->
  id f = id d /\
  (isTarget targets d = true -> status f = settledStatus action) /\
  (isTarget targets d = false -> f = d).
Proof.
  unfold settledFrom. destruct (isTarget targets d).
  - intros (w0 & _ & ->).
    pose proof (applyCommand_fields host action argument d w0) as F.
    simpl in F. destruct F as (Fid & _ & _ & _ & _ & _ & Fs & _).
    repeat split; auto; discriminate.
  - intros ->. repeat split; auto; discriminate.
Qed.

Lemma resume_records action argument targets deviceNames w :
  Forall2 (settledFrom host action argument targets w) (registry w)
          (registry (snd (handleScriptExecution_resume host action argument targets
                                                       deviceNames w))).
Proof.
  destruct (resume_sameRegistry host action argument targets deviceNames w) as [-> _].
  rewrite settle_registry. apply settleAll_spec.
Qed.

Lemma begin_registry devices action argument targetDevices w :
  resolveTargets devices targetDevices <> [] ->
  exists deviceNames wb,
    handleScriptExecution_begin host devices action argument targetDevices w
    = Awaiting (resolveTargets devices targetDevices) deviceNames wb /\
    registry wb = markBusy (resolveTargets devices targetDevices) (registry w).
Proof.
  intros Hne.
  destruct (begin_some_targets host devices action argument targetDevices w Hne)
    as (deviceNames & w1 & Hb & _ & (R1 & _)).
  eexists _, _. split; [exact Hb|]. simpl. now rewrite R1.
Qed.

End Overlap.

(** X8.  Two dispatches that overlap: the first, by the handler of the
    latest render, is suspended at its settle delay; a second one, for all
    devices, starts meanwhile from the latest render; the first resumes, then
    the second.  Every device in the first target set is busy when the second
    starts, is therefore in the second target set, and ends with the settled
    status of the second action.  In particular a restart overlapped by
    another command does not leave the device offline. *)
Theorem overlapping_dispatches_last_resume_wins
        (host : Host) action1 argument1 targetDevices1 action2 argument2 w :
  let targets1 := resolveTargets (registry w) targetDevices1 in
  targets1 <> [] ->
  exists names1 wb1 targets2 names2 wb2,
    handleScriptExecution_begin host (registry w) action1 argument1 targetDevices1 w
    = Awaiting targets1 names1 wb1 /\
    handleScriptExecution_begin host (registry wb1) action2 argument2 ["all"] wb1
    = Awaiting targets2 names2 wb2 /\
    let w3 := snd (handleScriptExecution_resume host action1 argument1 targets1 names1 wb2) in
    let w4 := snd (handleScriptExecution_resume host action2 argument2 targets2 names2 w3) in
    forall i d,
      nth_error (registry w) i = Some d -> In d targets1 ->
      exists b f,
        nth_error (registry wb1) i = Some b /\ status b = busy /\ In b targets2 /\
        nth_error (registry w4) i = Some f /\
        status f = settledStatus action2 /\ id f = id d.
Proof.
  intros targets1 Hne1.
  destruct (begin_registry host (registry w) action1 argument1 targetDevices1 w Hne1)
    as (names1 & wb1 & Hb1 & R1).
  fold targets1 in Hb1, R1.
  set (targets2 := resolveTargets (registry wb1) ["all"]).
  assert (Hbusy : forall i d, nth_error (registry w) i = Some d -> In d targets1 ->
                              nth_error (registry wb1) i = Some (withStatus busy d) /\
                              In (withStatus busy d) targets2).
  { intros i d Hi Hd.
    assert (Hn : nth_error (registry wb1) i = Some (withStatus busy d)).
    { rewrite R1, (markBusy_nth_error _ _ _ _ Hi), (isTarget_self _ _ Hd). reflexivity. }
    split; [exact Hn|].
    apply resolveTargets_In. split; [eapply nth_error_In; exact Hn|].
    split; [discriminate | left; left; reflexivity]. }
  assert (Hne2 : targets2 <> []).
  { destruct targets1 as [|t ts] eqn:Et; [contradiction|].
    assert (Ht : In t targets1) by (rewrite Et; left; reflexivity).
    pose proof Ht as Hreg. unfold targets1 in Hreg.
    apply resolveTargets_In in Hreg. destruct Hreg as (Hreg & _).
    apply In_nth_error in Hreg. destruct Hreg as (i & Hi).
    rewrite <- Et in Hbusy. destruct (Hbusy i t Hi Ht) as [_ Hin].
    intros E. rewrite E in Hin. exact Hin. }
  destruct (begin_registry host (registry wb1) action2 argument2 ["all"] wb1 Hne2)
    as (names2 & wb2 & Hb2 & R2).
  fold targets2 in Hb2, R2.
  exists names1, wb1, targets2, names2, wb2.
  split; [exact Hb1|]. split; [exact Hb2|].
  intros w3 w4 i d Hi Hd.
  destruct (Hbusy i d Hi Hd) as [Hn1 Hin2].
  exists (withStatus busy d). 
  pose proof (markBusy_nth_error targets2 _ _ _ Hn1) as Hn2. rewrite <- R2 in Hn2.
  pose proof (resume_records host action1 argument1 targets1 names1 wb2) as Hall3.
  destruct (Forall2_nth_error _ _ _ Hall3 _ _ Hn2) as (c & Hc & Rc).
  apply settledFrom_facts in Rc. destruct Rc as (Ic & _ & _).
  pose proof (resume_records host action2 argument2 targets2 names2
                (snd (handleScriptExecution_resume host action1 argument1 targets1
                                                   names1 wb2))) as Hall4.
  destruct (Forall2_nth_error _ _ _ Hall4 _ _ Hc) as (f & Hf & Rf).
  apply settledFrom_facts in Rf. destruct Rf as (If & Tf & _).
  assert (Hid : id c = id d).
  { rewrite Ic. destruct (isTarget targets2 (withStatus busy d)); reflexivity. }
  exists f. split; [exact Hn1|]. split; [reflexivity|]. split; [exact Hin2|].
  split; [exact Hf|]. split; [|congruence].
  apply Tf. rewrite (isTarget_same_id targets2 c (withStatus busy d)).
  - apply isTarget_self. exact Hin2.
  - rewrite Hid. reflexivity.
Qed.

(** ** More on the configuration parser *)

Section ParserInvariants.

Variable host : Host.

(** A property of records that each line keeps holds for the parsed list. *)
Lemma parseConfig_fold_Forall (P : IOSDevice -> Prop) (Q : string -> Prop) :
  (forall devs k line,
      Q line -> Forall P devs -> Forall P (fst (parseConfig_line host (devs, k) line))) ->
  forall lines devs k,
    Forall Q lines -> Forall P devs ->
    Forall P (fst (fold_left (parseConfig_line host) lines (devs, k))).
Proof.
  intros Hline. induction lines as [|line lines IH]; intros devs k HQ HP; [exact HP|].
  cbn [fold_left]. inversion HQ as [|? ? Hq HQ']; subst.
  specialize (Hline devs k line Hq HP).
  destruct (parseConfig_line host (devs, k) line) as [devs1 k1]. apply IH; assumption.
Qed.

Lemma parseConfig_Forall (P : IOSDevice -> Prop) (Q : string -> Prop) content w :
  (forall devs k line,
      Q line -> Forall P devs -> Forall P (fst (parseConfig_line host (devs, k) line))) ->
  Forall Q (JS.split "010" content) ->
  Forall P (registry (parseConfig host content w)).
Proof.
  intros Hline HQ. unfold parseConfig.
  pose proof (parseConfig_fold_Forall P Q Hline (JS.split "010" content) [] (reads w)
                                      HQ (Forall_nil P)) as Hall.
  destruct (fold_left (parseConfig_line host) (JS.split "010" content) ([], reads w)).
  exact Hall.
Qed.

(** The record a data line adds, if it adds one. *)
Lemma parseConfig_line_cases devs k line :
  parseConfig_line host (devs, k) line = (devs, k) \/
  exists f1 f2 f3 rest m os,
    blankOrComment line = false /\
    configFields line = f1 :: f2 :: f3 :: rest /\
    parseConfig_line host (devs, k) line
    = (devs ++ [mkDevice f2 f1 m os f3 connected (randomBattery (Math_random host k))
                         (Some "SpringBoard") None], S k).
Proof.
  unfold parseConfig_line, blankOrComment, configFields.
  destruct (String.eqb (JS.trim line) "" || JS.startsWith (JS.trim line) "#");
    [left; reflexivity|].
  destruct (map JS.trim (JS.split "," (JS.trim line))) as [|f1 [|f2 [|f3 rest]]];
    try (left; reflexivity).
  right. simpl. destruct (inferModel f1) as [m os].
  exists f1, f2, f3, rest, m, os. auto.
Qed.

End ParserInvariants.

(** X9.  Applying a configuration replaces the registry in one update.
    Every record of the new registry is connected, shows the home screen and
    has no screenshot, whatever the devices were before: the new registry
    depends on the text and on the host's draws only, so a device that was
    offline, busy or had a screenshot starts afresh. *)
Theorem applied_configuration_is_fresh (host : Host) content w :
  let w' := parseConfig host content w in
  Forall freshRecord (registry w') /\
  commits w' = commits w ++ [registry w'] /\
  (forall v, reads v = reads w -> registry (parseConfig host content v) = registry w').
Proof.
  intros w'. split; [|split].
  - apply (parseConfig_Forall host freshRecord (fun _ => True)).
    + intros devs k line _ Hdevs.
      destruct (parseConfig_line_cases host devs k line)
        as [->|(f1 & f2 & f3 & rest & m & os & _ & _ & ->)]; [exact Hdevs|].
      simpl. apply Forall_app. split; [exact Hdevs|].
      constructor; [|constructor]. repeat split.
    + apply Forall_forall. auto.
  - unfold w', parseConfig.
    destruct (fold_left (parseConfig_line host) (JS.split "010" content) ([], reads w)).
    reflexivity.
  - intros v Hv. unfold w', parseConfig. rewrite Hv.
    destruct (fold_left (parseConfig_line host) (JS.split "010" content) ([], reads w)).
    reflexivity.
Qed.

(** *** Rounding of the battery draw *)

Lemma pow2_pos e : (0 < Binary64.pow2 e)%Q.
Proof. destruct e; reflexivity. Qed.

Lemma nearest_bounds q :
  (Qfloor q <= Binary64.nearest q <= Qfloor q + 1)%Z.
Proof.
  unfold Binary64.nearest.
  destruct (q - inject_Z (Qfloor q) ?= 1 # 2)%Q; [destruct (Z.even (Qfloor q))| |]; lia.
Qed.

Lemma nearest_below_half q n :
  (q < inject_Z n + (1 # 2))%Q -> (Binary64.nearest q <= n)%Z.
Proof.
  intros Hq.
  destruct (Z_lt_le_dec (Qfloor q) n) as [Hlt|Hge].
  - pose proof (nearest_bounds q). lia.
  - assert (Hfl : Qfloor q = n).
    { apply Z.le_antisymm; [|exact Hge].
      apply Z.lt_succ_r. rewrite Zlt_Qlt.
      eapply Qle_lt_trans; [apply Qfloor_le|].
      eapply Qlt_le_trans; [exact Hq|].
      unfold Z.succ. rewrite inject_Z_plus. apply Qplus_le_r. discriminate. }
    unfold Binary64.nearest. rewrite Hfl.
    assert (Hc : (q - inject_Z n ?= 1 # 2)%Q = Lt).
    { apply Qlt_alt. apply (Qplus_lt_l _ _ (inject_Z n)).
      setoid_replace (q - inject_Z n + inject_Z n)%Q with q by ring.
      setoid_replace ((1 # 2) + inject_Z n)%Q with (inject_Z n + (1 # 2))%Q by ring.
      exact Hq. }
    rewrite Hc. lia.
Qed.

Lemma round_nonneg q : (0 <= q)%Q -> (0 <= Binary64.round q)%Q.
Proof.
  intros Hq. unfold Binary64.round.
  destruct q as [n d]. destruct n as [|p|p]; cbn [Qnum].
  - discriminate.
  - unfold Binary64.roundPositive.
    apply Qmult_le_0_compat; [|apply Qlt_le_weak, pow2_pos].
    change 0%Q with (inject_Z 0). rewrite <- Zle_Qle.
    eapply Z.le_trans; [|apply nearest_bounds].
    change 0%Z with (Qfloor 0). apply Qfloor_resp_le.
    apply Qmult_le_0_compat; [discriminate | apply Qlt_le_weak, pow2_pos].
  - exfalso. unfold Qle in Hq. simpl in Hq. lia.
Qed.

Lemma ilog2_below q m :
  (0 < Qnum q)%Z -> (0 < m)%Z -> (q < inject_Z (2 ^ m))%Q -> (Binary64.ilog2 q < m)%Z.
Proof.
  intros Hpos Hm Hq. unfold Binary64.ilog2.
  set (k := (Z.log2 (Qnum q) - Z.log2 (Z.pos (Qden q)))%Z).
  assert (Hk : (k <= m)%Z).
  { unfold k. unfold Qlt in Hq. cbn [Qnum Qden inject_Z] in Hq.
    rewrite Z.mul_1_r in Hq.
    assert (Hle : (Z.log2 (Qnum q) <= Z.log2 (Z.pos (Qden q) * 2 ^ m))%Z)
      by (apply Z.log2_le_mono; lia).
    rewrite Z.log2_mul_pow2 in Hle by lia. lia. }
  destruct (Qle_bool (Binary64.pow2 k) q) eqn:E; [|lia].
  apply Qle_bool_iff in E.
  destruct (Z.eq_dec k m) as [->|]; [|lia].
  exfalso. apply (Qlt_irrefl q). eapply Qlt_le_trans; [exact Hq|].
  destruct m as [|p|p]; try lia.
  cbn [Binary64.pow2] in E. now rewrite Pos2Z.inj_pow in E.
Qed.

Lemma round_below_40 r :
  (0 <= r)%Q -> (r <= 1 - (1 # 9007199254740992))%Q ->
  (Binary64.round (r * 40) < 40)%Q.
Proof.
  intros H0 H1.
  destruct r as [a b]. unfold Binary64.round.
  change (Qnum ((a # b) * 40)) with (a * 40)%Z.
  destruct (a * 40)%Z as [|n|n] eqn:En; [reflexivity| |].
  2:{ exfalso. unfold Qle in H0. simpl in H0. lia. }
  assert (Ha : (0 < a)%Z) by lia.
  unfold Binary64.roundPositive, Binary64.ulpExponent.
  set (x := ((a # b) * 40)%Q).
  assert (Hx : (x < inject_Z (2 ^ 6))%Q).
  { unfold x, Qlt, Qle in *. cbn [Qnum Qden inject_Z Qmult Qminus Qplus Qopp] in *. lia. }
  assert (Hl : (Binary64.ilog2 x < 6)%Z).
  { apply ilog2_below; [|lia | exact Hx]. unfold x. cbn [Qnum Qmult]. lia. }
  destruct (Z.max (Binary64.ilog2 x - 52) (-1074)) as [|e|e] eqn:Ee; try lia.
  assert (He : (2 ^ 47 <= Z.pos (2 ^ e))%Z).
  { rewrite Pos2Z.inj_pow. apply Z.pow_le_mono_r; lia. }
  cbn [Z.opp Binary64.pow2].
  set (P := Z.pos (2 ^ e)) in *.
  assert (Hn : (Binary64.nearest (x * inject_Z P) <= 40 * P - 1)%Z).
  { apply nearest_below_half.
    unfold x, Qlt, Qle in *.
    cbn [Qnum Qden inject_Z Qmult Qminus Qplus Qopp] in *.
    rewrite ?Pos.mul_1_r, ?Z.mul_1_r in *.
    change (Z.pos (b * 1)) with (Z.pos b * 1)%Z.
    assert (Hb : (0 < Z.pos b)%Z) by lia.
    nia. }
  apply Qle_lt_trans with (y := (inject_Z (40 * P - 1) * (1 # 2 ^ e))%Q).
  - apply Qmult_le_compat_r; [|discriminate]. rewrite <- Zle_Qle. exact Hn.
  - unfold Qlt. cbn [Qnum Qden inject_Z Qmult]. fold P. lia.
Qed.

Lemma randomBattery_lower (r : Q) : (0 <= r)%Q -> (60 <= randomBattery r)%Z.
Proof.
  intros H0. unfold randomBattery.
  assert (Hlo : (0 <= Qfloor (Binary64.round (r * 40)))%Z).
  { change 0%Z with (Qfloor 0). apply Qfloor_resp_le. apply round_nonneg.
    apply Qmult_le_0_compat; [exact H0 | discriminate]. }
  lia.
Qed.

Lemma randomBattery_upper (r : Q) :
  (0 <= r)%Q -> (r <= 1 - (1 # 9007199254740992))%Q -> (randomBattery r <= 99)%Z.
Proof.
  intros H0 H1. unfold randomBattery.
  assert (Hhi : (Qfloor (Binary64.round (r * 40)) < 40)%Z).
  { rewrite Zlt_Qlt. eapply Qle_lt_trans; [apply Qfloor_le|].
    now apply round_below_40. }
  lia.
Qed.

(** X10.  [Math.random()] returns a binary64 in [0, 1), that is, a value
    between 0 and 1 - 2^-53.  Every parsed device then has a battery level
    between 60 and 99.  The product with 40 is rounded to a binary64, which
    can take it up to the next integer (63 where the exact product would give
    62) but never up to 40, so the level 100 that the source comment mentions
    is never produced. *)
Theorem parsed_battery_is_between_60_and_99 (host : Host) content w :
  (forall k, (0 <= Math_random host k)%Q /\
             (Math_random host k <= 1 - (1 # 9007199254740992))%Q) ->
  Forall (fun d => (60 <= batteryLevel d <= 99)%Z) (registry (parseConfig host content w)).
Proof.
  intros Hrand.
  apply (parseConfig_Forall host _ (fun _ => True)).
  - intros devs k line _ Hdevs.
    destruct (parseConfig_line_cases host devs k line)
      as [->|(f1 & f2 & f3 & rest & m & os & _ & _ & ->)]; [exact Hdevs|].
    simpl. apply Forall_app. split; [exact Hdevs|].
    constructor; [|constructor]. simpl.
    destruct (Hrand k) as [H0 H1].
    split; [now apply randomBattery_lower | now apply randomBattery_upper].
  - apply Forall_forall. auto.
Qed.

Lemma parsed_battery_is_between_60_and_99_at_edge :
  (forall k, (0 <= Math_random hostEdge k)%Q /\
             (Math_random hostEdge k <= 1 - (1 # 9007199254740992))%Q) /\
  map batteryLevel (registry (parseConfig hostEdge DEFAULT_CONFIG w0)) = [63; 99; 63]%Z /\
  (Qfloor (Math_random hostEdge 0 * 40) + 60 = 62)%Z /\
  Forall (fun d => (60 <= batteryLevel d <= 99)%Z)
         (registry (parseConfig hostEdge DEFAULT_CONFIG w0)).
Proof.
  assert (Hr : forall k, (0 <= Math_random hostEdge k)%Q /\
                         (Math_random hostEdge k <= 1 - (1 # 9007199254740992))%Q).
  { intros k. cbn [Math_random hostEdge]. destruct (Nat.even k); split; discriminate. }
  split; [exact Hr|]. split; [vm_compute; reflexivity|]. split; [vm_compute; reflexivity|].
  exact (parsed_battery_is_between_60_and_99 hostEdge DEFAULT_CONFIG w0 Hr).
Defined.

(** X11.  Every parsed device has a clean name, identifier and address,
    however the configuration text is laid out: no white space and no line
    terminator of ECMAScript at either end, so that trimming it again changes
    nothing, no comma and no line feed anywhere. *)
Theorem parsed_fields_are_clean (host : Host) content w :
  Forall (fun d => cleanField (name d) /\ cleanField (id d) /\ cleanField (ip d))
         (registry (parseConfig host content w)).
Proof.
  apply (parseConfig_Forall host _ (fun line => hasChar "010" line = false)).
  - intros devs k line Hnl Hdevs.
    destruct (parseConfig_line_cases host devs k line)
      as [->|(f1 & f2 & f3 & rest & m & os & _ & Hf & ->)]; [exact Hdevs|].
    simpl. apply Forall_app. split; [exact Hdevs|].
    pose proof (cleanField_of_piece line Hnl) as Hclean. rewrite Hf in Hclean.
    inversion Hclean as [|? ? H1 Hc1]; subst.
    inversion Hc1 as [|? ? H2 Hc2]; subst.
    inversion Hc2 as [|? ? H3 _]; subst.
    constructor; [|constructor]. simpl. auto.
  - apply (split_hasChar "010" "010" content). left. reflexivity.
Qed.

(** *** Concatenated configurations *)

(** X12.  Parsing two configuration texts joined by a line break gives the
    devices of the first followed by the devices of the second: lines are
    parsed independently and in order, and a line that occurs in both texts
    yields a record each time, the parser does not look for duplicate
    identifiers. *)
Theorem parse_of_joined_texts (host : Host) content1 content2 w w1 w2 :
  map deviceTriple
      (registry (parseConfig host (content1 ++ newline ++ content2)%string w))
  = map deviceTriple (registry (parseConfig host content1 w1))
    ++ map deviceTriple (registry (parseConfig host content2 w2)).
Proof.
  destruct (parseConfig_registry host (content1 ++ newline ++ content2)%string w)
    as [-> _].
  destruct (parseConfig_registry host content1 w1) as [-> _].
  destruct (parseConfig_registry host content2 w2) as [-> _].
  unfold newline. change (String "010" "" ++ content2)%string with (String "010" content2).
  rewrite split_app. apply flat_map_app.
Qed.

(** ** The voice session *)

Section SessionFacts.

Variable host : Host.

Lemma dispatch_result devices action argument targetDevices w :
  fst (handleScriptExecution host devices action argument targetDevices w)
  = resultText devices action targetDevices.
Proof.
  unfold handleScriptExecution, handleScriptExecution_begin, resultText.
  destruct (List.length (resolveTargets devices targetDevices) =? 0); [reflexivity|].
  now rewrite resume_eq.
Qed.

Lemma onmessage_call_answer devices fc w :
  fst (onmessage_call host devices fc w) = answer devices fc.
Proof.
  unfold onmessage_call, answer.
  set (w1 := addLog host AI ("Identified Intent: " ++ fc_name fc)%string info w).
  destruct (String.eqb (fc_name fc) "execute_ios_script"); [|reflexivity].
  pose proof (dispatch_result devices (args_action fc) (args_argument fc)
                (targetsOrAll (args_targetDevices fc)) w1) as Hr.
  destruct (handleScriptExecution host devices (args_action fc) (args_argument fc)
              (targetsOrAll (args_targetDevices fc)) w1).
  simpl in *. now rewrite Hr.
Qed.

Lemma onmessage_toolCall_answers devices functionCalls :
  forall w, fst (onmessage_toolCall host devices functionCalls w)
            = map (answer devices) functionCalls.
Proof.
  induction functionCalls as [|fc rest IH]; intros w; simpl; [reflexivity|].
  pose proof (onmessage_call_answer devices fc w) as H1.
  destruct (onmessage_call host devices fc w) as [r w1]. simpl in H1.
  specialize (IH w1).
  destruct (onmessage_toolCall host devices rest w1) as [rs w2]. simpl in *.
  now rewrite H1, IH.
Qed.

(** Records whose identifier the handler does not read about are left alone. *)
Lemma dispatch_skips_unread_ids devices action argument targetDevices w x :
  (forall t, In t devices -> id t <> x) ->
  forall i d, nth_error (registry w) i = Some d -> id d = x ->
              nth_error (registry (snd (handleScriptExecution host devices action argument
                                                              targetDevices w))) i
              = Some d.
Proof.
  intros Hx i d Hi Hid.
  pose proof (dispatch_records host devices action argument targetDevices w) as Hall.
  destruct (Forall2_nth_error _ _ _ Hall _ _ Hi) as (f & Hf & R).
  apply replacedBy_facts in R. destruct R as (_ & _ & Hu).
  rewrite Hf. f_equal. apply Hu.
  destruct (isTarget (resolveTargets devices targetDevices) d) eqn:Et; [|reflexivity].
  apply isTarget_true in Et. destruct Et as (t & Ht & Hidt).
  apply resolveTargets_In in Ht. destruct Ht as (Ht & _).
  exfalso. apply (Hx t Ht). congruence.
Qed.

Lemma onmessage_toolCall_skips_unread_ids devices functionCalls x :
  (forall t, In t devices -> id t <> x) ->
  forall w i d,
    nth_error (registry w) i = Some d -> id d = x ->
    nth_error (registry (snd (onmessage_toolCall host devices functionCalls w))) i = Some d.
Proof.
  intros Hx. induction functionCalls as [|fc rest IH]; intros w i d Hi Hid; simpl;
    [exact Hi|].
  assert (H1 : nth_error (registry (snd (onmessage_call host devices fc w))) i = Some d).
  { unfold onmessage_call.
    set (w1 := addLog host AI ("Identified Intent: " ++ fc_name fc)%string info w).
    destruct (String.eqb (fc_name fc) "execute_ios_script"); [|exact Hi].
    pose proof (dispatch_skips_unread_ids devices (args_action fc) (args_argument fc)
                  (targetsOrAll (args_targetDevices fc)) w1 x Hx i d Hi Hid) as Hd.
    destruct (handleScriptExecution host devices (args_action fc) (args_argument fc)
                (targetsOrAll (args_targetDevices fc)) w1).
    exact Hd. }
  destruct (onmessage_call host devices fc w) as [r w1]. simpl in H1.
  specialize (IH w1 i d H1 Hid).
  destruct (onmessage_toolCall host devices rest w1) as [rs w2]. exact IH.
Qed.

(** The identifiers and statuses after a dispatch are a function of the
    identifiers and statuses before it. *)
Lemma dispatch_idStatus_closed devices action argument targetDevices w :
  map idStatus (registry (snd (handleScriptExecution host devices action argument
                                                     targetDevices w)))
  = map (fun p : string * Status =>
           (fst p,
            if existsb (fun t => String.eqb (id t) (fst p))
                       (resolveTargets devices targetDevices)
            then settledStatus action else snd p))
        (map idStatus (registry w)).
Proof.
  pose proof (dispatch_records host devices action argument targetDevices w) as Hall.
  induction Hall as [|d f l l' Hdf _ IH]; [reflexivity|].
  cbn [map]. rewrite IH. f_equal.
  apply replacedBy_facts in Hdf. destruct Hdf as (I & Tt & U).
  unfold idStatus. cbn [fst snd]. unfold isTarget in Tt, U.
  destruct (existsb (fun t => String.eqb (id t) (id d))
                    (resolveTargets devices targetDevices)).
  - now rewrite I, (Tt eq_refl).
  - now rewrite (U eq_refl).
Qed.

Lemma dispatch_idStatus devices action argument targetDevices w v :
  map idStatus (registry w) = map idStatus (registry v) ->
  map idStatus (registry (snd (handleScriptExecution host devices action argument
                                                     targetDevices w)))
  = map idStatus (registry (snd (handleScriptExecution host devices action argument
                                                       targetDevices v))).
Proof. intros Hsame. rewrite !dispatch_idStatus_closed. now rewrite Hsame. Qed.

Lemma onmessage_toolCall_idStatus devices functionCalls :
  forall w v,
    map idStatus (registry w) = map idStatus (registry v) ->
    map idStatus (registry (snd (onmessage_toolCall host devices functionCalls w)))
    = map idStatus (registry (snd (onmessage_toolCall host devices functionCalls v))).
Proof.
  induction functionCalls as [|fc rest IH]; intros w v Hsame; simpl; [exact Hsame|].
  assert (H1 : map idStatus (registry (snd (onmessage_call host devices fc w)))
               = map idStatus (registry (snd (onmessage_call host devices fc v)))).
  { unfold onmessage_call.
    set (w1 := addLog host AI ("Identified Intent: " ++ fc_name fc)%string info w).
    set (v1 := addLog host AI ("Identified Intent: " ++ fc_name fc)%string info v).
    destruct (String.eqb (fc_name fc) "execute_ios_script"); [|exact Hsame].
    pose proof (dispatch_idStatus devices (args_action fc) (args_argument fc)
                  (targetsOrAll (args_targetDevices fc)) w1 v1 Hsame) as Hd.
    destruct (handleScriptExecution host devices (args_action fc) (args_argument fc)
                (targetsOrAll (args_targetDevices fc)) w1).
    destruct (handleScriptExecution host devices (args_action fc) (args_argument fc)
                (targetsOrAll (args_targetDevices fc)) v1).
    exact Hd. }
  destruct (onmessage_call host devices fc w) as [r w1].
  destruct (onmessage_call host devices fc v) as [r' v1]. simpl in H1.
  specialize (IH w1 v1 H1).
  destruct (onmessage_toolCall host devices rest w1) as [rs w2].
  destruct (onmessage_toolCall host devices rest v1) as [rs' v2]. exact IH.
Qed.

End SessionFacts.

(** X13.  The tool responses of a message are one per function call, in
    order, each with the identifier and the name of its call.  A call of
    another tool is answered "Error executing command."; a call of
    [execute_ios_script] is answered with the text computed from the devices
    the session callbacks closed over.  The answers therefore do not depend
    on the live registry. *)
Theorem session_answers_come_from_captured_devices
        (host : Host) {T : Type} `{Timeline T}
        devices (msg : Message T) (a : App T) functionCalls :
  toolCall msg = Some functionCalls ->
  sent (onmessage host devices msg a) = sent a ++ map (answer devices) functionCalls /\
  map resp_id (map (answer devices) functionCalls) = map fc_id functionCalls /\
  map resp_name (map (answer devices) functionCalls) = map fc_name functionCalls.
Proof.
  intros Hcalls. split; [|split].
  - unfold onmessage. rewrite Hcalls.
    pose proof (onmessage_toolCall_answers host devices functionCalls (world a)) as Ha.
    destruct (onmessage_toolCall host devices functionCalls (world a)) as [rs w1].
    simpl in *. now rewrite Ha.
  - rewrite map_map. reflexivity.
  - rewrite map_map. reflexivity.
Qed.

Lemma session_answers_come_from_captured_devices_at_threeCalls :
  toolCall threeCalls
  = Some [mkCall "c1" "execute_ios_script" RESTART None (Some ["00032-000A2B801C"]);
          mkCall "c2" "reboot_router" HOME None None;
          mkCall "c3" "execute_ios_script" SCREENSHOT None None] /\
  map resp_result (sent (onmessage host0 (registry (world booted)) threeCalls inSession))
  = ["Command restart executed successfully on ipad.";
     "Error executing command.";
     "Command screenshot executed successfully on iphone16p, iphone17, ipad."].
Proof.
  split; [reflexivity|].
  destruct (session_answers_come_from_captured_devices host0 (registry (world booted))
              threeCalls inSession _ eq_refl) as [-> _].
  vm_compute. reflexivity.
Defined.

(** X14.  [toggleConnection] never changes a device, the playback cursor or
    the responses sent.  Starting disconnected, it ends connected, with the
    session callbacks closing over the [devices] of its render, exactly when
    a credential is available and the microphone is granted; every failed
    attempt ends disconnected with the callbacks it had.  Without a key and
    without a working key picker it changes nothing at all, not even the
    log. *)
Theorem toggleConnection_outcomes
        (host : Host) {T : Type} `{Timeline T} env devices (a : App T) :
  let a' := toggleConnection host env devices a in
  (registry (world a') = registry (world a) /\ commits (world a') = commits (world a) /\
   bridge a' = bridge a /\ sent a' = sent a) /\
  (isConnected a = false ->
   if canConnect env
   then isConnected a' = true /\ sessionDevices a' = Some devices /\
        outputAudioContext a' = true
   else isConnected a' = false /\ sessionDevices a' = sessionDevices a) /\
  (isConnected a = false -> apiKey env = false ->
   selectKey env <> Some true -> a' = a) /\
  (isConnected a = true ->
   isConnected a' = false /\ sessionDevices a' = sessionDevices a).
Proof.
  intros a'. unfold a', toggleConnection, canConnect.
  destruct (isConnected a) eqn:Ec;
    [|destruct (apiKey env) eqn:Ek; destruct (selectKey env) as [[|]|] eqn:Es;
      destruct (currentKey env) eqn:Ecur; destruct (microphone env) eqn:Em];
    cbn [negb andb orb];
    (split; [repeat split|]);
    (split; [intros Hc; try discriminate Hc;
             cbn [isConnected sessionDevices outputAudioContext onWorld setIsConnected];
             repeat split; try reflexivity; try exact Ec|]);
    (split; [intros Hc Hk Hs; try discriminate Hc; try discriminate Hk;
             try reflexivity; try (exfalso; apply Hs; reflexivity)|]);
    intros Hc; try discriminate Hc; split; reflexivity.
Qed.

(** X15.  Ending the voice session from the button marks the component
    disconnected but leaves the session callbacks installed: a message that
    arrives afterwards is handled as it would have been before, with the same
    tool responses and the same identifiers and statuses in the registry. *)
Theorem ending_the_session_keeps_its_callbacks
        (host : Host) {T : Type} `{Timeline T} env (msg : Message T) (a : App T) :
  isConnected a = true ->
  let ended := step host (ClickToggle env) a in
  isConnected ended = false /\
  sessionDevices ended = sessionDevices a /\
  sent (step host (SessionMessage msg) ended) = sent (step host (SessionMessage msg) a) /\
  map idStatus (registry (world (step host (SessionMessage msg) ended)))
  = map idStatus (registry (world (step host (SessionMessage msg) a))).
Proof.
  intros Hc ended.
  assert (He : ended = onWorld (addLog host System "Voice session ended." info)
                               (setIsConnected false a)).
  { unfold ended. cbn [step]. unfold toggleConnection. now rewrite Hc. }
  split; [now rewrite He|]. split; [now rewrite He|].
  cbn [step]. rewrite He. cbn [sessionDevices onWorld setIsConnected].
  destruct (sessionDevices a) as [devices|]; [|split; reflexivity].
  unfold onmessage. cbn [world bridge sent onWorld setIsConnected outputAudioContext
                         isConnected sessionDevices].
  destruct (toolCall msg) as [functionCalls|]; [|split; reflexivity].
  set (v := addLog host System "Voice session ended." info (world a)).
  pose proof (onmessage_toolCall_answers host devices functionCalls v) as A1.
  pose proof (onmessage_toolCall_answers host devices functionCalls (world a)) as A2.
  pose proof (onmessage_toolCall_idStatus host devices functionCalls v (world a) eq_refl)
    as S.
  destruct (onmessage_toolCall host devices functionCalls v) as [rs1 w1].
  destruct (onmessage_toolCall host devices functionCalls (world a)) as [rs2 w2].
  cbn [fst snd sent world] in *. split; [congruence | exact S].
Qed.

Lemma ending_the_session_keeps_its_callbacks_at_threeCalls :
  isConnected inSession = true /\
  map status (registry (world
     (run host0 [ClickToggle connectOk; SessionMessage threeCalls] inSession)))
  = map status (registry (world (run host0 [SessionMessage threeCalls] inSession))) /\
  map status (registry (world (run host0 [SessionMessage threeCalls] inSession)))
  = [connected; connected; connected].
Proof.
  split; [reflexivity|]. split; [|vm_compute; reflexivity].
  destruct (ending_the_session_keeps_its_callbacks host0 connectOk threeCalls inSession
              eq_refl) as (_ & _ & _ & Hs).
  apply (f_equal (map snd)) in Hs. rewrite !map_map in Hs. exact Hs.
Defined.

Section SessionDevices.

Variable host : Host.
Context {T : Type} `{Timeline T}.

Lemma step_sessionDevices (e : Event T) (a : App T) :
  isToggle e = false -> sessionDevices (step host e a) = sessionDevices a.
Proof.
  intros He. destruct e; simpl in *; try discriminate; try reflexivity.
  - destruct (nth_error quickActions button); reflexivity.
  - destruct (sessionDevices a) eqn:Es; cbn [sessionDevices onWorld]; exact Es.
  - destruct (sessionDevices a) as [devices|] eqn:Es; [|exact Es].
    unfold onmessage. destruct (toolCall msg) as [functionCalls|]; [|exact Es].
    destruct (onmessage_toolCall host devices functionCalls (world a)). exact Es.
  - destruct (sessionDevices a) eqn:Es;
      cbn [sessionDevices onWorld setIsConnected]; exact Es.
  - destruct (sessionDevices a) eqn:Es;
      cbn [sessionDevices onWorld setIsConnected]; exact Es.
Qed.

End SessionDevices.

(** X16.  The device list that voice commands are resolved against is fixed
    when the session is opened: no dispatch, applied configuration, message,
    close or error changes what the session callbacks closed over; only the
    connect button does. *)
Theorem session_devices_change_only_on_toggle
        (host : Host) {T : Type} `{Timeline T} (es : list (Event T)) (a : App T) :
  forallb (fun e => negb (isToggle e)) es = true ->
  sessionDevices (run host es a) = sessionDevices a.
Proof.
  revert a. induction es as [|e es IH]; intros a Hes; [reflexivity|].
  cbn [forallb] in Hes. apply andb_true_iff in Hes. destruct Hes as [He Hes].
  apply negb_true_iff in He.
  change (run host (e :: es) a) with (run host es (step host e a)).
  rewrite (IH _ Hes). apply step_sessionDevices. exact He.
Qed.

Lemma session_devices_change_only_on_toggle_at_inSession :
  forallb (fun e : Event Q => negb (isToggle e))
          [ClickApplyChanges configWithMini; ClickQuickAction 7;
           SessionMessage threeCalls] = true /\
  sessionDevices (run host0 [ClickApplyChanges configWithMini; ClickQuickAction 7;
                             SessionMessage threeCalls] inSession)
  = Some (registry (world booted)).
Proof.
  split; [reflexivity|].
  rewrite (session_devices_change_only_on_toggle host0
             [ClickApplyChanges configWithMini; ClickQuickAction 7;
              SessionMessage threeCalls] inSession eq_refl).
  reflexivity.
Defined.

(** X17.  A device whose identifier is not among the devices the session
    callbacks closed over is out of reach of voice commands: whatever
    messages arrive, its record stays as it is.  A device added by "Apply
    Changes" after the session was opened is such a device. *)
Theorem voice_cannot_reach_new_devices
        (host : Host) {T : Type} `{Timeline T}
        (msgs : list (Message T)) (a : App T) devices x :
  sessionDevices a = Some devices ->
  (forall t, In t devices -> id t <> x) ->
  forall i d,
    nth_error (registry (world a)) i = Some d -> id d = x ->
    nth_error (registry (world (run host (map SessionMessage msgs) a))) i = Some d.
Proof.
  intros Hs Hx. revert a Hs.
  induction msgs as [|msg msgs IH]; intros a Hs i d Hi Hid; [exact Hi|].
  change (run host (map SessionMessage (msg :: msgs)) a)
    with (run host (map SessionMessage msgs) (step host (SessionMessage msg) a)).
  apply IH; [|  |exact Hid].
  - rewrite step_sessionDevices; [exact Hs | reflexivity].
  - cbn [step]. rewrite Hs. unfold onmessage.
    destruct (toolCall msg) as [functionCalls|]; [|exact Hi].
    pose proof (onmessage_toolCall_skips_unread_ids host devices functionCalls x Hx
                  (world a) i d Hi Hid) as Hd.
    destruct (onmessage_toolCall host devices functionCalls (world a)). exact Hd.
Qed.

Lemma voice_cannot_reach_new_devices_at_mini :
  let a := step host0 (ClickApplyChanges configWithMini) inSession in
  sessionDevices a = Some (registry (world booted)) /\
  (forall t, In t (registry (world booted)) -> id t <> "00099-000B") /\
  map name (registry (world a)) = ["iphone16p"; "iphone17"; "ipad"; "ipadmini"] /\
  nth_error (registry (world (run host0 (map SessionMessage [threeCalls]) a))) 3
  = nth_error (registry (world a)) 3.
Proof.
  intros a.
  assert (Hs : sessionDevices a = Some (registry (world booted))) by reflexivity.
  assert (Hx : forall t, In t (registry (world booted)) -> id t <> "00099-000B").
  { intros t Ht. vm_compute in Ht.
    destruct Ht as [<-|[<-|[<-|[]]]]; discriminate. }
  split; [exact Hs|]. split; [exact Hx|]. split; [vm_compute; reflexivity|].
  destruct (nth_error (registry (world a)) 3) as [d|] eqn:Hd.
  - apply (voice_cannot_reach_new_devices host0 [threeCalls] a _ "00099-000B" Hs Hx 3 d Hd).
    vm_compute in Hd. injection Hd as <-. reflexivity.
  - vm_compute in Hd. discriminate Hd.
Defined.

(** ** The dispatcher's further properties at concrete inputs *)

Lemma only_apply_changes_edits_the_fleet_at_booted :
  forallb (fun e : Event Q => negb (isApplyChanges e))
          (restartThenHome ++ [ClickQuickAction 5; ClickToggle connectOk]) = true /\
  map id (registry (world (run host0 (restartThenHome
                                        ++ [ClickQuickAction 5; ClickToggle connectOk])
                               booted)))
  = ["00000-001C01C"; "00-0010501C"; "00032-000A2B801C"].
Proof.
  split; [reflexivity|].
  destruct (only_apply_changes_edits_the_fleet host0
              (restartThenHome ++ [ClickQuickAction 5; ClickToggle connectOk]) booted
              eq_refl) as [_ ->].
  vm_compute. reflexivity.
Defined.

Lemma target_list_is_a_set_at_fleet :
  (forall x, In x ["00032-000A2B801C"; "nobody"; "00032-000A2B801C"]
             <-> In x ["nobody"; "00032-000A2B801C"]) /\
  fst (handleScriptExecution host0 (registry fleet) HOME None
                             ["00032-000A2B801C"; "nobody"; "00032-000A2B801C"] fleet)
  = "Command home executed successfully on ipad.".
Proof.
  assert (Hsame : forall x, In x ["00032-000A2B801C"; "nobody"; "00032-000A2B801C"]
                            <-> In x ["nobody"; "00032-000A2B801C"]).
  { intros x. simpl. tauto. }
  split; [exact Hsame|].
  destruct (target_list_is_a_set host0 (registry fleet) HOME None _ _ fleet Hsame)
    as [_ ->].
  vm_compute. reflexivity.
Defined.

Lemma dispatch_log_lines_at_fleet :
  resolveTargets (registry fleet) ["all"] <> [] /\
  map message (logs (snd (handleScriptExecution host0 (registry fleet) TEXT (Some "hello")
                                                ["all"] fleet)))
  = ["Executing: ./connect_ios_wireless.sh text hello on [iphone16p, ipad]";
     "Successfully executed text on 2 devices.";
     "Typed text on iphone16p"; "Typed text on ipad"].
Proof.
  assert (Hne : resolveTargets (registry fleet) ["all"] <> []).
  { intros E. vm_compute in E. discriminate E. }
  split; [exact Hne|].
  pose proof (dispatch_log_lines host0 (registry fleet) TEXT (Some "hello") ["all"] fleet
                                 Hne) as Hl.
  apply (f_equal (map (fun l : LogSource * LogType * string => snd l))) in Hl.
  rewrite map_map in Hl. cbn [logLine snd] in Hl.
  change (map (fun x : LogEntry => message x)) with (map message) in Hl.
  rewrite Hl. vm_compute. reflexivity.
Defined.

Lemma screenshot_draws_are_consecutive_at_fleet :
  resolveTargets (registry fleet) ["all"] <> [] /\
  reads (snd (handleScriptExecution host0 (registry fleet) SCREENSHOT None ["all"] fleet))
  = 4.
Proof.
  assert (Hne : resolveTargets (registry fleet) ["all"] <> []).
  { intros E. vm_compute in E. discriminate E. }
  split; [exact Hne|].
  destruct (screenshot_draws_are_consecutive host0 (registry fleet) None ["all"] fleet Hne)
    as [_ ->].
  reflexivity.
Defined.

Lemma no_device_is_busy_at_rest_at_booted :
  noneBusy (registry (world booted)) /\
  noneBusy (registry (world (run host0 restartThenHome booted))).
Proof.
  assert (Hnb : noneBusy (registry (world booted))).
  { intros d Hd. vm_compute in Hd. destruct Hd as [<-|[<-|[<-|[]]]]; discriminate. }
  split; [exact Hnb|].
  exact (no_device_is_busy_at_rest host0 restartThenHome booted Hnb).
Defined.

Lemma overlapping_dispatches_last_resume_wins_at_fleet :
  resolveTargets (registry fleet) ["00032-000A2B801C"] <> [] /\
  exists w4 f,
    nth_error (registry w4) 2 = Some f /\ status f = connected /\ id f = id ipad.
Proof.
  assert (Hne : resolveTargets (registry fleet) ["00032-000A2B801C"] <> []).
  { intros E. vm_compute in E. discriminate E. }
  split; [exact Hne|].
  destruct (overlapping_dispatches_last_resume_wins host0 RESTART None
              ["00032-000A2B801C"] HOME None fleet Hne)
    as (names1 & wb1 & targets2 & names2 & wb2 & _ & _ & Hrec).
  cbv zeta in Hrec.
  assert (Hin : In ipad (resolveTargets (registry fleet) ["00032-000A2B801C"])).
  { vm_compute. left. reflexivity. }
  destruct (Hrec 2 ipad eq_refl Hin) as (b & f & _ & _ & _ & Hf & Hs & Hid).
  eexists _, f. split; [exact Hf|]. split; [exact Hs | exact Hid].
Defined.

(** ** More on inbound audio *)

Section CursorFacts.

Context {T : Type} `{Timeline T}.

Lemma playAll_cons (c : Chunk T) cs b : playAll (c :: cs) b = playAll cs (playChunk c b).
Proof. reflexivity. Qed.

Lemma playAll_snoc (c : Chunk T) cs b : playAll (cs ++ [c]) b = playChunk c (playAll cs b).
Proof. unfold playAll. now rewrite fold_left_app. Qed.

Lemma playChunk_cursor (c : Chunk T) b :
  t_le t_zero (duration c) ->
  t_le (nextStartTime b) (nextStartTime (playChunk c b)).
Proof.
  intros Hd. simpl. eapply t_le_trans; [apply t_max_l|].
  apply t_add_nonneg. exact Hd.
Qed.

Lemma playAll_cursor (cs : list (Chunk T)) :
  forall b, (forall c, In c cs -> t_le t_zero (duration c)) ->
            t_le (nextStartTime b) (nextStartTime (playAll cs b)).
Proof.
  induction cs as [|c cs IH]; intros b Hd; [apply t_le_refl|].
  rewrite playAll_cons. eapply t_le_trans.
  - apply playChunk_cursor. apply Hd. now left.
  - apply IH. intros c' Hc'. apply Hd. now right.
Qed.

Lemma schedule_after_clock (cs : list (Chunk T)) :
  forall cursor k c s d,
    nth_error cs k = Some c -> nth_error (schedule cursor cs) k = Some (s, d) ->
    t_le (currentTime c) s.
Proof.
  induction cs as [|c0 cs IH]; intros cursor [|k] c s d Hc Hs; simpl in *;
    try discriminate.
  - injection Hc as <-. injection Hs as <- _. apply t_max_r.
  - eapply IH; eassumption.
Qed.

Lemma schedule_ends_before_cursor (cs : list (Chunk T)) :
  forall b k s d,
    (forall c, In c cs -> t_le t_zero (duration c)) ->
    nth_error (schedule (nextStartTime b) cs) k = Some (s, d) ->
    t_le (t_add s d) (nextStartTime (playAll cs b)).
Proof.
  induction cs as [|c0 cs IH]; intros b [|k] s d Hd Hs; simpl in Hs; try discriminate.
  - injection Hs as <- <-. rewrite playAll_cons.
    apply (playAll_cursor cs (playChunk c0 b)).
    intros c' Hc'. apply Hd. now right.
  - rewrite playAll_cons. apply (IH (playChunk c0 b) k s d).
    + intros c' Hc'. apply Hd. now right.
    + exact Hs.
Qed.

End CursorFacts.

(** X18.  With non-negative durations, the scheduler never starts a chunk
    before the playback clock read for it, never moves the cursor back, and
    keeps the cursor at or after the end of every chunk it has started. *)
Theorem playback_never_goes_back {T : Type} `{Timeline T}
        (cs : list (Chunk T)) (b : Bridge T) :
  (forall c, In c cs -> t_le t_zero (duration c)) ->
  exists sched,
    started (playAll cs b) = started b ++ sched /\
    (forall k c s d,
        nth_error cs k = Some c -> nth_error sched k = Some (s, d) ->
        t_le (currentTime c) s) /\
    (forall k s d,
        nth_error sched k = Some (s, d) ->
        t_le (t_add s d) (nextStartTime (playAll cs b))) /\
    t_le (nextStartTime b) (nextStartTime (playAll cs b)).
Proof.
  intros Hd. exists (schedule (nextStartTime b) cs).
  split; [apply playAll_started|]. split; [|split].
  - intros k c s d. apply schedule_after_clock.
  - intros k s d. apply schedule_ends_before_cursor. exact Hd.
  - apply playAll_cursor. exact Hd.
Qed.

Lemma playback_never_goes_back_at_burst :
  (forall c, In c burst -> (0 <= duration c)%Q) /\
  (0 <= nextStartTime (playAll burst (mkBridge 0%Q false [])))%Q.
Proof.
  assert (Hdur : forall c, In c burst -> t_le t_zero (duration c)).
  { intros c [<-|[<-|[<-|[]]]]; simpl; discriminate. }
  split; [exact Hdur|].
  destruct (playback_never_goes_back burst (mkBridge 0%Q false []) Hdur)
    as (sched & _ & _ & _ & Hc).
  exact Hc.
Defined.

Section BurstFacts.

Context {T : Type} `{Timeline T}.

Lemma scheduleRun_arrivals clocks :
  forall (cursor : T) steps,
    scheduleRun cursor (map Arrives clocks ++ steps)
    = scheduleRun (fold_left t_max clocks cursor) steps.
Proof.
  induction clocks as [|clock rest IH]; intros cursor steps; [reflexivity|].
  cbn [map app scheduleRun fold_left]. apply IH.
Qed.

Lemma scheduleRun_decodings durations :
  forall cursor : T, scheduleRun cursor (map Decoded durations) = backToBack cursor durations.
Proof.
  induction durations as [|d rest IH]; intros cursor; [reflexivity|].
  cbn [map scheduleRun backToBack]. now rewrite IH.
Qed.

Lemma audioRun_arrivals clocks :
  forall b : Bridge T,
    nextStartTime (audioRun (map Arrives clocks) b) = fold_left t_max clocks (nextStartTime b).
Proof.
  induction clocks as [|clock rest IH]; intros b; [reflexivity|].
  change (audioRun (map Arrives (clock :: rest)) b)
    with (audioRun (map Arrives rest) (onAudio clock b)).
  now rewrite IH.
Qed.

Lemma audioRun_decodings durations :
  forall b : Bridge T,
    nextStartTime (audioRun (map Decoded durations) b)
    = fold_left t_add durations (nextStartTime b).
Proof.
  induction durations as [|d rest IH]; intros b; [reflexivity|].
  change (audioRun (map Decoded (d :: rest)) b)
    with (audioRun (map Decoded rest) (onDecoded d b)).
  now rewrite IH.
Qed.

Lemma backToBack_next durations :
  forall (start : T) k s d s' d',
    nth_error (backToBack start durations) k = Some (s, d) ->
    nth_error (backToBack start durations) (S k) = Some (s', d') ->
    s' = t_add s d.
Proof.
  induction durations as [|d0 rest IH]; intros start k s d s' d' H1 H2;
    cbn [backToBack] in H1, H2.
  - destruct k; discriminate.
  - destruct k as [|k]; cbn [nth_error] in H1, H2.
    + injection H1 as <- <-. destruct rest as [|d1 rest]; cbn [backToBack nth_error] in H2;
        [discriminate|]. now injection H2 as <- _.
    + exact (IH _ k s d s' d' H1 H2).
Qed.

End BurstFacts.

(** X19.  When the messages of a burst all arrive before the first buffer is
    decoded, their chunks are played exactly back to back: the first starts
    at the largest of the cursor and the clocks read, and every next one at
    the sum, as the code computes it, of the start and the duration of the
    one before.  The cursor ends at the sum of that first start and all the
    durations. *)
Theorem burst_in_flight_is_played_back_to_back {T : Type} `{Timeline T}
        (clocks durations : list T) (b : Bridge T) :
  let top := fold_left t_max clocks (nextStartTime b) in
  let final := audioRun (map Arrives clocks ++ map Decoded durations) b in
  started final = started b ++ backToBack top durations /\
  nextStartTime final = fold_left t_add durations top /\
  (forall k s d s' d',
      nth_error (backToBack top durations) k = Some (s, d) ->
      nth_error (backToBack top durations) (S k) = Some (s', d') ->
      s' = t_add s d).
Proof.
  intros top final. split; [|split].
  - unfold final. rewrite audioRun_started, scheduleRun_arrivals, scheduleRun_decodings.
    reflexivity.
  - unfold final. rewrite audioRun_app, audioRun_decodings, audioRun_arrivals. reflexivity.
  - apply backToBack_next.
Qed.

(** ** What the cards show *)

(** X21.  After a configuration is applied, with draws in [0, 1), every card
    of the fleet is the idle card: not dimmed, no busy overlay, a green dot
    with its ring, the pulsing placeholder, a healthy battery and the home
    screen as active app. *)
Theorem fresh_fleet_shows_idle_cards (host : Host) content w :
  (forall k, (0 <= Math_random host k)%Q /\ (Math_random host k < 1)%Q) ->
  Forall (fun d => DeviceCard d = idleCard) (registry (parseConfig host content w)).
Proof.
  intros Hrand.
  apply (parseConfig_Forall host _ (fun _ => True)).
  - intros devs k line _ Hdevs.
    destruct (parseConfig_line_cases host devs k line)
      as [->|(f1 & f2 & f3 & rest & m & os & _ & _ & ->)]; [exact Hdevs|].
    simpl. apply Forall_app. split; [exact Hdevs|].
    constructor; [|constructor].
    destruct (Hrand k) as [H0 H1].
    pose proof (randomBattery_lower _ H0) as Hb.
    unfold DeviceCard, idleCard, notOffline.
    cbn [status batteryLevel currentApp lastScreenshot Status_eqb negb JS.orElse].
    assert (E : (randomBattery (Math_random host k) <? 20)%Z = false)
      by (apply Z.ltb_ge; lia).
    rewrite E. reflexivity.
  - apply Forall_forall. auto.
Qed.

Lemma fresh_fleet_shows_idle_cards_at_default :
  (forall k, (0 <= Math_random hostHalf k)%Q /\ (Math_random hostHalf k < 1)%Q) /\
  List.length (registry (parseConfig hostHalf DEFAULT_CONFIG w0)) = 3 /\
  Forall (fun d => DeviceCard d = idleCard)
         (registry (parseConfig hostHalf DEFAULT_CONFIG w0)).
Proof.
  assert (Hrand : forall k, (0 <= Math_random hostHalf k)%Q /\ (Math_random hostHalf k < 1)%Q).
  { intros k. split; simpl; [discriminate | reflexivity]. }
  split; [exact Hrand|]. split; [reflexivity|].
  exact (fresh_fleet_shows_idle_cards hostHalf DEFAULT_CONFIG w0 Hrand).
Defined.

Section CardFacts.

Variable host : Host.

Lemma dispatch_positions devices action argument targetDevices w :
  let targets := resolveTargets devices targetDevices in
  targets <> [] ->
  exists deviceNames wb,
    handleScriptExecution_begin host devices action argument targetDevices w
    = Awaiting targets deviceNames wb /\
    forall k d,
      nth_error (registry w) k = Some d ->
      nth_error (registry wb) k = Some (if isTarget targets d then withStatus busy d else d) /\
      exists f,
        nth_error
          (registry (snd (handleScriptExecution host devices action argument targetDevices w)))
          k = Some f /\
        replacedBy host action argument targets w d f.
Proof.
  intros targets Hne.
  destruct (dispatch_shape host devices action argument targetDevices w Hne)
    as (deviceNames & wb & result & wf & Hb & _ & _ & Rb & _).
  exists deviceNames, wb. split; [exact Hb|].
  intros k d Hd. split.
  - rewrite Rb. now apply markBusy_nth_error.
  - exact (Forall2_nth_error _ _ _
             (dispatch_records host devices action argument targetDevices w) k d Hd).
Qed.

Lemma card_of_busy d :
  let c := DeviceCard (withStatus busy d) in
  card_dimmed c = false /\ card_busyOverlay c = true /\
  card_ping c = Some amber /\ card_dot c = amber.
Proof. repeat split. Qed.

Lemma card_of_settled action argument d w :
  let c := DeviceCard (fst (applyCommand host action argument (withStatus busy d) w)) in
  card_busyOverlay c = false /\
  card_dimmed c = Status_eqb (settledStatus action) offline /\
  card_dot c = match action with RESTART => rose | _ => emerald end /\
  card_ping c = match action with RESTART => None | _ => Some emerald end.
Proof. destruct action; repeat split. Qed.

Lemma orElse_orElse a dflt other :
  dflt <> "" -> JS.orElse (Some (JS.orElse a dflt)) other = JS.orElse a dflt.
Proof.
  intros Hd. unfold JS.orElse at 1.
  destruct (String.eqb (JS.orElse a dflt) "") eqn:E; [|reflexivity].
  apply String.eqb_eq in E. exfalso.
  unfold JS.orElse in E. destruct a as [s|]; [|contradiction].
  destruct (String.eqb s "") eqn:Es; [contradiction|].
  apply String.eqb_neq in Es. contradiction.
Qed.

Lemma screen_of_withStatus s d :
  card_screen (DeviceCard (withStatus s d)) = screenUnder s (card_screen (DeviceCard d)).
Proof.
  unfold DeviceCard, notOffline. cbn [card_screen lastScreenshot withStatus status].
  destruct (lastScreenshot d) as [src|].
  - destruct (String.eqb src ""); [|reflexivity].
    destruct s, (status d); reflexivity.
  - destruct s, (status d); reflexivity.
Qed.

Lemma card_content_of_settled action argument d w :
  let c := DeviceCard (fst (applyCommand host action argument (withStatus busy d) w)) in
  card_batteryTone c = card_batteryTone (DeviceCard d) /\
  card_activeApp c =
    match action with
    | URL => "Safari"
    | LAUNCH => JS.orElse argument "App"
    | KILL | HOME => "SpringBoard"
    | _ => card_activeApp (DeviceCard d)
    end /\
  card_screen c =
    match action with
    | SCREENSHOT => ScreenImage (screenshotUrl host (Math_random host (reads w)))
    | _ => screenUnder (settledStatus action) (card_screen (DeviceCard d))
    end.
Proof.
  intros c. split; [destruct action; reflexivity|]. split.
  - destruct action; try reflexivity.
    unfold c. apply (orElse_orElse argument "App" "SpringBoard"). discriminate.
  - destruct action;
      try (exact (screen_of_withStatus connected d));
      try (exact (screen_of_withStatus offline d)).
    reflexivity.
Qed.

End CardFacts.

(** X22.  The status decorations of the cards across a dispatch.  While the
    dispatch is in flight every targeted card has the busy overlay, an amber
    dot with its ring, and is not dimmed.  Afterwards the overlay is gone;
    the card is dimmed, with a red dot and no ring, exactly for the restart
    action, and has a green dot with its ring for every other action.  The
    card of a device that is not targeted is the same record throughout. *)
Theorem card_status_across_a_dispatch (host : Host) devices action argument targetDevices w :
  let targets := resolveTargets devices targetDevices in
  targets <> [] ->
  exists deviceNames wb,
    handleScriptExecution_begin host devices action argument targetDevices w
    = Awaiting targets deviceNames wb /\
    forall k d,
      nth_error (registry w) k = Some d ->
      exists b f,
        nth_error (registry wb) k = Some b /\
        nth_error
          (registry (snd (handleScriptExecution host devices action argument targetDevices w)))
          k = Some f /\
        if isTarget targets d
        then (card_dimmed (DeviceCard b) = false /\ card_busyOverlay (DeviceCard b) = true /\
              card_ping (DeviceCard b) = Some amber /\ card_dot (DeviceCard b) = amber) /\
             (card_busyOverlay (DeviceCard f) = false /\
              card_dimmed (DeviceCard f) = Status_eqb (settledStatus action) offline /\
              card_dot (DeviceCard f) = match action with RESTART => rose | _ => emerald end /\
              card_ping (DeviceCard f)
              = match action with RESTART => None | _ => Some emerald end)
        else b = d /\ f = d.
Proof.
  intros targets Hne.
  destruct (dispatch_positions host devices action argument targetDevices w Hne)
    as (deviceNames & wb & Hb & Hpos).
  exists deviceNames, wb. split; [exact Hb|].
  intros k d Hd. destruct (Hpos k d Hd) as (Hbusy & f & Hf & Hrep).
  fold targets in Hbusy, Hrep.
  exists (if isTarget targets d then withStatus busy d else d), f.
  split; [exact Hbusy|]. split; [exact Hf|].
  unfold replacedBy in Hrep. destruct (isTarget targets d).
  - destruct Hrep as (w1 & _ & ->). split.
    + apply card_of_busy.
    + apply card_of_settled.
  - split; [reflexivity | exact Hrep].
Qed.

Lemma card_status_across_a_dispatch_at_fleet :
  resolveTargets (registry fleet) ["all"] <> [] /\
  map (fun d => card_dot (DeviceCard d))
      (registry (snd (handleScriptExecution host0 (registry fleet) RESTART None ["all"] fleet)))
  = [rose; rose; rose] /\
  exists deviceNames wb,
    handleScriptExecution_begin host0 (registry fleet) RESTART None ["all"] fleet
    = Awaiting (resolveTargets (registry fleet) ["all"]) deviceNames wb.
Proof.
  assert (Hne : resolveTargets (registry fleet) ["all"] <> []) by discriminate.
  split; [exact Hne|]. split; [reflexivity|].
  destruct (card_status_across_a_dispatch host0 (registry fleet) RESTART None ["all"] fleet Hne)
    as (deviceNames & wb & Hb & _).
  exists deviceNames, wb. exact Hb.
Defined.

(** X23.  The content of a targeted card after a dispatch.  The battery
    colour is never changed.  The active-app label is Safari after open-url,
    the argument (or App when it is absent or empty) after launch, the home
    screen after kill and home, and unchanged otherwise.  The screen area
    shows the new image after screenshot; otherwise it keeps the image it
    had, and a card without an image shows the pulsing placeholder, or the
    still NO SIGNAL text after restart. *)
Theorem card_content_after_a_dispatch (host : Host) devices action argument targetDevices w :
  let targets := resolveTargets devices targetDevices in
  let wf := snd (handleScriptExecution host devices action argument targetDevices w) in
  forall k d,
    nth_error (registry w) k = Some d ->
    isTarget targets d = true ->
    exists f,
      nth_error (registry wf) k = Some f /\
      card_batteryTone (DeviceCard f) = card_batteryTone (DeviceCard d) /\
      card_activeApp (DeviceCard f) =
        match action with
        | URL => "Safari"
        | LAUNCH => JS.orElse argument "App"
        | KILL | HOME => "SpringBoard"
        | _ => card_activeApp (DeviceCard d)
        end /\
      match action with
      | SCREENSHOT =>
          exists n, reads w <= n /\
                    card_screen (DeviceCard f)
                    = ScreenImage (screenshotUrl host (Math_random host n))
      | _ => card_screen (DeviceCard f)
             = screenUnder (settledStatus action) (card_screen (DeviceCard d))
      end.
Proof.
  intros targets wf k d Hd Ht.
  destruct (Forall2_nth_error _ _ _
              (dispatch_records host devices action argument targetDevices w) k d Hd)
    as (f & Hf & Hrep).
  fold targets in Hrep. unfold replacedBy in Hrep. rewrite Ht in Hrep.
  destruct Hrep as (w1 & Hw1 & ->).
  eexists. split; [exact Hf|].
  destruct (card_content_of_settled host action argument d w1) as (Hbat & Happ & Hscr).
  split; [exact Hbat|]. split; [exact Happ|].
  destruct action; try exact Hscr.
  exists (reads w1). split; [exact Hw1 | exact Hscr].
Qed.

Lemma card_content_after_a_dispatch_at_fleet :
  nth_error (registry fleet) 0 = Some iphone16p /\
  isTarget (resolveTargets (registry fleet) ["all"]) iphone16p = true /\
  exists f,
    nth_error
      (registry (snd (handleScriptExecution host0 (registry fleet) LAUNCH (Some "") ["all"] fleet)))
      0 = Some f /\
    card_activeApp (DeviceCard f) = "App".
Proof.
  split; [reflexivity|]. split; [reflexivity|].
  destruct (card_content_after_a_dispatch host0 (registry fleet) LAUNCH (Some "") ["all"] fleet
              0 iphone16p eq_refl eq_refl) as (f & Hf & _ & Happ & _).
  exists f. split; [exact Hf | exact Happ].
Defined.

(** ** The quick-action bar *)

Section QuickActions.

Variable host : Host.
Context {T : Type} `{Timeline T}.

Lemma restart_all_offline w :
  allOffline (registry (snd (handleScriptExecution host (registry w) RESTART None ["all"] w))).
Proof.
  intros f Hf.
  destruct (Forall2_In_right _ _ _ f
              (dispatch_records host (registry w) RESTART None ["all"] w) Hf)
    as (d & Hd & Hrep).
  destruct (replacedBy_facts host _ _ _ _ _ _ Hrep) as (_ & Hyes & Hno).
  destruct (isTarget (resolveTargets (registry w) ["all"]) d) eqn:Et.
  - exact (Hyes eq_refl).
  - rewrite (Hno eq_refl).
    destruct (status d) eqn:Es; try reflexivity; exfalso;
      (assert (Hin : In d (resolveTargets (registry w) ["all"]))
        by (apply resolveTargets_In; split; [exact Hd|]; split;
            [rewrite Es; discriminate | left; now left]));
      apply (isTarget_self _ _) in Hin; congruence.
Qed.

Lemma allOffline_no_targets devices targetDevices :
  allOffline devices -> resolveTargets devices targetDevices = [].
Proof.
  intros Hoff. destruct (resolveTargets devices targetDevices) as [|d l] eqn:E; [reflexivity|].
  assert (Hin : In d (resolveTargets devices targetDevices)) by (rewrite E; now left).
  apply resolveTargets_In in Hin. destruct Hin as (Hd & Hon & _).
  exfalso. apply Hon. now apply Hoff.
Qed.

Lemma errorsOnly_refl l : errorsOnly l l.
Proof. exists []. split; [now rewrite app_nil_r | constructor]. Qed.

Lemma errorsOnly_trans l1 l2 l3 : errorsOnly l1 l2 -> errorsOnly l2 l3 -> errorsOnly l1 l3.
Proof.
  intros (a1 & -> & F1) (a2 & -> & F2). exists (a1 ++ a2).
  split; [now rewrite app_assoc | now apply Forall_app].
Qed.

Lemma quick_action_when_all_offline (e : Event T) (a : App T) :
  isQuickAction e = true ->
  allOffline (registry (world a)) ->
  registry (world (step host e a)) = registry (world a) /\
  commits (world (step host e a)) = commits (world a) /\
  errorsOnly (logs (world a)) (logs (world (step host e a))).
Proof.
  intros He Hoff. destruct e; try discriminate. cbn [step].
  destruct (nth_error quickActions button) as [cmd|].
  - cbn [world onWorld]. unfold handleScriptExecution.
    rewrite (begin_no_targets host _ cmd None ["all"] (world a)
               (allOffline_no_targets _ _ Hoff)).
    cbn [snd registry commits logs addLog].
    split; [reflexivity|]. split; [reflexivity|].
    eexists. split; [reflexivity|]. constructor; [reflexivity | constructor].
  - split; [reflexivity|]. split; [reflexivity|]. apply errorsOnly_refl.
Qed.

Lemma quick_actions_when_all_offline (es : list (Event T)) :
  forall a : App T,
    forallb isQuickAction es = true ->
    allOffline (registry (world a)) ->
    registry (world (run host es a)) = registry (world a) /\
    commits (world (run host es a)) = commits (world a) /\
    errorsOnly (logs (world a)) (logs (world (run host es a))).
Proof.
  induction es as [|e es IH]; intros a Hes Hoff.
  - split; [reflexivity|]. split; [reflexivity|]. apply errorsOnly_refl.
  - cbn [forallb] in Hes. apply andb_true_iff in Hes. destruct Hes as [He Hes].
    change (run host (e :: es) a) with (run host es (step host e a)).
    destruct (quick_action_when_all_offline e a He Hoff) as (R1 & C1 & L1).
    assert (Hoff1 : allOffline (registry (world (step host e a)))) by (rewrite R1; exact Hoff).
    destruct (IH (step host e a) Hes Hoff1) as (R2 & C2 & L2).
    split; [congruence|]. split; [congruence|]. eapply errorsOnly_trans; eassumption.
Qed.

End QuickActions.

(** X24.  The restart button of the quick-action bar takes every device
    offline, also those that were offline already.  From then on no button of
    the bar does anything but log an error: whatever buttons are clicked, the
    registry is not updated again and every entry added to the log has
    severity [error]. *)
Theorem restart_all_ends_quick_actions
        (host : Host) {T : Type} `{Timeline T} (es : list (Event T)) (a : App T) :
  forallb isQuickAction es = true ->
  let a1 := step host (ClickQuickAction 7) a in
  let a2 := run host es a1 in
  allOffline (registry (world a1)) /\
  registry (world a2) = registry (world a1) /\
  commits (world a2) = commits (world a1) /\
  errorsOnly (logs (world a1)) (logs (world a2)).
Proof.
  intros Hes a1 a2.
  assert (Hoff : allOffline (registry (world a1))).
  { unfold a1. cbn [step quickActions nth_error]. cbn [world onWorld].
    apply restart_all_offline. }
  split; [exact Hoff|].
  exact (quick_actions_when_all_offline host es a1 Hes Hoff).
Qed.

Lemma restart_all_ends_quick_actions_at_booted :
  let es := [ClickQuickAction 6; ClickQuickAction 0; ClickQuickAction 9] in
  let a1 := step host0 (ClickQuickAction 7) booted in
  forallb isQuickAction es = true /\
  map status (registry (world a1)) = [offline; offline; offline] /\
  registry (world (run host0 es a1)) = registry (world a1) /\
  List.length (logs (world (run host0 es a1))) = 2 + List.length (logs (world a1)).
Proof.
  intros es a1. split; [reflexivity|]. split; [reflexivity|].
  destruct (restart_all_ends_quick_actions host0 es booted eq_refl) as (_ & Hr & _ & _).
  split; [exact Hr | reflexivity].
Defined.

(** ** The mount effect and the terminal *)

Section MountFacts.

Variable host : Host.

Lemma parseConfig_log content w :
  map logLine (logs (parseConfig host content w))
  = map logLine (logs w)
    ++ [(System, success,
         ("Configuration loaded. "
          ++ JS.ofNat (List.length (registry (parseConfig host content w)))
          ++ " devices found.")%string)].
Proof.
  unfold parseConfig.
  destruct (fold_left (parseConfig_line host) (JS.split "010" content) ([], reads w))
    as [new k].
  cbn [logs registry addLog setDevices]. rewrite map_app. reflexivity.
Qed.

Lemma parseConfig_count content w :
  List.length (registry (parseConfig host content w))
  = List.length (flat_map configRecord (JS.split "010" content)).
Proof.
  destruct (parseConfig_registry host content w) as [E _].
  rewrite <- E. now rewrite length_map.
Qed.

Lemma Terminal_rows_app l added :
  term_rows (Terminal (l ++ added)) = term_rows (Terminal l) ++ term_rows (Terminal added).
Proof. unfold Terminal. cbn [term_rows]. apply map_app. Qed.

End MountFacts.

(** X25.  The mount effect logs two lines, in this order: the success line
    of the parse, whose count is the number of records installed, which is
    the number of well-formed lines of the text; then the line that the
    dashboard is initialized.  From then on the terminal never shows its
    empty-state notice again, whatever the component handles, and the rows it
    showed stay where they are. *)
Theorem terminal_after_mount
        (host : Host) {T : Type} `{Timeline T} content (es : list (Event T)) (a : App T) :
  let mounted := onWorld (initialize host content) a in
  let later := run host es mounted in
  let n := List.length (registry (world mounted)) in
  n = List.length (flat_map configRecord (JS.split "010" content)) /\
  map logLine (logs (world mounted))
  = map logLine (logs (world a))
    ++ [(System, success, ("Configuration loaded. " ++ JS.ofNat n ++ " devices found.")%string);
        (System, info, "iOS AirCommand Dashboard Initialized.")] /\
  term_placeholder (Terminal (logs (world later))) = false /\
  firstn (List.length (logs (world mounted))) (term_rows (Terminal (logs (world later))))
  = term_rows (Terminal (logs (world mounted))).
Proof.
  intros mounted later n.
  assert (Hlogs : exists entry,
             logs (world mounted) = logs (parseConfig host content (world a)) ++ [entry] /\
             logLine entry = (System, info, "iOS AirCommand Dashboard Initialized.")).
  { eexists. split; reflexivity. }
  destruct Hlogs as (entry & Hm & He).
  destruct (run_extends host es mounted) as (added & Hl). fold later in Hl.
  split; [|split; [|split]].
  - exact (parseConfig_count host content (world a)).
  - rewrite Hm, map_app, (parseConfig_log host content (world a)).
    cbn [map]. rewrite He, <- app_assoc. reflexivity.
  - rewrite Hl, Hm. unfold Terminal. cbn [term_placeholder].
    rewrite !length_app. cbn [List.length]. apply Nat.eqb_neq. lia.
  - rewrite Hl, Terminal_rows_app.
    replace (List.length (logs (world mounted)))
      with (List.length (term_rows (Terminal (logs (world mounted)))) + 0)
      by (unfold Terminal; cbn [term_rows]; rewrite length_map; lia).
    rewrite firstn_app_2. cbn [firstn]. now rewrite app_nil_r.
Qed.
